(** * Rocket Dodge: the frame engine of [js/game.js]

    A shallow embedding of the game's module state and of the functions that
    advance it by one animation frame ([gameLoop] and everything it calls),
    followed by the properties of score, level, shield, high score and
    termination that the engine's description states.

    Conventions of the embedding.
    - A JavaScript Number is an exact rational ([Q]) kept in lowest terms,
      and arithmetic on Numbers is exact: where a sum or a product of the
      code is rounded to the nearest double, the model keeps the exact
      value.  Counters that the code only ever moves by whole amounts
      ([score], [level], [frameCount], [shieldTime], the stored high score)
      are [Z].  The remainder operator yields [None] for NaN.
    - The module-level [let] variables and the [rocket] object form the
      record [Game]; every function of the source is a function on [Game].
    - The browser is the record [Host]: canvas size, the values returned by
      successive [Math.random()] calls (a tape read through the cursor [rng]
      of the state) and the trigonometric values used for explosions.
      [document.hidden] is an argument of [gameLoop].
    - The [for (i = length - 1; i >= 0; i--)] loops that [splice] the current
      element are [reverseLoop]: elements are visited from the last to the
      first, each exactly once, and the survivors keep their order.
    - Drawing is left out.  The tape of random values holds the values that
      the code which changes the state draws; the three values that
      [drawRocket] draws for the flames in a frame reach no state and are
      not on it.
    - A second part, after the vocabulary of the engine, adds whole
      sessions: the states reachable through the entry points of the script
      ([Reachable]), and the page around the engine ([Page]) with the
      pending animation frame callbacks, [animationId], the instance and
      the listeners.  The functions that request or cancel frames are
      written once more on [Page]; what they do to the module state is what
      the functions on [Game] do.  The canvas of a session is the one of
      [Host] throughout. *)

From Stdlib Require Import ZArith QArith Qminmax Qreduction.
From Stdlib Require Import List String Bool Lia Lqa.
Import ListNotations.

Set Implicit Arguments.

Open Scope Z_scope.
Open Scope Q_scope.

(** ** Numbers *)

Definition Number := Q.

Declare Scope js_scope.
Delimit Scope js_scope with js.
Bind Scope js_scope with Number.

Module Num.

Definition add (a b : Number) : Number := Qred (a + b)%Q.
Definition sub (a b : Number) : Number := Qred (a - b)%Q.
Definition mul (a b : Number) : Number := Qred (a * b)%Q.
Definition div (a b : Number) : Number := Qred (a / b)%Q.
Definition neg (a : Number) : Number := Qred (- a)%Q.

Definition lt (a b : Number) : bool := negb (Qle_bool b a).
Definition gt (a b : Number) : bool := lt b a.
Definition le (a b : Number) : bool := Qle_bool a b.

(** [Math.max] and [Math.min] on two numbers. *)
Definition max (a b : Number) : Number := Qred (Qmax a b).
Definition min (a b : Number) : Number := Qred (Qmin a b).

(** [Math.hypot(dx, dy) < r], decided without the square root. *)
Definition hypot_lt (dx dy r : Number) : bool :=
  lt 0%Q r && lt (dx * dx + dy * dy)%Q (r * r)%Q.

(** A whole-valued Number. *)
Definition of_Z (z : Z) : Number := inject_Z z.

(** [a % b] on whole Numbers: the sign follows the dividend, and a zero
    divisor gives NaN ([None]). *)
Definition rem (a b : Z) : option Z :=
  if (b =? 0)%Z then None else Some (Z.rem a b).

(** [v === 0]; NaN is equal to nothing. *)
Definition is_zero (v : option Z) : bool :=
  match v with
  | Some r => (r =? 0)%Z
  | None => false
  end.

End Num.

Infix "+" := Num.add : js_scope.
Infix "-" := Num.sub : js_scope.
Infix "*" := Num.mul : js_scope.
Infix "/" := Num.div : js_scope.
Infix "<" := Num.lt : js_scope.
Infix ">" := Num.gt : js_scope.
Infix "<=" := Num.le : js_scope.
Notation "- a" := (Num.neg a) : js_scope.

Open Scope js_scope.

(** ** The host *)

Record Host := {
  canvas_width : Z;
  canvas_height : Z;
  (** the n-th value returned by [Math.random()] *)
  random_tape : nat -> Number;
  (** [Math.cos] and [Math.sin] of [(Math.PI * 2 * i) / 15] *)
  cos15 : nat -> Number;
  sin15 : nat -> Number
}.

(** ** Entities *)

Record Rocket := {
  rocket_x : Number;
  rocket_y : Number;
  rocket_width : Number;
  rocket_height : Number;
  rocket_velocity : Number;
  rocket_gravity : Number;
  rocket_boost : Number;
  hasShield : bool;
  shieldTime : Z;
  rotation : Number
}.

Record Obstacle := {
  obs_x : Number;
  topHeight : Number;
  bottomY : Number;
  obs_width : Number;
  passed : bool
}.

Record Star := {
  star_x : Number;
  star_y : Number;
  star_size : Number;
  star_collected : bool
}.

Record PowerUp := {
  pu_x : Number;
  pu_y : Number;
  pu_size : Number;
  pu_collected : bool;
  pu_type : string
}.

Inductive Color :=
| Hex (code : string)
| Hsl (hue : Number).

Record Particle := {
  p_x : Number;
  p_y : Number;
  p_vx : Number;
  p_vy : Number;
  p_size : Number;
  p_color : Color;
  p_life : Number
}.

(** The text last written to the elements the game reports through; [None]
    until the first write. *)
Record Dom := {
  gameOverScreen_shown : bool;
  finalScore : option Z;
  finalHighScore : option Z;
  scoreDisplay : option Z;
  highScoreDisplay : option Z;
  levelDisplay : option Z
}.

(** ** Module state *)

Record Game := {
  gameRunning : bool;
  score : Z;
  highScore : Z;
  level : Z;
  frameCount : Z;
  rocket : Rocket;
  obstacles : list Obstacle;
  stars : list Star;
  powerUps : list PowerUp;
  particles : list Particle;
  confettiParticles : list Particle;
  (** the [rocketDodgeHighScore] entry of [localStorage] *)
  localStorage : option Z;
  (** how many [Math.random()] values have been drawn *)
  rng : nat;
  dom : Dom
}.

(** Game settings. *)
Definition obstacleSpeed : Number := 5 # 2.
Definition obstacleGap : Number := 250.
Definition obstacleFrequency : Z := 140.

(** The [rocket] object as the module creates it. *)
Definition rocket0 : Rocket :=
  {| rocket_x := 100; rocket_y := 0; rocket_width := 40; rocket_height := 40;
     rocket_velocity := 0; rocket_gravity := 1 # 2; rocket_boost := (-10)%Q;
     hasShield := false; shieldTime := 0; rotation := 0 |}.

(** [localStorage.getItem('rocketDodgeHighScore') || 0] *)
Definition storedHighScore (cell : option Z) : Z :=
  match cell with
  | Some v => v
  | None => 0
  end.

Definition dom0 : Dom :=
  {| gameOverScreen_shown := false; finalScore := None; finalHighScore := None;
     scoreDisplay := None; highScoreDisplay := None; levelDisplay := None |}.

(** The state when the script has been evaluated. *)
Definition loaded (cell : option Z) : Game :=
  {| gameRunning := false; score := 0; highScore := storedHighScore cell;
     level := 1; frameCount := 0; rocket := rocket0;
     obstacles := []; stars := []; powerUps := []; particles := [];
     confettiParticles := []; localStorage := cell; rng := O; dom := dom0 |}.

(** ** Field updates *)

Definition set_gameRunning (g : Game) (v : bool) : Game :=
  {| gameRunning := v; score := score g; highScore := highScore g;
     level := level g; frameCount := frameCount g; rocket := rocket g;
     obstacles := obstacles g; stars := stars g; powerUps := powerUps g;
     particles := particles g; confettiParticles := confettiParticles g;
     localStorage := localStorage g; rng := rng g; dom := dom g |}.

Definition set_score (g : Game) (v : Z) : Game :=
  {| gameRunning := gameRunning g; score := v; highScore := highScore g;
     level := level g; frameCount := frameCount g; rocket := rocket g;
     obstacles := obstacles g; stars := stars g; powerUps := powerUps g;
     particles := particles g; confettiParticles := confettiParticles g;
     localStorage := localStorage g; rng := rng g; dom := dom g |}.

Definition set_highScore (g : Game) (v : Z) : Game :=
  {| gameRunning := gameRunning g; score := score g; highScore := v;
     level := level g; frameCount := frameCount g; rocket := rocket g;
     obstacles := obstacles g; stars := stars g; powerUps := powerUps g;
     particles := particles g; confettiParticles := confettiParticles g;
     localStorage := localStorage g; rng := rng g; dom := dom g |}.

Definition set_level (g : Game) (v : Z) : Game :=
  {| gameRunning := gameRunning g; score := score g; highScore := highScore g;
     level := v; frameCount := frameCount g; rocket := rocket g;
     obstacles := obstacles g; stars := stars g; powerUps := powerUps g;
     particles := particles g; confettiParticles := confettiParticles g;
     localStorage := localStorage g; rng := rng g; dom := dom g |}.

Definition set_frameCount (g : Game) (v : Z) : Game :=
  {| gameRunning := gameRunning g; score := score g; highScore := highScore g;
     level := level g; frameCount := v; rocket := rocket g;
     obstacles := obstacles g; stars := stars g; powerUps := powerUps g;
     particles := particles g; confettiParticles := confettiParticles g;
     localStorage := localStorage g; rng := rng g; dom := dom g |}.

Definition set_rocket (g : Game) (v : Rocket) : Game :=
  {| gameRunning := gameRunning g; score := score g; highScore := highScore g;
     level := level g; frameCount := frameCount g; rocket := v;
     obstacles := obstacles g; stars := stars g; powerUps := powerUps g;
     particles := particles g; confettiParticles := confettiParticles g;
     localStorage := localStorage g; rng := rng g; dom := dom g |}.

Definition set_obstacles (g : Game) (v : list Obstacle) : Game :=
  {| gameRunning := gameRunning g; score := score g; highScore := highScore g;
     level := level g; frameCount := frameCount g; rocket := rocket g;
     obstacles := v; stars := stars g; powerUps := powerUps g;
     particles := particles g; confettiParticles := confettiParticles g;
     localStorage := localStorage g; rng := rng g; dom := dom g |}.

Definition set_stars (g : Game) (v : list Star) : Game :=
  {| gameRunning := gameRunning g; score := score g; highScore := highScore g;
     level := level g; frameCount := frameCount g; rocket := rocket g;
     obstacles := obstacles g; stars := v; powerUps := powerUps g;
     particles := particles g; confettiParticles := confettiParticles g;
     localStorage := localStorage g; rng := rng g; dom := dom g |}.

Definition set_powerUps (g : Game) (v : list PowerUp) : Game :=
  {| gameRunning := gameRunning g; score := score g; highScore := highScore g;
     level := level g; frameCount := frameCount g; rocket := rocket g;
     obstacles := obstacles g; stars := stars g; powerUps := v;
     particles := particles g; confettiParticles := confettiParticles g;
     localStorage := localStorage g; rng := rng g; dom := dom g |}.

Definition set_particles (g : Game) (v : list Particle) : Game :=
  {| gameRunning := gameRunning g; score := score g; highScore := highScore g;
     level := level g; frameCount := frameCount g; rocket := rocket g;
     obstacles := obstacles g; stars := stars g; powerUps := powerUps g;
     particles := v; confettiParticles := confettiParticles g;
     localStorage := localStorage g; rng := rng g; dom := dom g |}.

Definition set_confettiParticles (g : Game) (v : list Particle) : Game :=
  {| gameRunning := gameRunning g; score := score g; highScore := highScore g;
     level := level g; frameCount := frameCount g; rocket := rocket g;
     obstacles := obstacles g; stars := stars g; powerUps := powerUps g;
     particles := particles g; confettiParticles := v;
     localStorage := localStorage g; rng := rng g; dom := dom g |}.

Definition set_localStorage (g : Game) (v : option Z) : Game :=
  {| gameRunning := gameRunning g; score := score g; highScore := highScore g;
     level := level g; frameCount := frameCount g; rocket := rocket g;
     obstacles := obstacles g; stars := stars g; powerUps := powerUps g;
     particles := particles g; confettiParticles := confettiParticles g;
     localStorage := v; rng := rng g; dom := dom g |}.

Definition set_rng (g : Game) (v : nat) : Game :=
  {| gameRunning := gameRunning g; score := score g; highScore := highScore g;
     level := level g; frameCount := frameCount g; rocket := rocket g;
     obstacles := obstacles g; stars := stars g; powerUps := powerUps g;
     particles := particles g; confettiParticles := confettiParticles g;
     localStorage := localStorage g; rng := v; dom := dom g |}.

Definition set_dom (g : Game) (v : Dom) : Game :=
  {| gameRunning := gameRunning g; score := score g; highScore := highScore g;
     level := level g; frameCount := frameCount g; rocket := rocket g;
     obstacles := obstacles g; stars := stars g; powerUps := powerUps g;
     particles := particles g; confettiParticles := confettiParticles g;
     localStorage := localStorage g; rng := rng g; dom := v |}.

Definition set_rocket_y (r : Rocket) (v : Number) : Rocket :=
  {| rocket_x := rocket_x r; rocket_y := v; rocket_width := rocket_width r;
     rocket_height := rocket_height r; rocket_velocity := rocket_velocity r;
     rocket_gravity := rocket_gravity r; rocket_boost := rocket_boost r;
     hasShield := hasShield r; shieldTime := shieldTime r;
     rotation := rotation r |}.

Definition set_rocket_velocity (r : Rocket) (v : Number) : Rocket :=
  {| rocket_x := rocket_x r; rocket_y := rocket_y r;
     rocket_width := rocket_width r; rocket_height := rocket_height r;
     rocket_velocity := v; rocket_gravity := rocket_gravity r;
     rocket_boost := rocket_boost r; hasShield := hasShield r;
     shieldTime := shieldTime r; rotation := rotation r |}.

Definition set_hasShield (r : Rocket) (v : bool) : Rocket :=
  {| rocket_x := rocket_x r; rocket_y := rocket_y r;
     rocket_width := rocket_width r; rocket_height := rocket_height r;
     rocket_velocity := rocket_velocity r; rocket_gravity := rocket_gravity r;
     rocket_boost := rocket_boost r; hasShield := v;
     shieldTime := shieldTime r; rotation := rotation r |}.

Definition set_shieldTime (r : Rocket) (v : Z) : Rocket :=
  {| rocket_x := rocket_x r; rocket_y := rocket_y r;
     rocket_width := rocket_width r; rocket_height := rocket_height r;
     rocket_velocity := rocket_velocity r; rocket_gravity := rocket_gravity r;
     rocket_boost := rocket_boost r; hasShield := hasShield r;
     shieldTime := v; rotation := rotation r |}.

Definition set_rotation (r : Rocket) (v : Number) : Rocket :=
  {| rocket_x := rocket_x r; rocket_y := rocket_y r;
     rocket_width := rocket_width r; rocket_height := rocket_height r;
     rocket_velocity := rocket_velocity r; rocket_gravity := rocket_gravity r;
     rocket_boost := rocket_boost r; hasShield := hasShield r;
     shieldTime := shieldTime r; rotation := v |}.

(** ** Host effects and loops *)

(** [Math.random()] *)
Definition Math_random (h : Host) (g : Game) : Number * Game :=
  (random_tape h (rng g), set_rng g (S (rng g))).

(** [for (let i = 0; i < n; i++) body], started at index [i]. *)
Fixpoint forLoop (n i : nat) (body : nat -> Game -> Game) (g : Game) : Game :=
  match n with
  | O => g
  | S n' => forLoop n' (S i) body (body i g)
  end.

(** [for (let i = l.length - 1; i >= 0; i--)] over an array of the state whose
    body mutates the element and may [splice(i, 1)] it away ([None]). *)
Fixpoint reverseLoop (A : Type) (body : A -> Game -> option A * Game)
  (l : list A) (g : Game) : list A * Game :=
  match l with
  | [] => ([], g)
  | a :: rest =>
      let (rest', g1) := reverseLoop body rest g in
      let (a', g2) := body a g1 in
      (match a' with
       | Some b => b :: rest'
       | None => rest'
       end, g2)
  end.

(** ** Particles *)

Definition createBoostParticles (h : Host) (g : Game) : Game :=
  forLoop 5 0 (fun _ g =>
    let (r1, g1) := Math_random h g in
    let (r2, g2) := Math_random h g1 in
    let (r3, g3) := Math_random h g2 in
    set_particles g3 (particles g3 ++
      [{| p_x := rocket_x (rocket g3);
          p_y := rocket_y (rocket g3) + rocket_height (rocket g3) / 2;
          p_vx := - r1 * 3 - 1;
          p_vy := r2 * 4 - 2;
          p_size := r3 * 4 + 2;
          p_color := Hex "#ffd93d";
          p_life := 30 |}])) g.

Definition createExplosion (h : Host) (x y : Number) (color : Color)
  (g : Game) : Game :=
  forLoop 15 0 (fun i g =>
    let (r1, g1) := Math_random h g in
    let (r2, g2) := Math_random h g1 in
    let (r3, g3) := Math_random h g2 in
    set_particles g3 (particles g3 ++
      [{| p_x := x;
          p_y := y;
          p_vx := cos15 h i * (r1 * 4 + 2);
          p_vy := sin15 h i * (r2 * 4 + 2);
          p_size := r3 * 6 + 3;
          p_color := color;
          p_life := 40 |}])) g.

Definition updateParticles (g : Game) : Game :=
  let (l, g') := reverseLoop (fun p g =>
    let p' := {| p_x := p_x p + p_vx p; p_y := p_y p + p_vy p;
                 p_vx := p_vx p; p_vy := p_vy p; p_size := p_size p;
                 p_color := p_color p; p_life := p_life p - 1 |} in
    (if p_life p' <= 0 then None else Some p', g)) (particles g) g in
  set_particles g' l.

Definition createConfetti (h : Host) (g : Game) : Game :=
  forLoop 120 0 (fun _ g =>
    let (r1, g1) := Math_random h g in
    let (r2, g2) := Math_random h g1 in
    let (r3, g3) := Math_random h g2 in
    let (r4, g4) := Math_random h g3 in
    let (r5, g5) := Math_random h g4 in
    let (r6, g6) := Math_random h g5 in
    set_confettiParticles g6 (confettiParticles g6 ++
      [{| p_x := r1 * Num.of_Z (canvas_width h);
          p_y := (-20)%Q;
          p_vx := r2 * 4 - 2;
          p_vy := r3 * 4 + 2;
          p_size := r4 * 8 + 4;
          p_color := Hsl (r5 * 360);
          p_life := r6 * 60 + 60 |}])) g.

Definition updateConfetti (h : Host) (g : Game) : Game :=
  let (l, g') := reverseLoop (fun c g =>
    let c' := {| p_x := p_x c + p_vx c; p_y := p_y c + p_vy c;
                 p_vx := p_vx c; p_vy := p_vy c + (1 # 20);
                 p_size := p_size c; p_color := p_color c;
                 p_life := p_life c - 1 |} in
    (if (p_life c' <= 0) || (p_y c' > Num.of_Z (canvas_height h) + 20)
     then None else Some c', g)) (confettiParticles g) g in
  set_confettiParticles g' l.

(** ** Score display and the end of a session *)

Definition updateScoreDisplay (g : Game) : Game :=
  set_dom g
    {| gameOverScreen_shown := gameOverScreen_shown (dom g);
       finalScore := finalScore (dom g);
       finalHighScore := finalHighScore (dom g);
       scoreDisplay := Some (score g);
       highScoreDisplay := Some (highScore g);
       levelDisplay := Some (level g) |}.

(** [endGame]. The confetti loop it starts runs its first frame at once; the
    frames after it are callbacks of their own, outside [gameLoop]. *)
Definition endGame (h : Host) (g : Game) : Game :=
  let g := set_gameRunning g false in
  let g := createConfetti h g in
  let g := if (score g >? highScore g)%Z
           then set_localStorage (set_highScore g (score g)) (Some (score g))
           else g in
  let g := set_dom g
    {| gameOverScreen_shown := true;
       finalScore := Some (score g);
       finalHighScore := Some (highScore g);
       scoreDisplay := scoreDisplay (dom g);
       highScoreDisplay := highScoreDisplay (dom g);
       levelDisplay := levelDisplay (dom g) |} in
  let g := updateScoreDisplay g in
  updateConfetti h g.

(** ** The rocket *)

Definition updateRocket (h : Host) (g : Game) : Game :=
  let r := rocket g in
  let r := set_rocket_velocity r (rocket_velocity r + rocket_gravity r) in
  let r := set_rocket_y r (rocket_y r + rocket_velocity r) in
  let r := set_rotation r (rocket_velocity r * (1 # 20)) in
  let r := if hasShield r
           then let r := set_shieldTime r (shieldTime r - 1) in
                if (shieldTime r <=? 0)%Z then set_hasShield r false else r
           else r in
  let g := set_rocket g r in
  if (rocket_y r + rocket_height r > Num.of_Z (canvas_height h))
     || (rocket_y r < 0)
  then if negb (hasShield r)
       then endGame h g
       else
         let r := set_rocket_y r
           (Num.max 0 (Num.min (Num.of_Z (canvas_height h) - rocket_height r)
                               (rocket_y r))) in
         let r := set_rocket_velocity r 0 in
         set_rocket g r
  else g.

(** ** Obstacles *)

(** [obstacleSpeed + level * 0.5], the distance everything scrolls per frame. *)
Definition scrollSpeed (g : Game) : Number :=
  obstacleSpeed + Num.of_Z (level g) * (1 # 2).

Definition createObstacle (h : Host) (g : Game) : Game :=
  let minHeight : Number := 80 in
  let maxHeight := Num.of_Z (canvas_height h) - obstacleGap - minHeight in
  let (r, g) := Math_random h g in
  let top := r * maxHeight + minHeight in
  set_obstacles g (obstacles g ++
    [{| obs_x := Num.of_Z (canvas_width h);
        topHeight := top;
        bottomY := top + obstacleGap;
        obs_width := 80;
        passed := false |}]).

Definition checkCollision (r : Rocket) (o : Obstacle) : bool :=
  (rocket_x r < obs_x o + obs_width o)
  && (rocket_x r + rocket_width r > obs_x o)
  && ((rocket_y r < topHeight o)
      || (rocket_y r + rocket_height r > bottomY o)).

Definition moveObstacle (g : Game) (o : Obstacle) : Obstacle :=
  {| obs_x := obs_x o - scrollSpeed g; topHeight := topHeight o;
     bottomY := bottomY o; obs_width := obs_width o; passed := passed o |}.

Definition markPassed (o : Obstacle) : Obstacle :=
  {| obs_x := obs_x o; topHeight := topHeight o; bottomY := bottomY o;
     obs_width := obs_width o; passed := true |}.

(** The collision branch of [updateObstacles]. *)
Definition hitObstacle (h : Host) (g : Game) : Game :=
  if hasShield (rocket g)
  then
    let g := set_rocket g (set_hasShield (rocket g) false) in
    let g := set_rocket g (set_shieldTime (rocket g) 0) in
    createExplosion h (rocket_x (rocket g)) (rocket_y (rocket g))
      (Hex "#4ecdc4") g
  else endGame h g.

(** One iteration of the loop of [updateObstacles]. *)
Definition obstacleBody (h : Host) (o : Obstacle) (g : Game)
  : option Obstacle * Game :=
  let o := moveObstacle g o in
  let g := if checkCollision (rocket g) o then hitObstacle h g else g in
  let (o, g) :=
    if negb (passed o) && (obs_x o + obs_width o < rocket_x (rocket g))
    then (markPassed o, set_score g (score g + 50))
    else (o, g) in
  (if obs_x o + obs_width o < 0 then None else Some o, g).

Definition updateObstacles (h : Host) (g : Game) : Game :=
  let (l, g') := reverseLoop (obstacleBody h) (obstacles g) g in
  set_obstacles g' l.

(** ** Stars *)

Definition createStar (h : Host) (g : Game) : Game :=
  let (r, g) := Math_random h g in
  set_stars g (stars g ++
    [{| star_x := Num.of_Z (canvas_width h);
        star_y := r * (Num.of_Z (canvas_height h) - 60) + 30;
        star_size := 15;
        star_collected := false |}]).

Definition moveStar (g : Game) (s : Star) : Star :=
  {| star_x := star_x s - scrollSpeed g; star_y := star_y s;
     star_size := star_size s; star_collected := star_collected s |}.

Definition markStar (s : Star) : Star :=
  {| star_x := star_x s; star_y := star_y s; star_size := star_size s;
     star_collected := true |}.

(** [dist < size + rocket.width / 2] for an item at [(x, y)]. *)
Definition inReach (r : Rocket) (x y size : Number) : bool :=
  Num.hypot_lt (rocket_x r + rocket_width r / 2 - x)
               (rocket_y r + rocket_height r / 2 - y)
               (size + rocket_width r / 2).

Definition starBody (h : Host) (s : Star) (g : Game) : option Star * Game :=
  let s := moveStar g s in
  let (s, g) :=
    if negb (star_collected s)
    then
      if inReach (rocket g) (star_x s) (star_y s) (star_size s)
      then
        let s := markStar s in
        let g := set_score g (score g + 100) in
        (s, createExplosion h (star_x s) (star_y s) (Hex "#ffd700") g)
      else (s, g)
    else (s, g) in
  (if star_x s < - star_size s then None else Some s, g).

Definition updateStars (h : Host) (g : Game) : Game :=
  let (l, g') := reverseLoop (starBody h) (stars g) g in
  set_stars g' l.

(** ** Power-ups *)

Definition createPowerUp (h : Host) (g : Game) : Game :=
  let (r, g) := Math_random h g in
  set_powerUps g (powerUps g ++
    [{| pu_x := Num.of_Z (canvas_width h);
        pu_y := r * (Num.of_Z (canvas_height h) - 60) + 30;
        pu_size := 20;
        pu_collected := false;
        pu_type := "shield" |}]).

Definition movePowerUp (g : Game) (p : PowerUp) : PowerUp :=
  {| pu_x := pu_x p - scrollSpeed g; pu_y := pu_y p; pu_size := pu_size p;
     pu_collected := pu_collected p; pu_type := pu_type p |}.

Definition markPowerUp (p : PowerUp) : PowerUp :=
  {| pu_x := pu_x p; pu_y := pu_y p; pu_size := pu_size p;
     pu_collected := true; pu_type := pu_type p |}.

Definition powerUpBody (h : Host) (p : PowerUp) (g : Game)
  : option PowerUp * Game :=
  let p := movePowerUp g p in
  let (p, g) :=
    if negb (pu_collected p)
    then
      if inReach (rocket g) (pu_x p) (pu_y p) (pu_size p)
      then
        let p := markPowerUp p in
        let g := set_rocket g (set_hasShield (rocket g) true) in
        let g := set_rocket g (set_shieldTime (rocket g) 300) in
        (p, createExplosion h (pu_x p) (pu_y p) (Hex "#4ecdc4") g)
      else (p, g)
    else (p, g) in
  (if pu_x p < - pu_size p then None else Some p, g).

Definition updatePowerUps (h : Host) (g : Game) : Game :=
  let (l, g') := reverseLoop (powerUpBody h) (powerUps g) g in
  set_powerUps g' l.

(** ** The frame *)

(** [obstacleFrequency - level * 5], the divisor of the spawn test. *)
Definition spawnPeriod (lvl : Z) : Z := obstacleFrequency - lvl * 5.

Definition generateObstacles (h : Host) (g : Game) : Game :=
  if Num.is_zero (Num.rem (frameCount g) (spawnPeriod (level g)))
  then createObstacle h g else g.

Definition generateStars (h : Host) (g : Game) : Game :=
  if Num.is_zero (Num.rem (frameCount g) 80) then createStar h g else g.

Definition generatePowerUps (h : Host) (g : Game) : Game :=
  if Num.is_zero (Num.rem (frameCount g) 300) then createPowerUp h g else g.

(** [Math.floor(score / 500) + 1] *)
Definition levelOf (s : Z) : Z := (s / 500 + 1)%Z.

(** The frame up to and including the spawn tests. *)
Definition beginFrame (h : Host) (g : Game) : Game :=
  let g := set_frameCount g (frameCount g + 1) in
  let g := set_level g (levelOf (score g)) in
  let g := updateRocket h g in
  let g := generateObstacles h g in
  let g := generateStars h g in
  generatePowerUps h g.

(** The five update loops. *)
Definition updateObjects (h : Host) (g : Game) : Game :=
  let g := updateObstacles h g in
  let g := updateStars h g in
  let g := updatePowerUps h g in
  let g := updateParticles g in
  updateConfetti h g.

(** [gameLoop], one call; [hidden] is [document.hidden]. *)
Definition gameLoop (h : Host) (hidden : bool) (g : Game) : Game :=
  if negb (gameRunning g) || hidden then g
  else
    let g := beginFrame h g in
    let g := updateObjects h g in
    let g := set_score g (score g + 1) in
    updateScoreDisplay g.

(** ** Session control *)

Definition resetGame (h : Host) (g : Game) : Game :=
  let g := set_gameRunning g false in
  let g := set_score g 0 in
  let g := set_level g 1 in
  let g := set_frameCount g 0 in
  let g := set_obstacles g [] in
  let g := set_stars g [] in
  let g := set_powerUps g [] in
  let g := set_particles g [] in
  let g := set_confettiParticles g [] in
  let g := set_rocket g
    (set_rocket_y (rocket g) (Num.of_Z (canvas_height h) / 2)) in
  let g := set_rocket g (set_rocket_velocity (rocket g) 0) in
  let g := set_rocket g (set_hasShield (rocket g) false) in
  set_rocket g (set_shieldTime (rocket g) 0).

(** [startGame]: a reset, the running flag, and the first frame at once. *)
Definition startGame (h : Host) (hidden : bool) (g : Game) : Game :=
  let g := resetGame h g in
  let g := set_gameRunning g true in
  let g := set_dom g
    {| gameOverScreen_shown := false;
       finalScore := finalScore (dom g);
       finalHighScore := finalHighScore (dom g);
       scoreDisplay := scoreDisplay (dom g);
       highScoreDisplay := highScoreDisplay (dom g);
       levelDisplay := levelDisplay (dom g) |} in
  gameLoop h hidden g.

Definition stopGame (g : Game) : Game := set_gameRunning g false.

(** [handleInput]: a click, a touch or the space bar. *)
Definition handleInput (h : Host) (hidden : bool) (g : Game) : Game :=
  if negb (gameRunning g) then startGame h hidden g
  else
    let g := set_rocket g
      (set_rocket_velocity (rocket g) (rocket_boost (rocket g))) in
    createBoostParticles h g.

(** [initGame], as far as the state goes: a reset and the score display. *)
Definition initGame (h : Host) (g : Game) : Game :=
  updateScoreDisplay (resetGame h g).

(** What the host can do to a session. *)
Inductive Event :=
| Frame (hidden : bool)
| Input (hidden : bool)
| Stop.

Definition handle (h : Host) (e : Event) (g : Game) : Game :=
  match e with
  | Frame hidden => gameLoop h hidden g
  | Input hidden => handleInput h hidden g
  | Stop => stopGame g
  end.

Fixpoint run (h : Host) (es : list Event) (g : Game) : Game :=
  match es with
  | [] => g
  | e :: es' => run h es' (handle h e g)
  end.

(** * Vocabulary of the properties

    Names for the blocks of the longer functions, for what a frame scores,
    collides with and collects, and for the relations the proofs go
    through; then the hosts and states the statements are tried on. *)

Close Scope js_scope.
Close Scope Q_scope.
Open Scope Z_scope.

Unset Implicit Arguments.

(** ** Parts of the state *)

(** The part of the state that particle effects never touch. *)
Definition core (g : Game) :=
  (gameRunning g, score g, highScore g, level g, frameCount g, rocket g,
   obstacles g, stars g, powerUps g, localStorage g, dom g).

(** The part of the state that [endGame] leaves alone. *)
Definition play (g : Game) :=
  (score g, level g, frameCount g, rocket g, obstacles g, stars g,
   powerUps g, particles g).

(** The non-shield fields of the rocket. *)
Definition geom (r : Rocket) :=
  (rocket_x r, rocket_y r, rocket_width r, rocket_height r,
   rocket_velocity r, rocket_gravity r, rocket_boost r, rotation r).

(** What [updateRocket] leaves alone. *)
Definition scene (g : Game) :=
  (score g, level g, frameCount g, obstacles g, stars g, powerUps g,
   particles g).

(** What the three spawn tests leave alone. *)
Definition unspawned (g : Game) :=
  (gameRunning g, score g, highScore g, level g, frameCount g, rocket g,
   particles g, confettiParticles g, localStorage g, dom g).

(** What the star loop leaves alone. *)
Definition offscore (g : Game) :=
  (gameRunning g, highScore g, level g, frameCount g, rocket g, obstacles g,
   powerUps g, localStorage g, dom g).

(** What the power-up loop leaves alone. *)
Definition offshield (g : Game) :=
  (gameRunning g, score g, highScore g, level g, frameCount g, obstacles g,
   stars g, localStorage g, dom g, geom (rocket g)).

(** ** Counting *)

(** Counting the elements that satisfy a test. *)
Definition countIf {A : Type} (p : A -> bool) (l : list A) : Z :=
  Z.of_nat (List.length (filter p l)).

(** ** Blocks of the longer functions *)

(** The high-score block of [endGame]. *)
Definition recordHighScore (g : Game) : Game :=
  if score g >? highScore g
  then set_localStorage (set_highScore g (score g)) (Some (score g))
  else g.

(** The game-over screen block of [endGame]. *)
Definition showGameOver (g : Game) : Game :=
  set_dom g
    {| gameOverScreen_shown := true;
       finalScore := Some (score g);
       finalHighScore := Some (highScore g);
       scoreDisplay := scoreDisplay (dom g);
       highScoreDisplay := highScoreDisplay (dom g);
       levelDisplay := levelDisplay (dom g) |}.

(** Gravity, integration, rotation and the shield timer. *)
Definition flyRocket (r : Rocket) : Rocket :=
  let r := set_rocket_velocity r
             (Num.add (rocket_velocity r) (rocket_gravity r)) in
  let r := set_rocket_y r (Num.add (rocket_y r) (rocket_velocity r)) in
  let r := set_rotation r (Num.mul (rocket_velocity r) (1 # 20)%Q) in
  if hasShield r
  then let r := set_shieldTime r (shieldTime r - 1) in
       if shieldTime r <=? 0 then set_hasShield r false else r
  else r.

(** The boundary test. *)
Definition outOfBounds (h : Host) (r : Rocket) : bool :=
  Num.gt (Num.add (rocket_y r) (rocket_height r)) (Num.of_Z (canvas_height h))
  || Num.lt (rocket_y r) 0%Q.

(** The shielded branch of the boundary test. *)
Definition clampRocket (h : Host) (r : Rocket) : Rocket :=
  set_rocket_velocity
    (set_rocket_y r
       (Num.max 0%Q (Num.min (Num.sub (Num.of_Z (canvas_height h))
                                    (rocket_height r))
                           (rocket_y r)))) 0%Q.

(** The rocket a frame settles on. *)
Definition settledRocket (h : Host) (r : Rocket) : Rocket :=
  let r := flyRocket r in
  if outOfBounds h r && hasShield r then clampRocket h r else r.

(** The state between [updateRocket] and the spawn tests. *)
Definition flown (h : Host) (g : Game) : Game :=
  updateRocket h
    (set_level (set_frameCount g (frameCount g + 1)) (levelOf (score g))).

(** The shield taken by a collision. *)
Definition dropShield (r : Rocket) : Rocket :=
  set_shieldTime (set_hasShield r false) 0.

(** The shield given by a power-up. *)
Definition raiseShield (r : Rocket) : Rocket :=
  set_shieldTime (set_hasShield r true) 300.

(** The state [startGame] hands to its first frame. *)
Definition started (h : Host) (g : Game) : Game :=
  let g := resetGame h g in
  let g := set_gameRunning g true in
  set_dom g
    {| gameOverScreen_shown := false;
       finalScore := finalScore (dom g);
       finalHighScore := finalHighScore (dom g);
       scoreDisplay := scoreDisplay (dom g);
       highScoreDisplay := highScoreDisplay (dom g);
       levelDisplay := levelDisplay (dom g) |}.

(** ** What a frame meets *)

(** The unshielded rocket leaves the playfield in this frame. *)
Definition boundaryCrash (h : Host) (g : Game) : bool :=
  let r := flyRocket (rocket g) in
  outOfBounds h r && negb (hasShield r).

(** The rocket and the moved obstacle overlap outside the gap. *)
Definition hit (g : Game) (o : Obstacle) : bool :=
  checkCollision (rocket g) (moveObstacle g o).

(** The moved obstacle earns its 50 points in this frame. *)
Definition awarded (g : Game) (o : Obstacle) : bool :=
  negb (passed o)
  && Num.lt (Num.add (obs_x (moveObstacle g o)) (obs_width o))
            (rocket_x (rocket g)).

(** The moved obstacle has left the screen. *)
Definition gone (g : Game) (o : Obstacle) : bool :=
  Num.lt (Num.add (obs_x (moveObstacle g o)) (obs_width o)) 0%Q.

(** Whether a loop over [n] colliding obstacles ends the session. *)
Definition crashes (shield : bool) (n : Z) : bool :=
  if shield then 2 <=? n else 1 <=? n.

(** The moved star is collected in this frame. *)
Definition starTaken (g : Game) (s : Star) : bool :=
  negb (star_collected s)
  && inReach (rocket g) (star_x (moveStar g s)) (star_y s) (star_size s).

(** The moved power-up is collected in this frame. *)
Definition puTaken (g : Game) (p : PowerUp) : bool :=
  negb (pu_collected p)
  && inReach (rocket g) (pu_x (movePowerUp g p)) (pu_y p) (pu_size p).

(** The rocket after the obstacle loop. *)
Definition afterObstacles (g : Game) : Rocket :=
  if hasShield (rocket g) && (0 <? countIf (hit g) (obstacles g))
  then dropShield (rocket g) else rocket g.

(** The rocket after the power-up loop, and so after the frame. *)
Definition afterPowerUps (g : Game) : Rocket :=
  if 0 <? countIf (puTaken g) (powerUps g)
  then raiseShield (afterObstacles g) else afterObstacles g.

(** What a frame scores, collides with and collects, read off the state the
    spawn tests leave ([beginFrame]): the obstacles that earn their 50
    points, *)
Definition obstaclesPassed (h : Host) (g : Game) : Z :=
  countIf (awarded (beginFrame h g)) (obstacles (beginFrame h g)).

(** the stars collected, *)
Definition starsCollected (h : Host) (g : Game) : Z :=
  countIf (starTaken (beginFrame h g)) (stars (beginFrame h g)).

(** the obstacles that collide with the rocket, *)
Definition obstacleHits (h : Host) (g : Game) : Z :=
  countIf (hit (beginFrame h g)) (obstacles (beginFrame h g)).

(** and the power-ups collected. *)
Definition powerUpsCollected (h : Host) (g : Game) : Z :=
  countIf (puTaken (beginFrame h g)) (powerUps (beginFrame h g)).

(** The rocket meets an obstacle while no shield is left to absorb it: the
    first collision of the frame finds the shield down, or it takes the
    shield and a second one follows. *)
Definition obstacleCrash (h : Host) (g : Game) : bool :=
  crashes (hasShield (rocket (beginFrame h g))) (obstacleHits h g).

(** An obstacle that is behind the rocket carries the [passed] flag. *)
Definition flagged (x : Number) (o : Obstacle) : Prop :=
  (obs_x o + obs_width o < x)%Q -> passed o = true.

(** A star within reach of the rocket carries the [collected] flag. *)
Definition reached (r : Rocket) (s : Star) : Prop :=
  inReach r (star_x s) (star_y s) (star_size s) = true ->
  star_collected s = true.

(** The test for the 50 points in the words of the claim, for comparison
    with [awarded]: the obstacle has not been awarded yet and in this frame
    its trailing edge, [x + width], crosses the leading edge of the rocket,
    [rocket.x + rocket.width]: it is not behind that edge before the move
    and is behind it after. *)
Definition crossesLeadingEdge (g : Game) (o : Obstacle) : bool :=
  negb (passed o)
  && negb (Num.lt (Num.add (obs_x o) (obs_width o))
             (Num.add (rocket_x (rocket g)) (rocket_width (rocket g))))
  && Num.lt (Num.add (obs_x (moveObstacle g o)) (obs_width o))
       (Num.add (rocket_x (rocket g)) (rocket_width (rocket g))).

(** The fifteen particles of an explosion at [(x, y)]. *)
Definition explosionAt (x y : Number) (c : Color) (p : Particle) : Prop :=
  p_x p = x /\ p_y p = y /\ p_color p = c /\ p_life p = 40%Q.

(** ** Changes inside a frame *)

(** A state change that neither ends the session nor touches the high score,
    the store or the game-over screen, and takes no points away. *)
Definition quiet (g g' : Game) : Prop :=
  gameRunning g' = gameRunning g /\ highScore g' = highScore g /\
  localStorage g' = localStorage g /\
  finalScore (dom g') = finalScore (dom g) /\
  finalHighScore (dom g') = finalHighScore (dom g) /\
  gameOverScreen_shown (dom g') = gameOverScreen_shown (dom g) /\
  score g <= score g'.

(** The changes a frame is made of: quiet ones and calls of [endGame]. *)
Inductive Steps (h : Host) : Game -> Game -> Prop :=
| steps_quiet g g' : quiet g g' -> Steps h g g'
| steps_endGame g : Steps h g (endGame h g)
| steps_trans g1 g2 g3 : Steps h g1 g2 -> Steps h g2 g3 -> Steps h g1 g3.

(** Where a frame that started in [g0] stands: still running, with the high
    score and the store untouched; or over, with [f] the score that the last
    call of [endGame] compared, stored and showed as the final score. *)
Definition Outcome (g0 g : Game) : Prop :=
  (gameRunning g = true /\ highScore g = highScore g0 /\
   localStorage g = localStorage g0 /\ score g0 <= score g) \/
  (gameRunning g = false /\
   exists f, finalScore (dom g) = Some f /\ score g0 <= f <= score g /\
             highScore g = Z.max (highScore g0) f /\
             localStorage g =
               (if f >? highScore g0 then Some f else localStorage g0)).

(** ** Sessions *)

(** [gameLoop] called once per entry of [hs]. *)
Definition frames (h : Host) (hs : list bool) (g : Game) : Game :=
  fold_left (fun s hidden => gameLoop h hidden s) hs g.

(** [n] visible frames. *)
Definition visible (n : nat) : list bool := repeat false n.

(** How many of the calls of [gameLoop], one per entry of [hs], take the
    session from running to not running. *)
Fixpoint gameOvers (h : Host) (hs : list bool) (g : Game) : nat :=
  match hs with
  | [] => O
  | hidden :: hs' =>
      let g' := gameLoop h hidden g in
      ((if gameRunning g && negb (gameRunning g') then 1 else 0)
       + gameOvers h hs' g')%nat
  end.

(** The points that obstacles and stars bring in [n] frames from [g]. *)
Fixpoint bonus (h : Host) (n : nat) (g : Game) : Z :=
  match n with
  | O => 0
  | S k => 50 * obstaclesPassed h g + 100 * starsCollected h g
           + bonus h k (gameLoop h false g)
  end.

(** The event starts a new session. *)
Definition restarts (e : Event) (g : Game) : bool :=
  match e with
  | Input _ => negb (gameRunning g)
  | _ => false
  end.

(** The level never runs ahead of the score. *)
Definition levelBehind (g : Game) : Prop :=
  0 <= score g /\ 1 <= level g <= levelOf (score g).

(** The stored high score, read as the script reads it, is the high score
    in memory. *)
Definition storeAgrees (g : Game) : Prop :=
  storedHighScore (localStorage g) = highScore g.

(** ** Scenarios *)

(** [Math.cos] and [Math.sin] of [2 * pi * i / 15], to three decimals. *)
Definition cosTable (i : nat) : Number :=
  nth i [1; 0.914; 0.669; 0.309; -0.105; -0.5; -0.809; -0.978; -0.978;
         -0.809; -0.5; -0.105; 0.309; 0.669; 0.914]%Q 0%Q.

(** The sines. *)
Definition sinTable (i : nat) : Number :=
  nth i [0; 0.407; 0.743; 0.951; 0.995; 0.866; 0.588; 0.208; -0.208;
         -0.588; -0.866; -0.995; -0.951; -0.743; -0.407]%Q 0%Q.

(** The default 800 x 600 canvas; every [Math.random()] returns a quarter. *)
Definition browser : Host :=
  {| canvas_width := 800; canvas_height := 600;
     random_tape := fun _ => (1 # 4)%Q;
     cos15 := cosTable; sin15 := sinTable |}.

(** A first visit: nothing stored, the first session just started. *)
Definition fresh : Game := startGame browser false (loaded None).

(** A session in flight: an obstacle about to fall behind the rocket and a
    star right in front of it. *)
Definition midGame : Game :=
  {| gameRunning := true; score := 700; highScore := 0; level := 2;
     frameCount := 650;
     rocket := set_rocket_y rocket0 300%Q;
     obstacles := [{| obs_x := 21%Q; topHeight := 100%Q; bottomY := 350%Q;
                      obs_width := 80%Q; passed := false |}];
     stars := [{| star_x := 125%Q; star_y := 320%Q; star_size := 15%Q;
                  star_collected := false |}];
     powerUps := []; particles := []; confettiParticles := [];
     localStorage := None; rng := O; dom := dom0 |}.

(** The first session of [fresh], left to fall for thirty more frames: the
    rocket is about to drop below the canvas. *)
Definition falling : Game := frames browser (repeat false 30) fresh.

(** A running session with the shield up and an obstacle whose upper part
    is right at the rocket. *)
Definition shielded : Game :=
  {| gameRunning := true; score := 700; highScore := 0; level := 2;
     frameCount := 650;
     rocket := set_shieldTime (set_hasShield (set_rocket_y rocket0 300%Q) true)
                 200;
     obstacles := [{| obs_x := 130%Q; topHeight := 400%Q; bottomY := 650%Q;
                      obs_width := 80%Q; passed := false |}];
     stars := []; powerUps := []; particles := []; confettiParticles := [];
     localStorage := None; rng := O; dom := dom0 |}.

(** The obstacle of [shielded]. *)
Definition pillar : Obstacle :=
  {| obs_x := 130%Q; topHeight := 400%Q; bottomY := 650%Q;
     obs_width := 80%Q; passed := false |}.

(** [shielded] with the rocket close to the top edge and moving up. *)
Definition rising : Game :=
  set_rocket shielded
    (set_rocket_velocity (set_rocket_y (rocket shielded) 4%Q) (-8)%Q).

(** [rising] without the shield: the rocket leaves the canvas at the top
    while it overlaps the obstacle. *)
Definition clipping : Game :=
  set_rocket rising (set_hasShield (rocket rising) false).

(** A power-up within the rocket's reach. *)
Definition gem : PowerUp :=
  {| pu_x := 125%Q; pu_y := 320%Q; pu_size := 20%Q; pu_collected := false;
     pu_type := "shield" |}.

(** [shielded], 200 ticks left on the timer, with no obstacle and with
    [gem]. *)
Definition recharging : Game := set_powerUps (set_obstacles shielded []) [gem].

(** A boost, then thirty-nine frames: the rocket rises by 95 pixels and is
    back where it was. *)
Definition cruise (k : nat) : list Event :=
  List.concat (repeat (Input false :: repeat (Frame false) 39) k).

(** Eleven such rounds and twenty frames of a twelfth. *)
Definition flight450 : list Event :=
  cruise 11 ++ Input false :: repeat (Frame false) 20.

(** The first session in the default canvas, kept in the air for 450 frames:
    one obstacle has been passed. *)
Definition atFiveHundred : Game := run browser flight450 fresh.



(** A canvas as tall and only 20 wide: an obstacle is behind the rocket as
    soon as it appears, and never in its way. *)
Definition shaft : Host :=
  {| canvas_width := 20; canvas_height := 130000;
     random_tape := fun _ => (1 # 4)%Q;
     cos15 := cosTable; sin15 := sinTable |}.

(** The default canvas with two chosen random values: the first obstacle
    gets its gap between 85 and 335, the second star sits at height 345. *)
Definition arcade : Host :=
  {| canvas_width := 800; canvas_height := 600;
     random_tape := fun n =>
       if Nat.eqb n 61 then (1 # 54)%Q
       else if Nat.eqb n 77 then (7 # 12)%Q
       else (1 # 4)%Q;
     cos15 := cosTable; sin15 := sinTable |}.

(** The first session in [arcade], kept in the air for 390 frames: the
    rocket is inside the first obstacle's gap and about to sink below it,
    with the second star coming within reach. *)
Definition beforeCrash : Game :=
  run arcade (cruise 9 ++ Input false :: repeat (Frame false) 38)
    (startGame arcade false (loaded None)).

(** The first session in the default canvas, kept in the air for 186 boosts
    (7255 frames), *)
Definition atLevel28 : Game := run browser (cruise 186) fresh.

(** and for 187 boosts (7294 frames). *)
Definition atLevel29 : Game := run browser (cruise 187) fresh.

(** The first session in the default canvas, kept in the air for 380
    frames: the trailing edge of the first obstacle, at 142, is about to
    move behind the leading edge of the rocket, at 140. *)
Definition crossing : Game :=
  run browser (cruise 9 ++ Input false :: repeat (Frame false) 28) fresh.

(** * Sessions and pages

    The entry points of the script that the frame engine leaves out, the
    states a page can reach through them, and names for what holds of
    these states; then the page around the engine, with its pending
    animation frames and its listeners. *)


Open Scope Q_scope.
Open Scope js_scope.

(** ** The other entry points *)

(** [handleKeyDown]: the space bar is an input, no other key is. *)
Definition handleKeyDown (h : Host) (hidden : bool) (code : string)
  (g : Game) : Game :=
  if String.eqb code "Space" then handleInput h hidden g else g.

Definition restartGame (h : Host) (hidden : bool) (g : Game) : Game :=
  startGame h hidden g.

Close Scope js_scope.
Close Scope Q_scope.

(** ** Reachable states *)

(** The states of a page: the script has been evaluated, and then
    [initGame], animation frames, clicks, touches and keys, the instance's
    [start], [restart] and [stop], and the calls of the confetti loops have
    followed in any order. *)
Inductive Reachable (h : Host) : Game -> Prop :=
| reach_loaded cell : Reachable h (loaded cell)
| reach_initGame g : Reachable h g -> Reachable h (initGame h g)
| reach_gameLoop hidden g : Reachable h g -> Reachable h (gameLoop h hidden g)
| reach_handleInput hidden g :
    Reachable h g -> Reachable h (handleInput h hidden g)
| reach_handleKeyDown hidden code g :
    Reachable h g -> Reachable h (handleKeyDown h hidden code g)
| reach_startGame hidden g :
    Reachable h g -> Reachable h (startGame h hidden g)
| reach_restartGame hidden g :
    Reachable h g -> Reachable h (restartGame h hidden g)
| reach_stopGame g : Reachable h g -> Reachable h (stopGame g)
| reach_confettiLoop g : Reachable h g -> Reachable h (updateConfetti h g).

(** The state of [handleInput] after its boost branch. *)
Definition boosted (h : Host) (g : Game) : Game :=
  createBoostParticles h
    (set_rocket g (set_rocket_velocity (rocket g) (rocket_boost (rocket g)))).

(** [Math.random()] returns values from 0 up to but not including 1. *)
Definition unitTape (h : Host) : Prop :=
  forall n, (0 <= random_tape h n)%Q /\ (random_tape h n < 1)%Q.

(** The constants of the [rocket] object. *)
Definition asBuilt (r : Rocket) : Prop :=
  rocket_x r = 100%Q /\ rocket_width r = 40%Q /\ rocket_height r = 40%Q /\
  rocket_gravity r = (1 # 2)%Q /\ rocket_boost r = (-10)%Q.

(** The shield flag and its timer go together. *)
Definition shieldTimed (r : Rocket) : Prop :=
  if hasShield r then 1 <= shieldTime r <= 300 else shieldTime r = 0.

(** Frames and points: every frame that ran gave its point, and everything
    else came in fifties. *)
Definition paced (g : Game) : Prop :=
  0 <= frameCount g <= score g /\
  (exists k, 0 <= k /\ score g = frameCount g + 50 * k) /\
  levelOf (frameCount g - 1) <= level g.

(** The obstacle that [createObstacle] builds from the random value [r]. *)
Definition spawnedObstacle (h : Host) (r : Number) : Obstacle :=
  let top :=
    Num.add (Num.mul r (Num.sub (Num.sub (Num.of_Z (canvas_height h))
                                         obstacleGap) 80%Q)) 80%Q in
  {| obs_x := Num.of_Z (canvas_width h); topHeight := top;
     bottomY := Num.add top obstacleGap; obs_width := 80%Q;
     passed := false |}.

(** An obstacle as the game makes and keeps them: 80 wide, not yet past
    the left edge, and flagged once it is behind the rocket. *)
Definition wellKept (o : Obstacle) : Prop :=
  obs_width o = 80%Q /\ ~ (obs_x o + obs_width o < 0)%Q /\ flagged 100%Q o.

(** Where the gap of an obstacle lies.  On a canvas of 330 pixels or more it
    is within the canvas, below an upper part of at least 80 pixels; on a
    shorter canvas the upper part is at most 80 pixels and the gap reaches
    the lower edge of the canvas or beyond. *)
Definition gapPlaced (h : Host) (o : Obstacle) : Prop :=
  if 330 <=? canvas_height h
  then (80 <= topHeight o)%Q /\ (bottomY o <= inject_Z (canvas_height h))%Q
  else (topHeight o <= 80)%Q /\ (inject_Z (canvas_height h) <= bottomY o)%Q.

(** The star that [createStar] builds from the random value [r]. *)
Definition spawnedStar (h : Host) (r : Number) : Star :=
  {| star_x := Num.of_Z (canvas_width h);
     star_y := Num.add (Num.mul r (Num.sub (Num.of_Z (canvas_height h)) 60%Q))
                       30%Q;
     star_size := 15%Q; star_collected := false |}.

(** The power-up that [createPowerUp] builds from the random value [r]. *)
Definition spawnedPowerUp (h : Host) (r : Number) : PowerUp :=
  {| pu_x := Num.of_Z (canvas_width h);
     pu_y := Num.add (Num.mul r (Num.sub (Num.of_Z (canvas_height h)) 60%Q))
                     30%Q;
     pu_size := 20%Q; pu_collected := false; pu_type := "shield" |}.

(** The height at which stars and power-ups are placed: at least 30 pixels
    from the upper and the lower edge of a canvas of 60 pixels or more. *)
Definition heightPlaced (h : Host) (y : Number) : Prop :=
  if 60 <=? canvas_height h
  then (30 <= y)%Q /\ (y <= inject_Z (canvas_height h) - 30)%Q
  else (inject_Z (canvas_height h) - 30 <= y)%Q /\ (y <= 30)%Q.

(** A star as the game makes and keeps them. *)
Definition starKept (h : Host) (s : Star) : Prop :=
  star_size s = 15%Q /\ ~ (star_x s < - (15))%Q /\ heightPlaced h (star_y s).

(** A power-up as the game makes and keeps them. *)
Definition powerUpKept (h : Host) (p : PowerUp) : Prop :=
  pu_size p = 20%Q /\ pu_type p = "shield"%string /\
  ~ (pu_x p < - (20))%Q /\ heightPlaced h (pu_y p).

(** While a session runs there is no confetti and no game-over screen. *)
Definition sober (g : Game) : Prop :=
  gameRunning g = true ->
  confettiParticles g = [] /\ gameOverScreen_shown (dom g) = false.

(** A particle that still has frames to live, forty at most. *)
Definition lively (p : Particle) : Prop :=
  (0 < p_life p)%Q /\ (p_life p <= 40)%Q.

(** The particle a frame later. *)
Definition aged (p : Particle) : Particle :=
  {| p_x := Num.add (p_x p) (p_vx p); p_y := Num.add (p_y p) (p_vy p);
     p_vx := p_vx p; p_vy := p_vy p; p_size := p_size p;
     p_color := p_color p; p_life := Num.sub (p_life p) 1%Q |}.

(** The five particles of a boost. *)
Definition boostParticle (r : Rocket) (p : Particle) : Prop :=
  p_x p = rocket_x r /\
  p_y p = Num.add (rocket_y r) (Num.div (rocket_height r) 2%Q) /\
  p_color p = Hex "#ffd93d" /\ p_life p = 30%Q.

(** ** The start of a session *)

(** The rocket at the end of the first frame of a session. *)
Definition launched (h : Host) (g : Game) : Rocket :=
  flyRocket (rocket (started h g)).

(** The state in which [startGame] leaves a visible page when its first
    frame keeps the rocket within the canvas. *)
Definition firstFrame (h : Host) (g : Game) : Game :=
  {| gameRunning := true; score := 1; highScore := highScore g; level := 1;
     frameCount := 1; rocket := launched h g;
     obstacles := []; stars := []; powerUps := []; particles := [];
     confettiParticles := [];
     localStorage := localStorage g; rng := rng g;
     dom := {| gameOverScreen_shown := false;
               finalScore := finalScore (dom g);
               finalHighScore := finalHighScore (dom g);
               scoreDisplay := Some 1;
               highScoreDisplay := Some (highScore g);
               levelDisplay := Some 1 |} |}.

(** ** Free flight *)

(** [n] as a Number. *)
Definition count (n : nat) : Q := inject_Z (Z.of_nat n).

(** Where gravity [a] takes a rocket in [n] frames from height [y] and
    velocity [v]: the velocity grows before it moves the rocket. *)
Definition heightAfter (n : nat) (y v a : Q) : Q :=
  (y + count n * v + a * (count n * (count n + 1)) * (1 # 2))%Q.

(** [shielded] with nothing in the way: the shield is up with 200 ticks
    left on its timer. *)
Definition guarded : Game := set_obstacles shielded [].

(** ** The obstacle list after a frame *)

(** The obstacle a frame later, seen from the state [s] in which the
    obstacle loop starts. *)
Definition advanced (s : Game) (o : Obstacle) : Obstacle :=
  if awarded s o then markPassed (moveObstacle s o) else moveObstacle s o.

(** The new obstacle of a spawn frame. *)
Definition spawnedAt (h : Host) (g : Game) (k : nat) : list Obstacle :=
  if Num.is_zero (Num.rem (frameCount g + 1)
                    (spawnPeriod (levelOf (score g))))
  then [spawnedObstacle h (random_tape h k)] else [].

(** ** The stars and the power-ups after a frame *)

(** The star a frame later. *)
Definition advancedStar (s : Game) (st : Star) : Star :=
  if starTaken s st then markStar (moveStar s st) else moveStar s st.

(** The moved star has left the screen. *)
Definition starGone (s : Game) (st : Star) : bool :=
  Num.lt (star_x (moveStar s st)) (Num.neg (star_size st)).

(** The power-up a frame later. *)
Definition advancedPowerUp (s : Game) (p : PowerUp) : PowerUp :=
  if puTaken s p then markPowerUp (movePowerUp s p) else movePowerUp s p.

(** The moved power-up has left the screen. *)
Definition powerUpGone (s : Game) (p : PowerUp) : bool :=
  Num.lt (pu_x (movePowerUp s p)) (Num.neg (pu_size p)).

(** The new star of a frame whose number is a multiple of 80. *)
Definition starAt (h : Host) (g : Game) (k : nat) : list Star :=
  if Num.is_zero (Num.rem (frameCount g + 1) 80)
  then [spawnedStar h (random_tape h k)] else [].

(** The new power-up of a frame whose number is a multiple of 300. *)
Definition powerUpAt (h : Host) (g : Game) (k : nat) : list PowerUp :=
  if Num.is_zero (Num.rem (frameCount g + 1) 300)
  then [spawnedPowerUp h (random_tape h k)] else [].

(** ** The page around the engine

    The engine once more, now with what it asks of the browser besides the
    canvas: animation frames and event listeners.  A request for an
    animation frame gets the next handle and joins the list of pending
    callbacks; a cancelled handle leaves it; when the browser runs a frame it
    calls the callbacks that were pending at its start, in the order of
    their requests.  Registering the same function twice for the same event
    registers it once; a function written in place is a new function at
    every registration.  The container that [initGame] finds is the same at
    every call, and the canvas in it is the one of [Host]. *)

(** What a pending animation frame will call: [gameLoop], or the
    [confettiLoop] of one call of [endGame], whose counter [confettiFrames]
    stands at the given value. *)
Inductive Callback :=
| GameLoop
| ConfettiLoop (confettiFrames : nat).

Record Page := {
  game : Game;
  (** [gameInstance] is not [null] *)
  gameInstance : bool;
  (** [animationId]; [None] is [null] *)
  animationId : option nat;
  (** the pending animation frame callbacks, oldest first *)
  requests : list (nat * Callback);
  (** the handle given to the last request *)
  lastHandle : nat;
  (** [handleInput] listens to [click] on the canvas *)
  clickListener : bool;
  (** [handleKeyDown] listens to [keydown] on the document *)
  keydownListener : bool;
  (** how many listeners [touchstart] has on the canvas *)
  touchListeners : nat
}.

Definition set_game (p : Page) (v : Game) : Page :=
  {| game := v; gameInstance := gameInstance p; animationId := animationId p;
     requests := requests p; lastHandle := lastHandle p;
     clickListener := clickListener p; keydownListener := keydownListener p;
     touchListeners := touchListeners p |}.

Definition set_gameInstance (p : Page) (v : bool) : Page :=
  {| game := game p; gameInstance := v; animationId := animationId p;
     requests := requests p; lastHandle := lastHandle p;
     clickListener := clickListener p; keydownListener := keydownListener p;
     touchListeners := touchListeners p |}.

Definition set_animationId (p : Page) (v : option nat) : Page :=
  {| game := game p; gameInstance := gameInstance p; animationId := v;
     requests := requests p; lastHandle := lastHandle p;
     clickListener := clickListener p; keydownListener := keydownListener p;
     touchListeners := touchListeners p |}.

Definition set_requests (p : Page) (v : list (nat * Callback)) : Page :=
  {| game := game p; gameInstance := gameInstance p;
     animationId := animationId p; requests := v; lastHandle := lastHandle p;
     clickListener := clickListener p; keydownListener := keydownListener p;
     touchListeners := touchListeners p |}.

(** The page when the script has been evaluated, before [autoInit]. *)
Definition evaluated (cell : option Z) : Page :=
  {| game := loaded cell; gameInstance := false; animationId := None;
     requests := []; lastHandle := O;
     clickListener := false; keydownListener := false;
     touchListeners := O |}.

Module OnPage.

(** A change of the module state alone. *)
Definition lift (f : Game -> Game) (p : Page) : Page := set_game p (f (game p)).

Definition requestAnimationFrame (cb : Callback) (p : Page) : nat * Page :=
  let id := S (lastHandle p) in
  (id, {| game := game p; gameInstance := gameInstance p;
          animationId := animationId p;
          requests := requests p ++ [(id, cb)]; lastHandle := id;
          clickListener := clickListener p;
          keydownListener := keydownListener p;
          touchListeners := touchListeners p |}).

Definition cancelAnimationFrame (id : nat) (p : Page) : Page :=
  set_requests p
    (filter (fun r => negb (Nat.eqb (fst r) id)) (requests p)).

(** The loops over an array of the state, as [reverseLoop], for bodies that
    act on the page. *)
Fixpoint reverseLoop (A : Type) (body : A -> Page -> option A * Page)
  (l : list A) (p : Page) : list A * Page :=
  match l with
  | [] => ([], p)
  | a :: rest =>
      let (rest', p1) := reverseLoop A body rest p in
      let (a', p2) := body a p1 in
      (match a' with
       | Some b => b :: rest'
       | None => rest'
       end, p2)
  end.

(** One call of the [confettiLoop] of [endGame]. *)
Definition confettiLoop (h : Host) (confettiFrames : nat) (p : Page) : Page :=
  let p := lift (updateConfetti h) p in
  if (confettiFrames <? 120)%nat
  then snd (requestAnimationFrame (ConfettiLoop (S confettiFrames)) p)
  else p.

Definition endGame (h : Host) (p : Page) : Page :=
  let p := lift (fun g => set_gameRunning g false) p in
  let p := lift (createConfetti h) p in
  let p := lift recordHighScore p in
  let p := lift showGameOver p in
  let p := lift updateScoreDisplay p in
  confettiLoop h 0 p.

Definition updateRocket (h : Host) (p : Page) : Page :=
  let r := flyRocket (rocket (game p)) in
  let p := lift (fun g => set_rocket g r) p in
  if outOfBounds h r
  then if negb (hasShield r)
       then endGame h p
       else lift (fun g => set_rocket g (clampRocket h r)) p
  else p.

(** One iteration of the loop of [updateObstacles]. *)
Definition obstacleBody (h : Host) (o : Obstacle) (p : Page)
  : option Obstacle * Page :=
  let o := moveObstacle (game p) o in
  let p :=
    if checkCollision (rocket (game p)) o
    then if hasShield (rocket (game p))
         then
           let p := lift (fun g =>
                      set_rocket g (set_hasShield (rocket g) false)) p in
           let p := lift (fun g =>
                      set_rocket g (set_shieldTime (rocket g) 0)) p in
           lift (fun g => createExplosion h (rocket_x (rocket g))
                            (rocket_y (rocket g)) (Hex "#4ecdc4") g) p
         else endGame h p
    else p in
  let (o, p) :=
    if negb (passed o) &&
       Num.lt (Num.add (obs_x o) (obs_width o)) (rocket_x (rocket (game p)))
    then (markPassed o, lift (fun g => set_score g (score g + 50)) p)
    else (o, p) in
  (if Num.lt (Num.add (obs_x o) (obs_width o)) 0%Q then None else Some o, p).

Definition updateObstacles (h : Host) (p : Page) : Page :=
  let (l, p') := reverseLoop Obstacle (obstacleBody h) (obstacles (game p)) p in
  lift (fun g => set_obstacles g l) p'.

Definition gameLoop (h : Host) (hidden : bool) (p : Page) : Page :=
  if negb (gameRunning (game p)) || hidden then p
  else
    let p := lift (fun g => set_frameCount g (frameCount g + 1)) p in
    let p := lift (fun g => set_level g (levelOf (score g))) p in
    let p := updateRocket h p in
    let p := lift (generateObstacles h) p in
    let p := lift (generateStars h) p in
    let p := lift (generatePowerUps h) p in
    let p := updateObstacles h p in
    let p := lift (updateStars h) p in
    let p := lift (updatePowerUps h) p in
    let p := lift updateParticles p in
    let p := lift (updateConfetti h) p in
    let p := lift (fun g => set_score g (score g + 1)) p in
    let p := lift updateScoreDisplay p in
    let (id, p) := requestAnimationFrame GameLoop p in
    set_animationId p (Some id).

Definition startGame (h : Host) (hidden : bool) (p : Page) : Page :=
  let p := lift (started h) p in
  let p := match animationId p with
           | Some id => cancelAnimationFrame id p
           | None => p
           end in
  gameLoop h hidden p.

Definition restartGame (h : Host) (hidden : bool) (p : Page) : Page :=
  startGame h hidden p.

Definition stopGame (p : Page) : Page :=
  let p := lift (fun g => set_gameRunning g false) p in
  match animationId p with
  | Some id => set_animationId (cancelAnimationFrame id p) None
  | None => p
  end.

Definition handleInput (h : Host) (hidden : bool) (p : Page) : Page :=
  if negb (gameRunning (game p)) then startGame h hidden p
  else lift (boosted h) p.

Definition handleKeyDown (h : Host) (hidden : bool) (code : string)
  (p : Page) : Page :=
  if String.eqb code "Space" then handleInput h hidden p else p.

Definition setupEventListeners (p : Page) : Page :=
  {| game := game p; gameInstance := gameInstance p;
     animationId := animationId p; requests := requests p;
     lastHandle := lastHandle p;
     clickListener := true; keydownListener := true;
     touchListeners := S (touchListeners p) |}.

(** [initGame] for a container that is [found] or not. *)
Definition initGame (h : Host) (found : bool) (p : Page) : Page :=
  if negb found then p
  else
    let p := lift (fun g => set_rocket g
               (set_rocket_y (rocket g)
                  (Num.div (Num.of_Z (canvas_height h)) 2%Q))) p in
    let p := lift (resetGame h) p in
    let p := setupEventListeners p in
    let p := lift updateScoreDisplay p in
    set_gameInstance p true.

(** [autoInit] on a page that has an element [gameCanvas], with a parent,
    or has not. *)
Definition autoInit (h : Host) (existingCanvas : bool) (p : Page) : Page :=
  if existingCanvas && negb (gameInstance p) then initGame h true p else p.

End OnPage.

(** What happens to a page: the browser runs an animation frame; the
    visitor clicks on the canvas, presses a key or touches the canvas; the
    page calls [initGame], for a container that is found or not, or calls
    [start], [restart] or [stop] of the instance that [initGame] returned.
    [hidden] is [document.hidden] at that moment. *)
Inductive Happening :=
| AnimationFrame (hidden : bool)
| Click (hidden : bool)
| KeyDown (code : string) (hidden : bool)
| TouchStart (hidden : bool)
| InitGame (found : bool)
| CallStart (hidden : bool)
| CallRestart (hidden : bool)
| CallStop.

(** The browser calls a pending callback. *)
Definition invoke (h : Host) (hidden : bool) (cb : Callback) (p : Page)
  : Page :=
  match cb with
  | GameLoop => OnPage.gameLoop h hidden p
  | ConfettiLoop confettiFrames => OnPage.confettiLoop h confettiFrames p
  end.

(** The handle is still pending. *)
Definition pending (id : nat) (p : Page) : bool :=
  existsb (fun r => Nat.eqb (fst r) id) (requests p).

(** The browser runs an animation frame: the callbacks that are pending at
    its start are called in turn, each unless it has been cancelled in the
    meantime; what they request is for the next frame. *)
Definition animationFrame (h : Host) (hidden : bool) (p : Page) : Page :=
  fold_left (fun p r =>
               if pending (fst r) p
               then invoke h hidden (snd r)
                      (OnPage.cancelAnimationFrame (fst r) p)
               else p)
    (requests p) p.

Definition happen (h : Host) (e : Happening) (p : Page) : Page :=
  match e with
  | AnimationFrame hidden => animationFrame h hidden p
  | Click hidden =>
      if clickListener p then OnPage.handleInput h hidden p else p
  | KeyDown code hidden =>
      if keydownListener p then OnPage.handleKeyDown h hidden code p else p
  | TouchStart hidden =>
      Nat.iter (touchListeners p) (OnPage.handleInput h hidden) p
  | InitGame found => OnPage.initGame h found p
  | CallStart hidden =>
      if gameInstance p then OnPage.startGame h hidden p else p
  | CallRestart hidden =>
      if gameInstance p then OnPage.restartGame h hidden p else p
  | CallStop => if gameInstance p then OnPage.stopGame p else p
  end.

(** The page after the happenings [es], first to last. *)
Definition after (h : Host) (es : list Happening) (p : Page) : Page :=
  fold_left (fun p e => happen h e p) es p.

(** The part of [gameLoop] between its guard and its request. *)
Definition framed (h : Host) (p : Page) : Page :=
  let p := OnPage.lift (fun g => set_frameCount g (frameCount g + 1)) p in
  let p := OnPage.lift (fun g => set_level g (levelOf (score g))) p in
  let p := OnPage.updateRocket h p in
  let p := OnPage.lift (generateObstacles h) p in
  let p := OnPage.lift (generateStars h) p in
  let p := OnPage.lift (generatePowerUps h) p in
  let p := OnPage.updateObstacles h p in
  let p := OnPage.lift (updateStars h) p in
  let p := OnPage.lift (updatePowerUps h) p in
  let p := OnPage.lift updateParticles p in
  let p := OnPage.lift (updateConfetti h) p in
  let p := OnPage.lift (fun g => set_score g (score g + 1)) p in
  OnPage.lift updateScoreDisplay p.

(** ** What the engine asks of the browser *)

(** The requests of [k] calls of [endGame], the first with handle
    [last + 1]. *)
Definition confettiRequests (last k : nat) : list (nat * Callback) :=
  map (fun id => (id, ConfettiLoop 1)) (seq (S last) k).

(** Apart from the module state, [p'] is [p] with the requests of [k] more
    calls of [endGame]. *)
Definition grows (k : nat) (p p' : Page) : Prop :=
  requests p' = requests p ++ confettiRequests (lastHandle p) k /\
  lastHandle p' = (lastHandle p + k)%nat /\
  animationId p' = animationId p /\ gameInstance p' = gameInstance p /\
  clickListener p' = clickListener p /\
  keydownListener p' = keydownListener p /\
  touchListeners p' = touchListeners p.

(** ** The pending callbacks *)

(** No call of [gameLoop] is pending. *)
Definition noLoop (p : Page) : Prop :=
  forall id, ~ In (id, GameLoop) (requests p).

(** The pending callbacks are in order: their handles have been given out
    and differ, a pending [gameLoop] is the one [animationId] names, and a
    pending [confettiLoop] has between 1 and 120 calls behind it. *)
Definition scheduled (p : Page) : Prop :=
  Forall (fun r => (fst r <= lastHandle p)%nat) (requests p) /\
  NoDup (map fst (requests p)) /\
  (forall id, In (id, GameLoop) (requests p) -> animationId p = Some id) /\
  (forall id c, In (id, ConfettiLoop c) (requests p) -> (1 <= c <= 120)%nat).

(** One callback of a frame. *)
Definition served (h : Host) (hidden : bool) (r : nat * Callback) (p : Page)
  : Page :=
  invoke h hidden (snd r) (OnPage.cancelAnimationFrame (fst r) p).

(** The page when the script has run, with an element [gameCanvas] or
    without. *)
Definition opened (h : Host) (cell : option Z) (existingCanvas : bool)
  : Page :=
  OnPage.autoInit h existingCanvas (evaluated cell).

(** The pending calls of [gameLoop]. *)
Definition loops (p : Page) : list (nat * Callback) :=
  filter (fun r => match snd r with GameLoop => true | _ => false end)
    (requests p).

(** A call of [gameLoop] is pending. *)
Definition hasLoop (p : Page) : Prop :=
  exists id, In (id, GameLoop) (requests p).

(** [document.hidden] when the happening takes place. *)
Definition hiddenAt (e : Happening) : bool :=
  match e with
  | AnimationFrame hidden | Click hidden | KeyDown _ hidden
  | TouchStart hidden | CallStart hidden | CallRestart hidden => hidden
  | InitGame _ | CallStop => false
  end.

(** Animation frames, clicks, keys and touches: what a visitor and the
    browser do to a page, as opposed to calls of [initGame] and of the
    instance's methods. *)
Definition visitor (e : Happening) : bool :=
  match e with
  | AnimationFrame _ | Click _ | KeyDown _ _ | TouchStart _ => true
  | InitGame _ | CallStart _ | CallRestart _ | CallStop => false
  end.

(** The session runs and no call of [gameLoop] is pending. *)
Definition stalled (p : Page) : Prop :=
  gameRunning (game p) = true /\ noLoop p.

(** ** A call of [gameLoop] in a hidden page *)

(** The counters of a session. *)
Definition counters (g : Game) : Z * Z * Z :=
  (score g, level g, frameCount g).

(** The listeners of a page. *)
Definition listeners (p : Page) : bool * bool * nat :=
  (clickListener p, keydownListener p, touchListeners p).

(** How many of the happenings are calls of [initGame] that find their
    container. *)
Definition inits (es : list Happening) : nat :=
  List.length
    (filter (fun e => match e with InitGame true => true | _ => false end)
       es).

(** A pending [confettiLoop] has enough calls before it to see this piece
    of confetti off: after [confettiFrames] calls there are
    [121 - confettiFrames] more, each of which takes one from the life. *)
Definition covered (p : Page) (c : Particle) : Prop :=
  exists id confettiFrames,
    In (id, ConfettiLoop confettiFrames) (requests p) /\
    (p_life c <= inject_Z (121 - Z.of_nat confettiFrames))%Q.

Definition watched (p : Page) : Prop :=
  Forall (covered p) (confettiParticles (game p)).

(** The handle in [animationId] has been given out, and not to a
    [confettiLoop] that is pending. *)
Definition named (p : Page) : Prop :=
  forall id, animationId p = Some id ->
    (id <= lastHandle p)%nat /\
    forall c, ~ In (id, ConfettiLoop c) (requests p).

Definition tidy (p : Page) : Prop := named p /\ watched p.

(** The life of the confetti [createConfetti] makes. *)
Definition newConfetti (c : Particle) : Prop :=
  (60 <= p_life c)%Q /\ (p_life c < 120)%Q.

(** A piece of confetti after [updateConfetti], from a piece of [l]. *)
Definition agedFrom (l : list Particle) (c' : Particle) : Prop :=
  exists c, In c l /\ (p_life c' == p_life c - 1)%Q /\ (0 < p_life c')%Q.

(** A click that starts a session, and frames until the rocket has fallen
    out of the canvas. *)
Definition falls : list Happening :=
  Click false :: repeat (AnimationFrame false) 40.

(** ** The frames after the game is over *)

(** Every pending callback is a [confettiLoop] with at least [j] calls
    behind it. *)
Definition confettiFrom (j : nat) (p : Page) : Prop :=
  forall r, In r (requests p) ->
            exists c, snd r = ConfettiLoop c /\ (j <= c)%nat.

(** ** The rocket and the canvas *)

(** The rocket is within the canvas, from its upper to its lower edge. *)
Definition inside (h : Host) (r : Rocket) : Prop :=
  (0 <= rocket_y r)%Q /\
  (rocket_y r + rocket_height r <= inject_Z (canvas_height h))%Q.

(** * Lemmas *)

(** Reduction of field reads over field updates, and nothing else. *)
Ltac fields :=
  cbn [gameRunning score highScore level frameCount rocket obstacles stars
       powerUps particles confettiParticles localStorage rng dom
       set_gameRunning set_score set_highScore set_level set_frameCount
       set_rocket set_obstacles set_stars set_powerUps set_particles
       set_confettiParticles set_localStorage set_rng set_dom
       rocket_x rocket_y rocket_width rocket_height rocket_velocity
       rocket_gravity rocket_boost hasShield shieldTime rotation
       set_rocket_y set_rocket_velocity set_hasShield set_shieldTime
       set_rotation fst snd] in *.

Arguments createConfetti : simpl never.
Arguments createExplosion : simpl never.
Arguments createBoostParticles : simpl never.
Arguments updateConfetti : simpl never.
Arguments updateParticles : simpl never.

(** ** Loops keep what their bodies keep *)

Section LoopFrames.

Context {A B : Type} (f : Game -> B).

Lemma forLoop_keeps (body : nat -> Game -> Game) :
  (forall i g, f (body i g) = f g) ->
  forall n i g, f (forLoop n i body g) = f g.
Proof.
  intros Hbody n; induction n as [|n IH]; intros i g; simpl.
  - reflexivity.
  - rewrite IH. apply Hbody.
Qed.

Lemma reverseLoop_keeps (body : A -> Game -> option A * Game) :
  (forall a g, f (snd (body a g)) = f g) ->
  forall l g, f (snd (reverseLoop body l g)) = f g.
Proof.
  intros Hbody l; induction l as [|a rest IH]; intros g; simpl.
  - reflexivity.
  - specialize (IH g).
    destruct (reverseLoop body rest g) as [rest' g1]; simpl in IH.
    specialize (Hbody a g1).
    destruct (body a g1) as [a' g2]; simpl in *. congruence.
Qed.

End LoopFrames.

Lemma core_fields g g' :
  core g' = core g ->
  gameRunning g' = gameRunning g /\ score g' = score g /\
  highScore g' = highScore g /\ level g' = level g /\
  frameCount g' = frameCount g /\ rocket g' = rocket g /\
  obstacles g' = obstacles g /\ stars g' = stars g /\
  powerUps g' = powerUps g /\ localStorage g' = localStorage g /\
  dom g' = dom g.
Proof.
  unfold core. generalize (gameRunning g') (score g') (highScore g')
    (level g') (frameCount g') (rocket g') (obstacles g') (stars g')
    (powerUps g') (localStorage g') (dom g').
  intros. inversion H. repeat split.
Qed.

Lemma play_fields g g' :
  play g' = play g ->
  score g' = score g /\ level g' = level g /\
  frameCount g' = frameCount g /\ rocket g' = rocket g /\
  obstacles g' = obstacles g /\ stars g' = stars g /\
  powerUps g' = powerUps g /\ particles g' = particles g.
Proof.
  unfold play. generalize (score g') (level g') (frameCount g') (rocket g')
    (obstacles g') (stars g') (powerUps g') (particles g').
  intros. inversion H. repeat split.
Qed.

Ltac core_of H :=
  apply core_fields in H;
  destruct H as (? & ? & ? & ? & ? & ? & ? & ? & ? & ? & ?).

Ltac play_of H :=
  apply play_fields in H;
  destruct H as (? & ? & ? & ? & ? & ? & ? & ?).

Lemma createExplosion_core h x y c g :
  core (createExplosion h x y c g) = core g.
Proof. unfold createExplosion. apply (forLoop_keeps core). reflexivity. Qed.

Lemma createBoostParticles_core h g :
  core (createBoostParticles h g) = core g.
Proof.
  unfold createBoostParticles. apply (forLoop_keeps core). reflexivity.
Qed.

Lemma createConfetti_core h g : core (createConfetti h g) = core g.
Proof. unfold createConfetti. apply (forLoop_keeps core). reflexivity. Qed.

Lemma createConfetti_particles h g :
  particles (createConfetti h g) = particles g.
Proof.
  unfold createConfetti. apply (forLoop_keeps particles). reflexivity.
Qed.

Lemma updateParticles_core g : core (updateParticles g) = core g.
Proof.
  unfold updateParticles.
  match goal with |- context [reverseLoop ?b ?l ?s] =>
    pose proof (reverseLoop_keeps core b (fun _ _ => eq_refl) l s) as H;
    destruct (reverseLoop b l s) end.
  exact H.
Qed.

Lemma updateConfetti_core h g : core (updateConfetti h g) = core g.
Proof.
  unfold updateConfetti.
  match goal with |- context [reverseLoop ?b ?l ?s] =>
    pose proof (reverseLoop_keeps core b (fun _ _ => eq_refl) l s) as H;
    destruct (reverseLoop b l s) end.
  exact H.
Qed.

Lemma updateConfetti_particles h g :
  particles (updateConfetti h g) = particles g.
Proof.
  unfold updateConfetti.
  match goal with |- context [reverseLoop ?b ?l ?s] =>
    pose proof (reverseLoop_keeps particles b (fun _ _ => eq_refl) l s) as H;
    destruct (reverseLoop b l s) end.
  exact H.
Qed.

(** ** [endGame] *)

Lemma endGame_blocks h g :
  endGame h g =
  updateConfetti h (updateScoreDisplay (showGameOver (recordHighScore
    (createConfetti h (set_gameRunning g false))))).
Proof.
  cbv beta zeta delta [endGame recordHighScore showGameOver]. reflexivity.
Qed.

Lemma recordHighScore_play g : play (recordHighScore g) = play g.
Proof.
  unfold recordHighScore. destruct (score g >? highScore g); reflexivity.
Qed.

Lemma recordHighScore_running g :
  gameRunning (recordHighScore g) = gameRunning g.
Proof.
  unfold recordHighScore. destruct (score g >? highScore g); reflexivity.
Qed.

Lemma endGame_play h g : play (endGame h g) = play g.
Proof.
  rewrite endGame_blocks.
  pose proof (createConfetti_core h (set_gameRunning g false)) as Hc.
  pose proof (createConfetti_particles h (set_gameRunning g false)) as Hp.
  core_of Hc. fields.
  generalize dependent (createConfetti h (set_gameRunning g false)).
  intros g1; intros.
  pose proof (recordHighScore_play g1) as Hr. play_of Hr.
  generalize dependent (recordHighScore g1). intros g2; intros.
  pose proof (updateConfetti_core h (updateScoreDisplay (showGameOver g2)))
    as Hc2.
  pose proof
    (updateConfetti_particles h (updateScoreDisplay (showGameOver g2))) as Hp2.
  core_of Hc2. unfold updateScoreDisplay, showGameOver in *. fields.
  unfold play. congruence.
Qed.

Lemma endGame_stops h g : gameRunning (endGame h g) = false.
Proof.
  rewrite endGame_blocks.
  pose proof (createConfetti_core h (set_gameRunning g false)) as Hc.
  core_of Hc. fields.
  generalize dependent (createConfetti h (set_gameRunning g false)).
  intros g1; intros.
  pose proof (recordHighScore_running g1) as Hr.
  generalize dependent (recordHighScore g1). intros g2; intros.
  pose proof (updateConfetti_core h (updateScoreDisplay (showGameOver g2)))
    as Hc2.
  core_of Hc2. unfold updateScoreDisplay, showGameOver in *. fields.
  congruence.
Qed.

(** ** Invariants, sums and element properties of a reverse loop *)

Section ReverseLoop.

Context {A : Type} (body : A -> Game -> option A * Game).

(** [I] holds of the state all along the loop. *)
Variable I : Game -> Prop.
Hypothesis I_body : forall a g, I g -> I (snd (body a g)).

Lemma reverseLoop_inv l g : I g -> I (snd (reverseLoop body l g)).
Proof.
  revert g; induction l as [|a rest IH]; intros g Hg; simpl.
  - exact Hg.
  - specialize (IH g Hg).
    destruct (reverseLoop body rest g) as [rest' g1]; simpl in IH.
    pose proof (I_body a g1 IH) as Hb.
    destruct (body a g1) as [a' g2]; simpl in *. exact Hb.
Qed.

(** A measure [m] of the state grows by [w a] at element [a]. *)
Variables (m : Game -> Z) (w : A -> Z).
Hypothesis m_body : forall a g, I g -> m (snd (body a g)) = m g + w a.

Lemma reverseLoop_sum l g :
  I g ->
  m (snd (reverseLoop body l g)) = m g + fold_right Z.add 0 (map w l).
Proof.
  revert g; induction l as [|a rest IH]; intros g Hg; simpl.
  - lia.
  - specialize (IH g Hg).
    pose proof (reverseLoop_inv rest g Hg) as Hrest.
    destruct (reverseLoop body rest g) as [rest' g1]; simpl in IH, Hrest.
    pose proof (m_body a g1 Hrest) as Hb.
    destruct (body a g1) as [a' g2]; simpl in *. lia.
Qed.

(** Every element the loop keeps satisfies [Q]. *)
Variable Q : A -> Prop.
Hypothesis Q_body :
  forall a g b, I g -> fst (body a g) = Some b -> Q b.

Lemma reverseLoop_Forall l g :
  I g -> Forall Q (fst (reverseLoop body l g)).
Proof.
  revert g; induction l as [|a rest IH]; intros g Hg; simpl.
  - constructor.
  - specialize (IH g Hg).
    pose proof (reverseLoop_inv rest g Hg) as Hrest.
    destruct (reverseLoop body rest g) as [rest' g1]; simpl in IH, Hrest.
    pose proof (Q_body a g1) as Hq.
    destruct (body a g1) as [[b|] g2]; simpl in *.
    + constructor; [apply Hq; auto | exact IH].
    + exact IH.
Qed.

End ReverseLoop.

Lemma countIf_sum {A : Type} (p : A -> bool) (k : Z) (l : list A) :
  fold_right Z.add 0 (map (fun a => if p a then k else 0) l) =
  k * countIf p l.
Proof.
  unfold countIf. induction l as [|a l IH]; simpl.
  - lia.
  - rewrite IH. destruct (p a); simpl List.length; lia.
Qed.

Lemma countIf_nonneg {A : Type} (p : A -> bool) (l : list A) :
  0 <= countIf p l.
Proof. unfold countIf. lia. Qed.

Lemma countIf_ext {A : Type} (p q : A -> bool) (l : list A) :
  (forall a, p a = q a) -> countIf p l = countIf q l.
Proof.
  intros H. unfold countIf. f_equal. f_equal. apply filter_ext. exact H.
Qed.

(** ** What happens inside a frame *)

Lemma quiet_refl g : quiet g g.
Proof. unfold quiet. repeat split; lia. Qed.

Lemma Steps_refl h g : Steps h g g.
Proof. apply steps_quiet, quiet_refl. Qed.

Lemma core_quiet g g' : core g' = core g -> quiet g g'.
Proof.
  intros H. core_of H. unfold quiet. repeat split; try congruence; lia.
Qed.

Lemma Steps_inv h (J : Game -> Prop) :
  (forall g g', quiet g g' -> J g -> J g') ->
  (forall g, J g -> J (endGame h g)) ->
  forall g g', Steps h g g' -> J g -> J g'.
Proof.
  intros Hq He g g' H. induction H; eauto.
Qed.

Lemma Steps_loop h {A : Type} (body : A -> Game -> option A * Game) :
  (forall a g, Steps h g (snd (body a g))) ->
  forall l g, Steps h g (snd (reverseLoop body l g)).
Proof.
  intros Hbody l g.
  apply (reverseLoop_inv body (Steps h g)).
  - intros a g1 H1. eapply steps_trans; [exact H1 | apply Hbody].
  - apply Steps_refl.
Qed.

(** Within a frame the running flag only ever goes from true to false. *)
Lemma Steps_running h g g' :
  Steps h g g' -> gameRunning g = false -> gameRunning g' = false.
Proof.
  intros H.
  apply (Steps_inv h (fun s => gameRunning s = false)) with (g := g);
    auto.
  - intros s s' (Hr & _) Hs. congruence.
  - intros s _. apply endGame_stops.
Qed.

(** Points are never taken away. *)
Lemma endGame_score h g : score (endGame h g) = score g.
Proof. pose proof (endGame_play h g) as H. play_of H. assumption. Qed.

Lemma Steps_score h g g' : Steps h g g' -> score g <= score g'.
Proof.
  intros H. induction H.
  - destruct H as (_ & _ & _ & _ & _ & _ & H). exact H.
  - rewrite endGame_score. lia.
  - lia.
Qed.

(** ** The rocket: blocks of [updateRocket] *)

Lemma geom_fields r r' :
  geom r' = geom r ->
  rocket_x r' = rocket_x r /\ rocket_y r' = rocket_y r /\
  rocket_width r' = rocket_width r /\ rocket_height r' = rocket_height r /\
  rocket_velocity r' = rocket_velocity r.
Proof.
  unfold geom. generalize (rocket_x r') (rocket_y r') (rocket_width r')
    (rocket_height r') (rocket_velocity r') (rocket_gravity r')
    (rocket_boost r') (rotation r').
  intros. inversion H. repeat split.
Qed.

Lemma updateRocket_blocks h g :
  updateRocket h g =
  let r := flyRocket (rocket g) in
  if outOfBounds h r
  then if negb (hasShield r)
       then endGame h (set_rocket g r)
       else set_rocket (set_rocket g r) (clampRocket h r)
  else set_rocket g r.
Proof.
  cbv beta zeta delta [updateRocket flyRocket outOfBounds clampRocket].
  reflexivity.
Qed.

Lemma updateRocket_rocket h g :
  rocket (updateRocket h g) = settledRocket h (rocket g).
Proof.
  rewrite updateRocket_blocks. unfold settledRocket. cbv zeta.
  destruct (outOfBounds h (flyRocket (rocket g))); simpl andb.
  - destruct (hasShield (flyRocket (rocket g))); simpl negb; cbv iota.
    + reflexivity.
    + pose proof (endGame_play h (set_rocket g (flyRocket (rocket g)))) as H.
      play_of H. fields. assumption.
  - reflexivity.
Qed.

Lemma updateRocket_Steps h g : Steps h g (updateRocket h g).
Proof.
  rewrite updateRocket_blocks. cbv zeta.
  assert (Hq : forall r, quiet g (set_rocket g r)).
  { intros r. unfold quiet. fields. repeat split; lia. }
  destruct (outOfBounds h (flyRocket (rocket g))).
  - destruct (negb (hasShield (flyRocket (rocket g)))).
    + eapply steps_trans; [apply steps_quiet, Hq | apply steps_endGame].
    + apply steps_quiet. unfold quiet. fields. repeat split; lia.
  - apply steps_quiet, Hq.
Qed.

Lemma updateRocket_running h g :
  gameRunning (updateRocket h g) = gameRunning g && negb (boundaryCrash h g).
Proof.
  rewrite updateRocket_blocks. unfold boundaryCrash. cbv zeta.
  destruct (outOfBounds h (flyRocket (rocket g))); simpl andb.
  - destruct (negb (hasShield (flyRocket (rocket g)))); simpl negb.
    + rewrite endGame_stops. destruct (gameRunning g); reflexivity.
    + fields. destruct (gameRunning g); reflexivity.
  - fields. destruct (gameRunning g); reflexivity.
Qed.

Lemma scene_fields g g' :
  scene g' = scene g ->
  score g' = score g /\ level g' = level g /\
  frameCount g' = frameCount g /\ obstacles g' = obstacles g /\
  stars g' = stars g /\ powerUps g' = powerUps g /\
  particles g' = particles g.
Proof.
  unfold scene. generalize (score g') (level g') (frameCount g')
    (obstacles g') (stars g') (powerUps g') (particles g').
  intros. inversion H. repeat split.
Qed.

Ltac scene_of H :=
  apply scene_fields in H; destruct H as (? & ? & ? & ? & ? & ? & ?).

Lemma updateRocket_scene h g : scene (updateRocket h g) = scene g.
Proof.
  rewrite updateRocket_blocks. cbv zeta.
  destruct (outOfBounds h (flyRocket (rocket g))); [|reflexivity].
  destruct (negb (hasShield (flyRocket (rocket g)))); [|reflexivity].
  pose proof (endGame_play h (set_rocket g (flyRocket (rocket g)))) as H.
  play_of H. fields. unfold scene. congruence.
Qed.

(** ** Spawning *)

Lemma unspawned_fields g g' :
  unspawned g' = unspawned g ->
  gameRunning g' = gameRunning g /\ score g' = score g /\
  highScore g' = highScore g /\ level g' = level g /\
  frameCount g' = frameCount g /\ rocket g' = rocket g /\
  particles g' = particles g /\
  confettiParticles g' = confettiParticles g /\
  localStorage g' = localStorage g /\ dom g' = dom g.
Proof.
  unfold unspawned. generalize (gameRunning g') (score g') (highScore g')
    (level g') (frameCount g') (rocket g') (particles g')
    (confettiParticles g') (localStorage g') (dom g').
  intros. inversion H. repeat split.
Qed.

Ltac unspawned_of H :=
  apply unspawned_fields in H;
  destruct H as (? & ? & ? & ? & ? & ? & ? & ? & ? & ?).

Lemma generateObstacles_unspawned h g :
  unspawned (generateObstacles h g) = unspawned g.
Proof.
  unfold generateObstacles.
  destruct (Num.is_zero _); reflexivity.
Qed.

Lemma generateStars_unspawned h g :
  unspawned (generateStars h g) = unspawned g.
Proof.
  unfold generateStars.
  destruct (Num.is_zero _); reflexivity.
Qed.

Lemma generatePowerUps_unspawned h g :
  unspawned (generatePowerUps h g) = unspawned g.
Proof.
  unfold generatePowerUps.
  destruct (Num.is_zero _); reflexivity.
Qed.

Lemma beginFrame_blocks h g :
  beginFrame h g =
  generatePowerUps h (generateStars h (generateObstacles h (flown h g))).
Proof. reflexivity. Qed.

Lemma beginFrame_unspawned h g :
  unspawned (beginFrame h g) = unspawned (flown h g).
Proof.
  rewrite beginFrame_blocks.
  rewrite generatePowerUps_unspawned, generateStars_unspawned.
  apply generateObstacles_unspawned.
Qed.

Lemma unspawned_quiet g g' : unspawned g' = unspawned g -> quiet g g'.
Proof.
  intros H. unspawned_of H. unfold quiet. repeat split; try congruence; lia.
Qed.

Lemma flown_Steps h g : Steps h g (flown h g).
Proof.
  unfold flown. eapply steps_trans; [|apply updateRocket_Steps].
  apply steps_quiet. unfold quiet. fields. repeat split; lia.
Qed.

Lemma beginFrame_Steps h g : Steps h g (beginFrame h g).
Proof.
  eapply steps_trans; [apply flown_Steps|].
  apply steps_quiet, unspawned_quiet, beginFrame_unspawned.
Qed.

Lemma flown_fields h g :
  score (flown h g) = score g /\ level (flown h g) = levelOf (score g) /\
  frameCount (flown h g) = frameCount g + 1 /\
  obstacles (flown h g) = obstacles g /\ stars (flown h g) = stars g /\
  powerUps (flown h g) = powerUps g /\ particles (flown h g) = particles g /\
  rocket (flown h g) = settledRocket h (rocket g) /\
  gameRunning (flown h g) = gameRunning g && negb (boundaryCrash h g).
Proof.
  unfold flown.
  set (g1 := set_level (set_frameCount g (frameCount g + 1))
               (levelOf (score g))).
  pose proof (updateRocket_scene h g1) as Hs. scene_of Hs.
  pose proof (updateRocket_rocket h g1) as Hr.
  pose proof (updateRocket_running h g1) as Hg.
  repeat split; assumption.
Qed.

Lemma beginFrame_fields h g :
  score (beginFrame h g) = score g /\
  level (beginFrame h g) = levelOf (score g) /\
  frameCount (beginFrame h g) = frameCount g + 1 /\
  rocket (beginFrame h g) = settledRocket h (rocket g) /\
  gameRunning (beginFrame h g) = gameRunning g && negb (boundaryCrash h g) /\
  particles (beginFrame h g) = particles g.
Proof.
  pose proof (beginFrame_unspawned h g) as H. unspawned_of H.
  destruct (flown_fields h g) as (? & ? & ? & ? & ? & ? & ? & ? & ?).
  repeat split; congruence.
Qed.

Lemma beginFrame_rocket h g :
  rocket (beginFrame h g) = settledRocket h (rocket g).
Proof. apply beginFrame_fields. Qed.

(** ** Obstacles: one collision *)

Lemma hitObstacle_shielded h g :
  hasShield (rocket g) = true ->
  hitObstacle h g =
  createExplosion h (rocket_x (rocket g)) (rocket_y (rocket g))
    (Hex "#4ecdc4") (set_rocket g (dropShield (rocket g))).
Proof. intros H. unfold hitObstacle. rewrite H. reflexivity. Qed.

Lemma hitObstacle_unshielded h g :
  hasShield (rocket g) = false -> hitObstacle h g = endGame h g.
Proof. intros H. unfold hitObstacle. rewrite H. reflexivity. Qed.

(** What a collision does to the state, apart from particles. *)
Lemma hitObstacle_fields h g :
  let g' := hitObstacle h g in
  score g' = score g /\ level g' = level g /\
  frameCount g' = frameCount g /\ obstacles g' = obstacles g /\
  stars g' = stars g /\ powerUps g' = powerUps g /\
  rocket g' = (if hasShield (rocket g) then dropShield (rocket g)
               else rocket g) /\
  gameRunning g' = gameRunning g && hasShield (rocket g).
Proof.
  cbv zeta. destruct (hasShield (rocket g)) eqn:Hs.
  - rewrite (hitObstacle_shielded h g Hs).
    pose proof (createExplosion_core h (rocket_x (rocket g))
      (rocket_y (rocket g)) (Hex "#4ecdc4")
      (set_rocket g (dropShield (rocket g)))) as Hc.
    core_of Hc. fields. rewrite andb_true_r. repeat split; assumption.
  - rewrite (hitObstacle_unshielded h g Hs).
    pose proof (endGame_play h g) as Hp. play_of Hp.
    rewrite endGame_stops, andb_false_r. repeat split; assumption.
Qed.

Lemma hitObstacle_Steps h g : Steps h g (hitObstacle h g).
Proof.
  destruct (hasShield (rocket g)) eqn:Hs.
  - rewrite (hitObstacle_shielded h g Hs).
    eapply steps_trans; apply steps_quiet.
    + instantiate (1 := set_rocket g (dropShield (rocket g))).
      unfold quiet. fields. repeat split; lia.
    + apply core_quiet, createExplosion_core.
  - rewrite (hitObstacle_unshielded h g Hs). apply steps_endGame.
Qed.

(** ** Obstacles: one iteration *)

Lemma hitObstacle_rocket_x h g :
  rocket_x (rocket (hitObstacle h g)) = rocket_x (rocket g).
Proof.
  destruct (hitObstacle_fields h g) as (_ & _ & _ & _ & _ & _ & Hr & _).
  rewrite Hr. destruct (hasShield (rocket g)); reflexivity.
Qed.

Lemma obstacleBody_blocks h o g :
  obstacleBody h o g =
  let g1 := if hit g o then hitObstacle h g else g in
  (if gone g o then None
   else Some (if awarded g o then markPassed (moveObstacle g o)
              else moveObstacle g o),
   if awarded g o then set_score g1 (score g1 + 50) else g1).
Proof.
  unfold obstacleBody, hit, awarded, gone. cbv zeta.
  assert (Hx : rocket_x (rocket (if checkCollision (rocket g)
                                      (moveObstacle g o)
                                 then hitObstacle h g else g)) =
               rocket_x (rocket g)).
  { destruct (checkCollision (rocket g) (moveObstacle g o));
      [apply hitObstacle_rocket_x | reflexivity]. }
  rewrite Hx.
  change (obs_width (moveObstacle g o)) with (obs_width o).
  change (passed (moveObstacle g o)) with (passed o).
  destruct (negb (passed o) &&
            Num.lt (Num.add (obs_x (moveObstacle g o)) (obs_width o))
                   (rocket_x (rocket g))); reflexivity.
Qed.

Lemma obstacleBody_fields h o g :
  let g' := snd (obstacleBody h o g) in
  score g' = score g + (if awarded g o then 50 else 0) /\
  level g' = level g /\ frameCount g' = frameCount g /\
  stars g' = stars g /\ powerUps g' = powerUps g /\
  rocket g' = (if hit g o && hasShield (rocket g)
               then dropShield (rocket g) else rocket g) /\
  gameRunning g' =
    gameRunning g && negb (hit g o && negb (hasShield (rocket g))).
Proof.
  rewrite obstacleBody_blocks. cbv zeta. cbn [snd].
  set (g1 := if hit g o then hitObstacle h g else g).
  assert (H1 : score g1 = score g /\ level g1 = level g /\
               frameCount g1 = frameCount g /\ stars g1 = stars g /\
               powerUps g1 = powerUps g /\
               rocket g1 = (if hit g o && hasShield (rocket g)
                            then dropShield (rocket g) else rocket g) /\
               gameRunning g1 =
                 gameRunning g && negb (hit g o && negb (hasShield (rocket g)))).
  { subst g1. destruct (hit g o); simpl andb.
    - destruct (hitObstacle_fields h g)
        as (? & ? & ? & ? & ? & ? & ? & Hr).
      rewrite negb_involutive. repeat split; assumption.
    - cbn [negb]. rewrite andb_true_r. repeat split; reflexivity. }
  clearbody g1. destruct H1 as (? & ? & ? & ? & ? & ? & ?).
  destruct (awarded g o); fields; repeat split; try assumption; lia.
Qed.

Lemma obstacleBody_Steps h o g : Steps h g (snd (obstacleBody h o g)).
Proof.
  rewrite obstacleBody_blocks. cbv zeta. cbn [snd].
  eapply steps_trans.
  - instantiate (1 := if hit g o then hitObstacle h g else g).
    destruct (hit g o); [apply hitObstacle_Steps | apply Steps_refl].
  - apply steps_quiet. destruct (awarded g o); [|apply quiet_refl].
    unfold quiet. fields. repeat split; lia.
Qed.

Lemma moveObstacle_ext g g' o :
  level g' = level g -> moveObstacle g' o = moveObstacle g o.
Proof. intros H. unfold moveObstacle, scrollSpeed. rewrite H. reflexivity. Qed.

Lemma hit_ext g g' o :
  level g' = level g -> geom (rocket g') = geom (rocket g) ->
  hit g' o = hit g o.
Proof.
  intros Hl H. apply geom_fields in H. destruct H as (Hx & Hy & Hw & Hh & _).
  unfold hit, checkCollision. rewrite (moveObstacle_ext g g' o Hl).
  rewrite Hx, Hy, Hw, Hh. reflexivity.
Qed.

Lemma awarded_ext g g' o :
  level g' = level g -> geom (rocket g') = geom (rocket g) ->
  awarded g' o = awarded g o.
Proof.
  intros Hl H. apply geom_fields in H. destruct H as (Hx & _).
  unfold awarded. rewrite (moveObstacle_ext g g' o Hl), Hx. reflexivity.
Qed.

Lemma countIf_cons {A : Type} (p : A -> bool) (a : A) (l : list A) :
  countIf p (a :: l) = (if p a then 1 else 0) + countIf p l.
Proof.
  unfold countIf. simpl filter. destruct (p a); simpl List.length; lia.
Qed.

(** ** Obstacles: the whole loop *)

Lemma obstacles_loop h l g :
  let g' := snd (reverseLoop (obstacleBody h) l g) in
  let n := countIf (hit g) l in
  score g' = score g + 50 * countIf (awarded g) l /\
  level g' = level g /\ frameCount g' = frameCount g /\
  stars g' = stars g /\ powerUps g' = powerUps g /\
  rocket g' = (if hasShield (rocket g) && (0 <? n)
               then dropShield (rocket g) else rocket g) /\
  gameRunning g' = gameRunning g && negb (crashes (hasShield (rocket g)) n).
Proof.
  cbv zeta. induction l as [|o rest IH].
  - simpl reverseLoop. cbn [snd]. unfold countIf. simpl.
    rewrite andb_false_r.
    assert (crashes (hasShield (rocket g)) 0 = false) as ->
      by (unfold crashes; destruct (hasShield (rocket g)); reflexivity).
    rewrite andb_true_r. repeat split; lia.
  - simpl reverseLoop.
    destruct (reverseLoop (obstacleBody h) rest g) as [rest' g1].
    cbn [snd] in IH. destruct IH as (Hs & Hl & Hf & Hst & Hp & Hr & Hg).
    pose proof (obstacleBody_fields h o g1) as Hb. cbv zeta in Hb.
    destruct (obstacleBody h o g1) as [o' g2]. cbn [snd] in *.
    destruct Hb as (Hs2 & Hl2 & Hf2 & Hst2 & Hp2 & Hr2 & Hg2).
    assert (Hgeom : geom (rocket g1) = geom (rocket g)).
    { rewrite Hr. destruct (hasShield (rocket g) && (0 <? countIf (hit g) rest));
        reflexivity. }
    rewrite (hit_ext g g1 o Hl Hgeom) in *.
    rewrite (awarded_ext g g1 o Hl Hgeom) in *.
    rewrite !countIf_cons.
    pose proof (countIf_nonneg (hit g) rest) as Hn.
    set (n := countIf (hit g) rest) in *.
    repeat split; try congruence.
    + rewrite Hs2, Hs. destruct (awarded g o); lia.
    + rewrite Hr2, Hr.
      destruct (hasShield (rocket g)) eqn:Hsh; cbn [andb].
      * destruct (Z.ltb_spec 0 n); destruct (hit g o); cbn [andb];
          repeat match goal with
                 | |- context [0 <? ?e] => destruct (Z.ltb_spec 0 e); try lia
                 end; try reflexivity.
        rewrite Hsh. reflexivity.
      * rewrite Hsh, andb_false_r. reflexivity.
    + rewrite Hg2, Hg, Hr. unfold crashes.
      destruct (hasShield (rocket g)) eqn:Hsh; cbn [andb].
      * destruct (Z.ltb_spec 0 n); destruct (hit g o);
          cbn [andb negb hasShield dropShield set_shieldTime set_hasShield];
          try rewrite Hsh;
          repeat match goal with
                 | |- context [?a <=? ?e] => destruct (Z.leb_spec a e); try lia
                 end; cbn [negb andb]; rewrite ?andb_true_r, ?andb_false_r;
          reflexivity.
      * rewrite Hsh. destruct (hit g o); cbn [andb negb];
          repeat match goal with
                 | |- context [?a <=? ?e] => destruct (Z.leb_spec a e); try lia
                 end; cbn [negb andb]; rewrite ?andb_true_r, ?andb_false_r;
          reflexivity.
Qed.

Lemma updateObstacles_fields h g :
  let g' := updateObstacles h g in
  let n := countIf (hit g) (obstacles g) in
  score g' = score g + 50 * countIf (awarded g) (obstacles g) /\
  level g' = level g /\ frameCount g' = frameCount g /\
  stars g' = stars g /\ powerUps g' = powerUps g /\
  rocket g' = (if hasShield (rocket g) && (0 <? n)
               then dropShield (rocket g) else rocket g) /\
  gameRunning g' = gameRunning g && negb (crashes (hasShield (rocket g)) n).
Proof.
  pose proof (obstacles_loop h (obstacles g) g) as H.
  unfold updateObstacles.
  destruct (reverseLoop (obstacleBody h) (obstacles g) g) as [l g1].
  exact H.
Qed.

Lemma updateObstacles_list h g :
  obstacles (updateObstacles h g) =
  fst (reverseLoop (obstacleBody h) (obstacles g) g).
Proof.
  unfold updateObstacles.
  destruct (reverseLoop (obstacleBody h) (obstacles g) g); reflexivity.
Qed.

Lemma updateObstacles_Steps h g : Steps h g (updateObstacles h g).
Proof.
  pose proof (Steps_loop h (obstacleBody h) (obstacleBody_Steps h)
                (obstacles g) g) as H.
  unfold updateObstacles.
  destruct (reverseLoop (obstacleBody h) (obstacles g) g) as [l g1].
  cbn [snd] in H. eapply steps_trans; [exact H|].
  apply steps_quiet. unfold quiet. fields. repeat split; lia.
Qed.

(** ** Stars *)

Lemma starBody_blocks h s g :
  starBody h s g =
  (if Num.lt (star_x (moveStar g s)) (Num.neg (star_size s)) then None
   else Some (if starTaken g s then markStar (moveStar g s)
              else moveStar g s),
   if starTaken g s
   then createExplosion h (star_x (moveStar g s)) (star_y s) (Hex "#ffd700")
          (set_score g (score g + 100))
   else g).
Proof.
  unfold starBody, starTaken. cbv zeta.
  change (star_collected (moveStar g s)) with (star_collected s).
  change (star_y (moveStar g s)) with (star_y s).
  change (star_size (moveStar g s)) with (star_size s).
  destruct (negb (star_collected s)); cbn [andb]; [|reflexivity].
  destruct (inReach (rocket g) (star_x (moveStar g s)) (star_y s)
              (star_size s)); reflexivity.
Qed.

Lemma offscore_fields g g' :
  offscore g' = offscore g ->
  gameRunning g' = gameRunning g /\ highScore g' = highScore g /\
  level g' = level g /\ frameCount g' = frameCount g /\
  rocket g' = rocket g /\ obstacles g' = obstacles g /\
  powerUps g' = powerUps g /\ localStorage g' = localStorage g /\
  dom g' = dom g.
Proof.
  unfold offscore. generalize (gameRunning g') (highScore g') (level g')
    (frameCount g') (rocket g') (obstacles g') (powerUps g')
    (localStorage g') (dom g').
  intros. inversion H. repeat split.
Qed.

Ltac offscore_of H :=
  apply offscore_fields in H;
  destruct H as (? & ? & ? & ? & ? & ? & ? & ? & ?).

Lemma starBody_offscore h s g :
  offscore (snd (starBody h s g)) = offscore g.
Proof.
  rewrite starBody_blocks. cbn [snd].
  destruct (starTaken g s); [|reflexivity].
  pose proof (createExplosion_core h (star_x (moveStar g s)) (star_y s)
    (Hex "#ffd700") (set_score g (score g + 100))) as Hc.
  core_of Hc. fields. unfold offscore. congruence.
Qed.

Lemma starBody_score h s g :
  score (snd (starBody h s g)) =
  score g + (if starTaken g s then 100 else 0).
Proof.
  rewrite starBody_blocks. cbn [snd].
  destruct (starTaken g s); [|lia].
  pose proof (createExplosion_core h (star_x (moveStar g s)) (star_y s)
    (Hex "#ffd700") (set_score g (score g + 100))) as Hc.
  core_of Hc. fields. congruence.
Qed.

Lemma starTaken_ext g g' s :
  level g' = level g -> geom (rocket g') = geom (rocket g) ->
  starTaken g' s = starTaken g s.
Proof.
  intros Hl H. apply geom_fields in H. destruct H as (Hx & Hy & Hw & Hh & _).
  unfold starTaken, inReach, moveStar, scrollSpeed.
  rewrite Hl, Hx, Hy, Hw, Hh. reflexivity.
Qed.

Lemma updateStars_offscore h g :
  offscore (updateStars h g) = offscore g.
Proof.
  pose proof (reverseLoop_keeps offscore (starBody h) (starBody_offscore h)
                (stars g) g) as H.
  unfold updateStars.
  destruct (reverseLoop (starBody h) (stars g) g) as [l g1]. exact H.
Qed.

Lemma updateStars_score h g :
  score (updateStars h g) = score g + 100 * countIf (starTaken g) (stars g).
Proof.
  assert (Hbody : forall s g1, offscore g1 = offscore g ->
            score (snd (starBody h s g1)) =
            score g1 + (if starTaken g s then 100 else 0)).
  { intros s g1 Hk. rewrite starBody_score. offscore_of Hk.
    rewrite (starTaken_ext g g1 s); congruence. }
  pose proof (reverseLoop_sum (starBody h)
    (fun g1 => offscore g1 = offscore g)
    (fun s g1 H => eq_trans (starBody_offscore h s g1) H)
    score (fun s => if starTaken g s then 100 else 0) Hbody
    (stars g) g eq_refl) as H.
  rewrite countIf_sum in H.
  unfold updateStars.
  destruct (reverseLoop (starBody h) (stars g) g) as [l g1]. exact H.
Qed.

Lemma updateStars_Steps h g : Steps h g (updateStars h g).
Proof.
  apply steps_quiet.
  pose proof (updateStars_offscore h g) as H. offscore_of H.
  pose proof (updateStars_score h g) as Hs.
  pose proof (countIf_nonneg (starTaken g) (stars g)).
  unfold quiet. repeat split; try congruence; lia.
Qed.

(** ** Power-ups *)

Lemma powerUpBody_blocks h p g :
  powerUpBody h p g =
  (if Num.lt (pu_x (movePowerUp g p)) (Num.neg (pu_size p)) then None
   else Some (if puTaken g p then markPowerUp (movePowerUp g p)
              else movePowerUp g p),
   if puTaken g p
   then createExplosion h (pu_x (movePowerUp g p)) (pu_y p) (Hex "#4ecdc4")
          (set_rocket g (raiseShield (rocket g)))
   else g).
Proof.
  unfold powerUpBody, puTaken. cbv zeta.
  change (pu_collected (movePowerUp g p)) with (pu_collected p).
  change (pu_y (movePowerUp g p)) with (pu_y p).
  change (pu_size (movePowerUp g p)) with (pu_size p).
  destruct (negb (pu_collected p)); cbn [andb]; [|reflexivity].
  destruct (inReach (rocket g) (pu_x (movePowerUp g p)) (pu_y p)
              (pu_size p)); reflexivity.
Qed.

Lemma offshield_fields g g' :
  offshield g' = offshield g ->
  gameRunning g' = gameRunning g /\ score g' = score g /\
  highScore g' = highScore g /\ level g' = level g /\
  frameCount g' = frameCount g /\ obstacles g' = obstacles g /\
  stars g' = stars g /\ localStorage g' = localStorage g /\
  dom g' = dom g /\ geom (rocket g') = geom (rocket g).
Proof.
  unfold offshield. generalize (gameRunning g') (score g') (highScore g')
    (level g') (frameCount g') (obstacles g') (stars g') (localStorage g')
    (dom g') (geom (rocket g')).
  intros. inversion H. repeat split.
Qed.

Ltac offshield_of H :=
  apply offshield_fields in H;
  destruct H as (? & ? & ? & ? & ? & ? & ? & ? & ? & ?).

Lemma powerUpBody_offshield h p g :
  offshield (snd (powerUpBody h p g)) = offshield g.
Proof.
  rewrite powerUpBody_blocks. cbn [snd].
  destruct (puTaken g p); [|reflexivity].
  pose proof (createExplosion_core h (pu_x (movePowerUp g p)) (pu_y p)
    (Hex "#4ecdc4") (set_rocket g (raiseShield (rocket g)))) as Hc.
  core_of Hc. fields. unfold offshield.
  replace (geom (rocket (createExplosion h (pu_x (movePowerUp g p)) (pu_y p)
             (Hex "#4ecdc4") (set_rocket g (raiseShield (rocket g))))))
    with (geom (rocket g))
    by (match goal with H : rocket _ = _ |- _ => rewrite H end; reflexivity).
  congruence.
Qed.

Lemma powerUpBody_rocket h p g :
  rocket (snd (powerUpBody h p g)) =
  if puTaken g p then raiseShield (rocket g) else rocket g.
Proof.
  rewrite powerUpBody_blocks. cbn [snd].
  destruct (puTaken g p); [|reflexivity].
  pose proof (createExplosion_core h (pu_x (movePowerUp g p)) (pu_y p)
    (Hex "#4ecdc4") (set_rocket g (raiseShield (rocket g)))) as Hc.
  core_of Hc. fields. assumption.
Qed.

Lemma puTaken_ext g g' p :
  level g' = level g -> geom (rocket g') = geom (rocket g) ->
  puTaken g' p = puTaken g p.
Proof.
  intros Hl H. apply geom_fields in H. destruct H as (Hx & Hy & Hw & Hh & _).
  unfold puTaken, inReach, movePowerUp, scrollSpeed.
  rewrite Hl, Hx, Hy, Hw, Hh. reflexivity.
Qed.

Lemma powerUps_loop h l g :
  let g' := snd (reverseLoop (powerUpBody h) l g) in
  offshield g' = offshield g /\
  rocket g' = (if 0 <? countIf (puTaken g) l then raiseShield (rocket g)
               else rocket g).
Proof.
  cbv zeta. induction l as [|p rest IH].
  - simpl. split; reflexivity.
  - simpl reverseLoop.
    destruct (reverseLoop (powerUpBody h) rest g) as [rest' g1].
    cbn [snd] in IH. destruct IH as (Hk & Hr).
    pose proof (powerUpBody_offshield h p g1) as Hk2.
    pose proof (powerUpBody_rocket h p g1) as Hr2.
    destruct (powerUpBody h p g1) as [p' g2]. cbn [snd] in *.
    split; [congruence|].
    pose proof Hk as Hk'. offshield_of Hk'.
    rewrite (puTaken_ext g g1 p) in Hr2 by assumption.
    rewrite Hr2, Hr, countIf_cons.
    pose proof (countIf_nonneg (puTaken g) rest).
    destruct (puTaken g p);
      destruct (Z.ltb_spec 0 (countIf (puTaken g) rest));
      repeat match goal with
             | |- context [0 <? ?e] => destruct (Z.ltb_spec 0 e); try lia
             end; reflexivity.
Qed.

Lemma updatePowerUps_fields h g :
  offshield (updatePowerUps h g) = offshield g /\
  rocket (updatePowerUps h g) =
    (if 0 <? countIf (puTaken g) (powerUps g) then raiseShield (rocket g)
     else rocket g).
Proof.
  pose proof (powerUps_loop h (powerUps g) g) as H.
  unfold updatePowerUps.
  destruct (reverseLoop (powerUpBody h) (powerUps g) g) as [l g1].
  exact H.
Qed.

Lemma updatePowerUps_Steps h g : Steps h g (updatePowerUps h g).
Proof.
  apply steps_quiet.
  destruct (updatePowerUps_fields h g) as (H & _). offshield_of H.
  unfold quiet. repeat split; try congruence; lia.
Qed.

(** ** The five loops together *)

Lemma updateObjects_Steps h g : Steps h g (updateObjects h g).
Proof.
  unfold updateObjects. cbv zeta.
  eapply steps_trans; [apply updateObstacles_Steps|].
  eapply steps_trans; [apply updateStars_Steps|].
  eapply steps_trans; [apply updatePowerUps_Steps|].
  eapply steps_trans; apply steps_quiet, core_quiet.
  - apply updateParticles_core.
  - apply updateConfetti_core.
Qed.

Lemma afterObstacles_geom g : geom (afterObstacles g) = geom (rocket g).
Proof.
  unfold afterObstacles.
  destruct (hasShield (rocket g) && (0 <? countIf (hit g) (obstacles g)));
    reflexivity.
Qed.

Lemma afterPowerUps_geom g : geom (afterPowerUps g) = geom (rocket g).
Proof.
  unfold afterPowerUps. rewrite <- afterObstacles_geom.
  destruct (0 <? countIf (puTaken g) (powerUps g)); reflexivity.
Qed.

Lemma updateObjects_fields h g :
  let g' := updateObjects h g in
  score g' = score g + 50 * countIf (awarded g) (obstacles g)
             + 100 * countIf (starTaken g) (stars g) /\
  level g' = level g /\ frameCount g' = frameCount g /\
  rocket g' = afterPowerUps g /\
  gameRunning g' =
    gameRunning g
    && negb (crashes (hasShield (rocket g)) (countIf (hit g) (obstacles g))).
Proof.
  unfold updateObjects. cbv zeta.
  destruct (updateObstacles_fields h g)
    as (Hs1 & Hl1 & Hf1 & Hst1 & Hp1 & Hr1 & Hg1).
  set (g1 := updateObstacles h g) in *.
  fold (afterObstacles g) in Hr1.
  assert (Hgeom1 : geom (rocket g1) = geom (rocket g))
    by (rewrite Hr1; apply afterObstacles_geom).
  pose proof (updateStars_offscore h g1) as Ho. offscore_of Ho.
  pose proof (updateStars_score h g1) as Hs2.
  rewrite (countIf_ext _ (starTaken g)) in Hs2
    by (intros s; apply starTaken_ext; assumption).
  set (g2 := updateStars h g1) in *.
  destruct (updatePowerUps_fields h g2) as (Hk & Hr3). offshield_of Hk.
  rewrite (countIf_ext _ (puTaken g)) in Hr3
    by (intros p; apply puTaken_ext; congruence).
  set (g3 := updatePowerUps h g2) in *.
  pose proof (updateParticles_core g3) as Hc4. core_of Hc4.
  set (g4 := updateParticles g3) in *.
  pose proof (updateConfetti_core h g4) as Hc5. core_of Hc5.
  unfold afterPowerUps.
  repeat split; try congruence.
  replace (powerUps g) with (powerUps g2) by congruence.
  replace (afterObstacles g) with (rocket g2) by congruence.
  congruence.
Qed.

(** ** One frame *)

Lemma obstaclesPassed_nonneg h g : 0 <= obstaclesPassed h g.
Proof. apply countIf_nonneg. Qed.

Lemma starsCollected_nonneg h g : 0 <= starsCollected h g.
Proof. apply countIf_nonneg. Qed.

Lemma obstacleHits_unfold h g :
  obstacleHits h g =
  countIf (hit (beginFrame h g)) (obstacles (beginFrame h g)).
Proof. reflexivity. Qed.

Lemma powerUpsCollected_unfold h g :
  powerUpsCollected h g =
  countIf (puTaken (beginFrame h g)) (powerUps (beginFrame h g)).
Proof. reflexivity. Qed.

Lemma obstacleCrash_unfold h g :
  obstacleCrash h g =
  crashes (hasShield (rocket (beginFrame h g)))
    (countIf (hit (beginFrame h g)) (obstacles (beginFrame h g))).
Proof. reflexivity. Qed.

Lemma gameLoop_idle h hidden g :
  gameRunning g = false \/ hidden = true -> gameLoop h hidden g = g.
Proof.
  intros [H | H]; unfold gameLoop; rewrite H; [reflexivity|].
  rewrite orb_true_r. reflexivity.
Qed.

Lemma gameLoop_run h g :
  gameRunning g = true ->
  gameLoop h false g =
  updateScoreDisplay
    (set_score (updateObjects h (beginFrame h g))
       (score (updateObjects h (beginFrame h g)) + 1)).
Proof.
  intros H. cbv beta zeta delta [gameLoop]. rewrite H. reflexivity.
Qed.

Lemma gameLoop_fields h g :
  gameRunning g = true ->
  let g' := gameLoop h false g in
  score g' = score g + 1 + 50 * obstaclesPassed h g
             + 100 * starsCollected h g /\
  level g' = levelOf (score g) /\
  frameCount g' = frameCount g + 1 /\
  rocket g' = afterPowerUps (beginFrame h g) /\
  gameRunning g' = negb (boundaryCrash h g) && negb (obstacleCrash h g).
Proof.
  intros Hrun. cbv zeta. rewrite (gameLoop_run h g Hrun).
  destruct (updateObjects_fields h (beginFrame h g))
    as (Hs & Hl & Hf & Hr & Hg).
  destruct (beginFrame_fields h g) as (Hs0 & Hl0 & Hf0 & Hr0 & Hg0 & _).
  rewrite Hg0, Hrun in Hg. cbn [andb] in Hg.
  rewrite Hs0 in Hs. rewrite Hl0 in Hl. rewrite Hf0 in Hf.
  unfold obstaclesPassed, starsCollected, obstacleCrash, obstacleHits.
  revert Hs Hl Hf Hr Hg.
  generalize (updateObjects h (beginFrame h g)). intros g5 Hs Hl Hf Hr Hg.
  unfold updateScoreDisplay. fields.
  repeat split; try assumption; lia.
Qed.

Lemma gameLoop_Steps h hidden g : Steps h g (gameLoop h hidden g).
Proof.
  destruct (gameRunning g) eqn:Hrun; [destruct hidden|].
  - rewrite gameLoop_idle by auto. apply Steps_refl.
  - rewrite (gameLoop_run h g Hrun).
    eapply steps_trans; [apply beginFrame_Steps|].
    eapply steps_trans; [apply updateObjects_Steps|].
    generalize (updateObjects h (beginFrame h g)). intros g5.
    apply steps_quiet. unfold quiet, updateScoreDisplay. fields.
    repeat split; lia.
  - rewrite gameLoop_idle by auto. apply Steps_refl.
Qed.

(** ** Comparisons of Numbers *)

Lemma Num_lt_iff a b : Num.lt a b = true <-> (a < b)%Q.
Proof.
  unfold Num.lt. rewrite negb_true_iff.
  split; intros H.
  - apply Qnot_le_lt. intros Hle. apply Qle_bool_iff in Hle. congruence.
  - destruct (Qle_bool b a) eqn:E; [|reflexivity].
    apply Qle_bool_iff in E. exfalso. apply (Qlt_not_le _ _ H E).
Qed.

Lemma Num_gt_iff a b : Num.gt a b = true <-> (b < a)%Q.
Proof. unfold Num.gt. apply Num_lt_iff. Qed.

Lemma Num_add_eq a b : (Num.add a b == a + b)%Q.
Proof. apply Qred_correct. Qed.

Lemma Num_sub_eq a b : (Num.sub a b == a - b)%Q.
Proof. apply Qred_correct. Qed.

Lemma Num_max_eq a b : (Num.max a b == Qmax a b)%Q.
Proof. apply Qred_correct. Qed.

Lemma Num_min_eq a b : (Num.min a b == Qmin a b)%Q.
Proof. apply Qred_correct. Qed.

(** ** The obstacles a frame leaves behind *)

Lemma updateObjects_obstacles h g :
  obstacles (updateObjects h g) = obstacles (updateObstacles h g).
Proof.
  unfold updateObjects. cbv zeta.
  set (g1 := updateObstacles h g).
  pose proof (updateStars_offscore h g1) as Ho. offscore_of Ho.
  set (g2 := updateStars h g1) in *.
  destruct (updatePowerUps_fields h g2) as (Hk & _). offshield_of Hk.
  set (g3 := updatePowerUps h g2) in *.
  pose proof (updateParticles_core g3) as Hc4. core_of Hc4.
  set (g4 := updateParticles g3) in *.
  pose proof (updateConfetti_core h g4) as Hc5. core_of Hc5.
  congruence.
Qed.

Lemma updateObstacles_flagged h g :
  Forall (flagged (rocket_x (rocket g))) (obstacles (updateObstacles h g)).
Proof.
  rewrite updateObstacles_list.
  apply (reverseLoop_Forall (obstacleBody h)
           (fun g1 => level g1 = level g /\
                      geom (rocket g1) = geom (rocket g))).
  - intros o g1 (Hl & Hgeom).
    destruct (obstacleBody_fields h o g1) as (_ & Hl2 & _ & _ & _ & Hr & _).
    split; [congruence|]. rewrite Hr, <- Hgeom.
    destruct (hit g1 o && hasShield (rocket g1)); reflexivity.
  - intros o g1 b (Hl & Hgeom) Hb.
    rewrite obstacleBody_blocks in Hb. cbv zeta in Hb. cbn [fst] in Hb.
    destruct (gone g1 o); [discriminate|]. injection Hb as <-.
    rewrite (awarded_ext g g1 o Hl Hgeom).
    unfold flagged. destruct (awarded g o) eqn:Ha; [reflexivity|].
    rewrite (moveObstacle_ext g g1 o Hl). intros Hlt.
    unfold awarded in Ha.
    change (obs_width (moveObstacle g o)) with (obs_width o) in Hlt.
    change (passed (moveObstacle g o)) with (passed o).
    destruct (passed o); [reflexivity|]. cbn [negb andb] in Ha.
    rewrite <- Num_add_eq in Hlt. apply Num_lt_iff in Hlt. congruence.
  - split; reflexivity.
Qed.

Lemma closing_obstacles g v :
  obstacles (updateScoreDisplay (set_score g v)) = obstacles g.
Proof. reflexivity. Qed.

Lemma gameLoop_obstacles h g :
  gameRunning g = true ->
  obstacles (gameLoop h false g) =
  obstacles (updateObstacles h (beginFrame h g)).
Proof.
  intros Hrun. rewrite (gameLoop_run h g Hrun), closing_obstacles.
  apply updateObjects_obstacles.
Qed.

(** * The claims *)

(** ** Scenarios *)

Example midGame_frame :
  let g' := gameLoop browser false midGame in
  (score g', obstaclesPassed browser midGame, starsCollected browser midGame)
  = (851, 1, 1).
Proof. vm_compute. reflexivity. Qed.

(** ** Termination *)

Lemma frames_idle h hs g : gameRunning g = false -> frames h hs g = g.
Proof.
  intros H. induction hs as [|hidden hs IH]; [reflexivity|].
  unfold frames in *. cbn [fold_left]. rewrite gameLoop_idle by auto.
  exact IH.
Qed.

Lemma gameOvers_idle h hs g : gameRunning g = false -> gameOvers h hs g = O.
Proof.
  intros H. induction hs as [|hidden hs IH]; [reflexivity|].
  cbn [gameOvers]. cbv zeta. rewrite gameLoop_idle by auto.
  rewrite IH, H. reflexivity.
Qed.

(** C2. When the unshielded rocket collides in a frame - it leaves the
    playfield with the shield down, or it meets an obstacle with no shield
    left to absorb it - the frame ends with [gameRunning] false; any number
    of further calls of [gameLoop], hidden or not, return the state as it is
    (score, level and every entity included); and in any such sequence of
    calls the session goes from running to over exactly once. *)
Theorem crash_ends_session (h : Host) (g : Game) :
  gameRunning g = true ->
  boundaryCrash h g = true \/ obstacleCrash h g = true ->
  let g1 := gameLoop h false g in
  gameRunning g1 = false /\
  (forall hs, frames h hs g1 = g1) /\
  (forall hs, gameOvers h (false :: hs) g = 1%nat).
Proof.
  intros Hrun Hcrash. cbv zeta.
  assert (Hover : gameRunning (gameLoop h false g) = false).
  { destruct (gameLoop_fields h g Hrun) as (_ & _ & _ & _ & ->).
    destruct Hcrash as [-> | ->]; [reflexivity | apply andb_false_r]. }
  repeat split.
  - exact Hover.
  - intros hs. apply frames_idle, Hover.
  - intros hs. cbn [gameOvers]. cbv zeta.
    rewrite Hrun, Hover, (gameOvers_idle h hs _ Hover). reflexivity.
Qed.

Example falling_state :
  (gameRunning falling, score falling, rocket_y (rocket falling),
   hasShield (rocket falling)) = (true, 31, 548%Q, false).
Proof. vm_compute. reflexivity. Qed.

Lemma crash_ends_session_witness :
  gameRunning falling = true /\
  (boundaryCrash browser falling = true \/
   obstacleCrash browser falling = true) /\
  let g1 := gameLoop browser false falling in
  gameRunning g1 = false /\
  (forall hs, frames browser hs g1 = g1) /\
  (forall hs, gameOvers browser (false :: hs) falling = 1%nat).
Proof.
  split; [vm_compute; reflexivity|].
  split; [left; vm_compute; reflexivity|].
  apply (crash_ends_session browser falling).
  - vm_compute; reflexivity.
  - left; vm_compute; reflexivity.
Defined.

Lemma settledRocket_shield h r :
  hasShield (settledRocket h r) = hasShield (flyRocket r).
Proof.
  unfold settledRocket. cbv zeta.
  destruct (outOfBounds h (flyRocket r) && hasShield (flyRocket r));
    reflexivity.
Qed.

Lemma shielded_no_boundaryCrash h g :
  hasShield (rocket (beginFrame h g)) = true -> boundaryCrash h g = false.
Proof.
  rewrite beginFrame_rocket, settledRocket_shield. intros H.
  unfold boundaryCrash. cbv zeta. rewrite H. apply andb_false_r.
Qed.

(** In one frame [endGame] can run more than once: here for the boundary
    and again for the obstacle, each call with its 120 pieces of confetti.
    The flag changes once. *)
Example endGame_twice_in_one_frame :
  (boundaryCrash browser clipping, obstacleCrash browser clipping,
   gameRunning (gameLoop browser false clipping),
   List.length (confettiParticles (gameLoop browser false clipping)),
   gameOvers browser [false; false; false] clipping)
  = (true, true, false, 240%nat, 1%nat).
Proof. vm_compute. reflexivity. Qed.

(** ** Explosions *)

Lemma forLoop_appends (body : nat -> Game -> Game) (P : Particle -> Prop) :
  (forall i g, exists p, particles (body i g) = particles g ++ [p] /\ P p) ->
  forall n i g, exists l,
    particles (forLoop n i body g) = particles g ++ l /\
    List.length l = n /\ Forall P l.
Proof.
  intros Hbody n; induction n as [|n IH]; intros i g; simpl.
  - exists []. rewrite app_nil_r. repeat split. constructor.
  - destruct (Hbody i g) as (p & Hp & HP).
    destruct (IH (S i) (body i g)) as (l & Hl & Hn & HF).
    exists (p :: l). rewrite Hl, Hp, <- app_assoc. simpl.
    repeat split; [congruence | constructor; assumption].
Qed.

Lemma createExplosion_particles h x y c g :
  exists burst,
    particles (createExplosion h x y c g) = particles g ++ burst /\
    List.length burst = 15%nat /\ Forall (explosionAt x y c) burst.
Proof.
  unfold createExplosion. apply forLoop_appends.
  intros i s. eexists. split; [reflexivity|].
  unfold explosionAt. repeat split.
Qed.

(** ** Shield *)

(** C6. When the rocket and an obstacle collide while the shield is up, the
    iteration of the obstacle loop that finds the collision takes the shield
    (flag false, timer 0), adds the fifteen particles of an explosion at the
    rocket, and leaves [gameRunning] as it was.  An iteration takes a running
    session to game over only if it finds a collision with the shield down:
    [gameRunning] after it is [gameRunning] before it, unless the obstacle is
    hit and the rocket has no shield.  So a frame whose obstacle loop starts
    with the shield up and meets one colliding obstacle leaves the session
    running, and leaves the shield down with its timer at 0 unless the same
    frame collects a new one. *)
Theorem shield_absorbs_collision :
  (forall h o g,
     hit g o = true -> hasShield (rocket g) = true ->
     let g' := snd (obstacleBody h o g) in
     hasShield (rocket g') = false /\ shieldTime (rocket g') = 0 /\
     gameRunning g' = gameRunning g /\
     exists burst,
       particles g' = particles g ++ burst /\
       List.length burst = 15%nat /\
       Forall (explosionAt (rocket_x (rocket g)) (rocket_y (rocket g))
                 (Hex "#4ecdc4")) burst) /\
  (forall h o g,
     gameRunning (snd (obstacleBody h o g)) =
     gameRunning g && negb (hit g o && negb (hasShield (rocket g)))) /\
  (forall h o g,
     gameRunning g = true -> gameRunning (snd (obstacleBody h o g)) = false ->
     hit g o = true /\ hasShield (rocket g) = false) /\
  (forall h g,
     gameRunning g = true -> hasShield (rocket (beginFrame h g)) = true ->
     obstacleHits h g = 1 ->
     gameRunning (gameLoop h false g) = true /\
     (powerUpsCollected h g = 0 ->
      hasShield (rocket (gameLoop h false g)) = false /\
      shieldTime (rocket (gameLoop h false g)) = 0)).
Proof.
  split; [|split; [|split]].
  - intros h o g Hhit Hsh. cbv zeta.
    destruct (obstacleBody_fields h o g) as (_ & _ & _ & _ & _ & Hr & Hg).
    rewrite Hhit, Hsh in Hr, Hg. cbn [andb negb] in Hr, Hg.
    rewrite andb_true_r in Hg. rewrite Hr.
    repeat split; try assumption.
    rewrite obstacleBody_blocks. cbv zeta. cbn [snd]. rewrite Hhit.
    destruct (createExplosion_particles h (rocket_x (rocket g))
                (rocket_y (rocket g)) (Hex "#4ecdc4")
                (set_rocket g (dropShield (rocket g))))
      as (burst & Hb & Hn & HF).
    exists burst. rewrite (hitObstacle_shielded h g Hsh).
    revert Hb.
    generalize (createExplosion h (rocket_x (rocket g)) (rocket_y (rocket g))
                  (Hex "#4ecdc4") (set_rocket g (dropShield (rocket g)))).
    intros g1 Hb.
    destruct (awarded g o); fields; repeat split; assumption.
  - intros h o g. apply obstacleBody_fields.
  - intros h o g Hrun Hover.
    destruct (obstacleBody_fields h o g) as (_ & _ & _ & _ & _ & _ & Hg).
    rewrite Hrun, Hover in Hg. cbn [andb] in Hg.
    destruct (hit g o); destruct (hasShield (rocket g)); try discriminate.
    split; reflexivity.
  - intros h g Hrun Hsh Hhits.
    destruct (gameLoop_fields h g Hrun) as (_ & _ & _ & Hr & Hg).
    rewrite Hr, Hg, obstacleCrash_unfold.
    rewrite obstacleHits_unfold in Hhits. rewrite Hsh, Hhits.
    rewrite (shielded_no_boundaryCrash h g Hsh).
    split; [reflexivity|]. intros Hpu.
    rewrite powerUpsCollected_unfold in Hpu.
    unfold afterPowerUps, afterObstacles. rewrite Hpu, Hsh, Hhits.
    split; reflexivity.
Qed.

Example shielded_frame :
  let g' := gameLoop browser false shielded in
  (gameRunning g', hasShield (rocket g'), shieldTime (rocket g'),
   List.length (particles g')) = (true, false, 0, 15%nat).
Proof. vm_compute. reflexivity. Qed.

Lemma shield_absorbs_collision_witness :
  hit shielded pillar = true /\ hasShield (rocket shielded) = true /\
  let g' := snd (obstacleBody browser pillar shielded) in
  hasShield (rocket g') = false /\ shieldTime (rocket g') = 0 /\
  gameRunning g' = gameRunning shielded /\
  exists burst,
    particles g' = particles shielded ++ burst /\
    List.length burst = 15%nat /\
    Forall (explosionAt (rocket_x (rocket shielded))
              (rocket_y (rocket shielded)) (Hex "#4ecdc4")) burst.
Proof.
  split; [reflexivity|]. split; [reflexivity|].
  apply (proj1 shield_absorbs_collision browser pillar shielded);
    reflexivity.
Defined.

(** ** The shielded rocket at the edge of the playfield *)

Lemma flyRocket_fields r :
  rocket_velocity (flyRocket r) =
    Num.add (rocket_velocity r) (rocket_gravity r) /\
  rocket_y (flyRocket r) =
    Num.add (rocket_y r) (Num.add (rocket_velocity r) (rocket_gravity r)) /\
  rocket_height (flyRocket r) = rocket_height r /\
  hasShield (flyRocket r) = hasShield r && negb (shieldTime r - 1 <=? 0).
Proof.
  unfold flyRocket. cbv zeta. fields.
  destruct (hasShield r) eqn:E; fields; [|rewrite E; repeat split; reflexivity].
  destruct (shieldTime r - 1 <=? 0); fields; rewrite ?E;
    repeat split; reflexivity.
Qed.

Lemma outOfBounds_iff h r :
  outOfBounds h r = true <->
  (inject_Z (canvas_height h) - rocket_height r < rocket_y r \/
   rocket_y r < 0)%Q.
Proof.
  unfold outOfBounds, Num.of_Z. rewrite orb_true_iff, Num_gt_iff, Num_lt_iff.
  rewrite Num_add_eq. split; intros [H | H]; [left | right | left | right];
    try assumption; lra.
Qed.

Lemma clampRocket_range h r :
  (rocket_height r <= inject_Z (canvas_height h))%Q ->
  (0 <= rocket_y (clampRocket h r) <=
   inject_Z (canvas_height h) - rocket_height r)%Q.
Proof.
  intros Hfit. unfold clampRocket, Num.of_Z. fields.
  rewrite Num_max_eq, Num_min_eq, Num_sub_eq.
  set (top := (inject_Z (canvas_height h) - rocket_height r)%Q).
  assert (0 <= top)%Q by (unfold top; lra).
  split.
  - apply Q.le_max_l.
  - apply Q.max_lub; [assumption | apply Q.le_min_l].
Qed.

(** C9. In a frame that runs with the shield still up after its timer has
    been decremented (the flag is set and more than one tick is left), if the
    rocket, moved by its velocity plus gravity, is below the playfield or
    above it, then the frame leaves its [y] at
    [max(0, min(canvas.height - rocket.height, y))], which lies in
    [0, canvas.height - rocket.height] whenever the canvas is at least as
    tall as the rocket, and leaves its velocity at exactly 0; the session
    keeps running unless an obstacle ends it. *)
Theorem shielded_boundary_contact (h : Host) (g : Game) :
  gameRunning g = true ->
  hasShield (rocket g) = true ->
  1 < shieldTime (rocket g) ->
  let v := (rocket_velocity (rocket g) + rocket_gravity (rocket g))%Q in
  let y := (rocket_y (rocket g) + v)%Q in
  let top := (inject_Z (canvas_height h) - rocket_height (rocket g))%Q in
  (top < y \/ y < 0)%Q ->
  let g' := gameLoop h false g in
  rocket_velocity (rocket g') = 0%Q /\
  (rocket_y (rocket g') == Qmax 0 (Qmin top y))%Q /\
  ((rocket_height (rocket g) <= inject_Z (canvas_height h))%Q ->
   (0 <= rocket_y (rocket g') <= top)%Q) /\
  boundaryCrash h g = false.
Proof.
  intros Hrun Hsh Ht. cbv zeta. intros Hout.
  destruct (gameLoop_fields h g Hrun) as (_ & _ & _ & Hr & _).
  destruct (geom_fields _ _ (afterPowerUps_geom (beginFrame h g)))
    as (_ & Hy & _ & _ & Hv).
  rewrite <- Hr, beginFrame_rocket in Hy, Hv.
  destruct (flyRocket_fields (rocket g)) as (Fv & Fy & Fh & Fs).
  assert (Hup : hasShield (flyRocket (rocket g)) = true).
  { rewrite Fs, Hsh. cbn [andb]. apply negb_true_iff, Z.leb_gt. lia. }
  assert (Hoob : outOfBounds h (flyRocket (rocket g)) = true).
  { apply outOfBounds_iff. rewrite Fy, Fh, !Num_add_eq. exact Hout. }
  assert (Hset : settledRocket h (rocket g) =
                 clampRocket h (flyRocket (rocket g))).
  { unfold settledRocket. cbv zeta. rewrite Hoob, Hup. reflexivity. }
  rewrite Hset in Hy, Hv. rewrite Hy, Hv.
  repeat split.
  - unfold clampRocket, Num.of_Z. fields.
    rewrite Num_max_eq, Num_min_eq, Num_sub_eq, Fy, Fh, !Num_add_eq.
    reflexivity.
  - rewrite <- Fh in *. apply clampRocket_range. assumption.
  - rewrite <- Fh in *. apply clampRocket_range. assumption.
  - unfold boundaryCrash. cbv zeta. rewrite Hup. apply andb_false_r.
Qed.

Example rising_frame :
  let g' := gameLoop browser false rising in
  (gameRunning g', rocket_y (rocket g'), rocket_velocity (rocket g'))
  = (true, 0%Q, 0%Q).
Proof. vm_compute. reflexivity. Qed.

Lemma shielded_boundary_contact_witness :
  gameRunning rising = true /\ hasShield (rocket rising) = true /\
  1 < shieldTime (rocket rising) /\
  let v := (rocket_velocity (rocket rising) + rocket_gravity (rocket rising))%Q in
  let y := (rocket_y (rocket rising) + v)%Q in
  let top :=
    (inject_Z (canvas_height browser) - rocket_height (rocket rising))%Q in
  (top < y \/ y < 0)%Q /\
  let g' := gameLoop browser false rising in
  rocket_velocity (rocket g') = 0%Q /\
  (rocket_y (rocket g') == Qmax 0 (Qmin top y))%Q /\
  ((rocket_height (rocket rising) <= inject_Z (canvas_height browser))%Q ->
   (0 <= rocket_y (rocket g') <= top)%Q) /\
  boundaryCrash browser rising = false.
Proof.
  split; [reflexivity|]. split; [reflexivity|]. split; [reflexivity|].
  split; [right; reflexivity|].
  apply (shielded_boundary_contact browser rising);
    [reflexivity | reflexivity | reflexivity | right; reflexivity].
Defined.

(** ** Collecting a shield *)

Lemma raiseShield_fields r :
  hasShield (raiseShield r) = true /\ shieldTime (raiseShield r) = 300.
Proof. split; reflexivity. Qed.

(** C10. The iteration of the power-up loop that collects a power-up (not
    yet collected, within reach after its move) leaves the shield flag true
    and the shield timer at exactly 300, whatever they were, and marks the
    power-up collected; a power-up that is already collected changes nothing
    in the state.  Hence a frame that runs and collects at least one
    power-up ends with the shield up and 300 ticks on its timer. *)
Theorem shield_pickup :
  (forall h p g,
     puTaken g p = true ->
     hasShield (rocket (snd (powerUpBody h p g))) = true /\
     shieldTime (rocket (snd (powerUpBody h p g))) = 300 /\
     forall q, fst (powerUpBody h p g) = Some q -> pu_collected q = true) /\
  (forall h p g,
     pu_collected p = true -> snd (powerUpBody h p g) = g) /\
  (forall h g,
     gameRunning g = true -> 0 < powerUpsCollected h g ->
     hasShield (rocket (gameLoop h false g)) = true /\
     shieldTime (rocket (gameLoop h false g)) = 300).
Proof.
  split; [|split].
  - intros h p g Ht.
    pose proof (powerUpBody_rocket h p g) as Hr. rewrite Ht in Hr.
    rewrite Hr. destruct (raiseShield_fields (rocket g)) as (Hs & Hti).
    split; [exact Hs|]. split; [exact Hti|].
    intros q Hq. rewrite powerUpBody_blocks in Hq. cbn [fst] in Hq.
    rewrite Ht in Hq.
    destruct (Num.lt (pu_x (movePowerUp g p)) (Num.neg (pu_size p)));
      [discriminate|].
    injection Hq as <-. reflexivity.
  - intros h p g Hc. rewrite powerUpBody_blocks. cbn [snd].
    unfold puTaken. rewrite Hc. reflexivity.
  - intros h g Hrun Hn.
    destruct (gameLoop_fields h g Hrun) as (_ & _ & _ & Hr & _).
    rewrite Hr. unfold afterPowerUps. rewrite powerUpsCollected_unfold in Hn.
    apply Z.ltb_lt in Hn. rewrite Hn. apply raiseShield_fields.
Qed.

Example recharging_frame :
  let g' := gameLoop browser false recharging in
  (shieldTime (rocket recharging), hasShield (rocket g'),
   shieldTime (rocket g'), map pu_collected (powerUps g'))
  = (200, true, 300, [true]).
Proof. vm_compute. reflexivity. Qed.

Lemma shield_pickup_witness :
  (gameRunning recharging = true /\ 0 < powerUpsCollected browser recharging) /\
  hasShield (rocket (gameLoop browser false recharging)) = true /\
  shieldTime (rocket (gameLoop browser false recharging)) = 300.
Proof.
  split; [split; reflexivity|].
  apply (proj2 (proj2 shield_pickup) browser recharging); reflexivity.
Defined.

(** ** High score *)

Lemma recordHighScore_fields g :
  highScore (recordHighScore g) = Z.max (highScore g) (score g) /\
  localStorage (recordHighScore g) =
    (if score g >? highScore g then Some (score g) else localStorage g) /\
  score (recordHighScore g) = score g.
Proof.
  unfold recordHighScore.
  destruct (Z.gtb_spec (score g) (highScore g)); fields;
    repeat split; lia.
Qed.

Lemma showGameOver_fields g :
  let g' := updateScoreDisplay (showGameOver g) in
  highScore g' = highScore g /\ localStorage g' = localStorage g /\
  finalScore (dom g') = Some (score g) /\
  finalHighScore (dom g') = Some (highScore g) /\
  gameOverScreen_shown (dom g') = true.
Proof. repeat split. Qed.

Lemma endGame_fields h g :
  highScore (endGame h g) = Z.max (highScore g) (score g) /\
  localStorage (endGame h g) =
    (if score g >? highScore g then Some (score g) else localStorage g) /\
  finalScore (dom (endGame h g)) = Some (score g) /\
  finalHighScore (dom (endGame h g)) = Some (Z.max (highScore g) (score g)) /\
  gameOverScreen_shown (dom (endGame h g)) = true.
Proof.
  rewrite endGame_blocks.
  pose proof (createConfetti_core h (set_gameRunning g false)) as Hc.
  core_of Hc. fields.
  generalize dependent (createConfetti h (set_gameRunning g false)).
  intros g1 _ Hs1 Hh1 _ _ _ _ _ _ Hl1 _.
  destruct (recordHighScore_fields g1) as (Hh2 & Hl2 & Hs2).
  rewrite Hs1, Hh1 in Hh2. rewrite Hs1, Hh1, Hl1 in Hl2. rewrite Hs1 in Hs2.
  revert Hh2 Hl2 Hs2. generalize (recordHighScore g1). intros g2 Hh2 Hl2 Hs2.
  destruct (showGameOver_fields g2) as (Hh3 & Hl3 & Hf3 & Hfh3 & Hsh3).
  rewrite Hh2 in Hh3, Hfh3. rewrite Hl2 in Hl3. rewrite Hs2 in Hf3.
  revert Hh3 Hl3 Hf3 Hfh3 Hsh3.
  generalize (updateScoreDisplay (showGameOver g2)).
  intros g3 Hh3 Hl3 Hf3 Hfh3 Hsh3.
  pose proof (updateConfetti_core h g3) as Hc3. core_of Hc3.
  repeat split; congruence.
Qed.

Lemma Outcome_quiet g0 g g' : quiet g g' -> Outcome g0 g -> Outcome g0 g'.
Proof.
  intros (Hr & Hh & Hl & Hf & _ & _ & Hs) [(R & H & L & S) | (R & f & F & S & H & L)].
  - left. repeat split; try congruence; lia.
  - right. split; [congruence|]. exists f.
    repeat split; try congruence; lia.
Qed.

Lemma Outcome_endGame h g0 g : Outcome g0 g -> Outcome g0 (endGame h g).
Proof.
  intros HO. right. split; [apply endGame_stops|].
  destruct (endGame_fields h g) as (Hh & Hl & Hf & _ & _).
  rewrite endGame_score, Hh, Hl, Hf. exists (score g).
  destruct HO as [(R & H & L & S) | (R & f & F & S & H & L)].
  - rewrite H, L. repeat split; try lia.
  - rewrite H, L. repeat split; try lia.
    destruct (Z.gtb_spec (score g) (Z.max (highScore g0) f));
      destruct (Z.gtb_spec (score g) (highScore g0));
      destruct (Z.gtb_spec f (highScore g0));
      try reflexivity; try lia; f_equal; lia.
Qed.

Lemma Steps_Outcome h g0 g g' : Steps h g g' -> Outcome g0 g -> Outcome g0 g'.
Proof.
  intros H. induction H; intros HO.
  - eapply Outcome_quiet; eassumption.
  - apply Outcome_endGame, HO.
  - auto.
Qed.

Lemma closing_fields g v :
  let g' := updateScoreDisplay (set_score g v) in
  gameRunning g' = gameRunning g /\ highScore g' = highScore g /\
  localStorage g' = localStorage g /\
  finalScore (dom g') = finalScore (dom g) /\ score g' = v.
Proof. repeat split. Qed.

Lemma frame_Outcome h g :
  gameRunning g = true ->
  let g' := gameLoop h false g in
  (gameRunning g' = true /\ highScore g' = highScore g /\
   localStorage g' = localStorage g) \/
  (gameRunning g' = false /\
   exists f, finalScore (dom g') = Some f /\ score g <= f < score g' /\
             highScore g' = Z.max (highScore g) f /\
             localStorage g' =
               (if f >? highScore g then Some f else localStorage g)).
Proof.
  intros Hrun. cbv zeta. rewrite (gameLoop_run h g Hrun).
  assert (HO : Outcome g (updateObjects h (beginFrame h g))).
  { apply (Steps_Outcome h g g).
    - eapply steps_trans; [apply beginFrame_Steps | apply updateObjects_Steps].
    - left. repeat split; [assumption | lia]. }
  revert HO. generalize (updateObjects h (beginFrame h g)). intros g5 HO.
  destruct (closing_fields g5 (score g5 + 1)) as (Hr & Hh & Hl & Hf & Hs).
  rewrite Hr, Hh, Hl, Hf, Hs.
  destruct HO as [(R & H & L & S) | (R & f & F & S & H & L)].
  - left. repeat split; assumption.
  - right. split; [assumption|]. exists f. repeat split; try assumption; lia.
Qed.

(** C7. [endGame] leaves the high score at the maximum of what it was and
    the score it finds, which is the score it shows as the final score; when
    the stored value agreed with the high score before, it agrees with that
    maximum afterwards.  So after a frame that ends the session the high
    score, in memory and in the store, is the maximum of the high score
    before the frame and the final score shown.  A call of [gameLoop] that
    leaves the session running changes neither, so that the high score
    before the last frame is the one from before the session; and
    [stopGame] changes neither. *)
Theorem high_score_at_game_over :
  (forall h g,
     highScore (endGame h g) = Z.max (highScore g) (score g) /\
     finalScore (dom (endGame h g)) = Some (score g) /\
     (storedHighScore (localStorage g) = highScore g ->
      storedHighScore (localStorage (endGame h g)) =
      Z.max (highScore g) (score g))) /\
  (forall h g,
     gameRunning g = true -> gameRunning (gameLoop h false g) = false ->
     storedHighScore (localStorage g) = highScore g ->
     exists f,
       finalScore (dom (gameLoop h false g)) = Some f /\
       highScore (gameLoop h false g) = Z.max (highScore g) f /\
       storedHighScore (localStorage (gameLoop h false g)) =
       Z.max (highScore g) f) /\
  (forall h hidden g,
     gameRunning (gameLoop h hidden g) = true ->
     highScore (gameLoop h hidden g) = highScore g /\
     localStorage (gameLoop h hidden g) = localStorage g) /\
  (forall g,
     highScore (stopGame g) = highScore g /\
     localStorage (stopGame g) = localStorage g /\
     gameRunning (stopGame g) = false).
Proof.
  split; [|split; [|split]].
  - intros h g. destruct (endGame_fields h g) as (Hh & Hl & Hf & _ & _).
    repeat split; try assumption.
    intros Hst. rewrite Hl.
    destruct (Z.gtb_spec (score g) (highScore g)); cbn [storedHighScore]; lia.
  - intros h g Hrun Hover Hst.
    destruct (frame_Outcome h g Hrun) as [(R & _) | (_ & f & F & S & H & L)];
      [congruence|].
    exists f. repeat split; try assumption.
    rewrite L.
    destruct (Z.gtb_spec f (highScore g)); cbn [storedHighScore]; lia.
  - intros h hidden g Hrun'.
    destruct (gameRunning g) eqn:Hrun; [destruct hidden|].
    + rewrite gameLoop_idle by auto. split; reflexivity.
    + destruct (frame_Outcome h g Hrun) as [(_ & H & L) | (R & _)];
        [split; assumption | congruence].
    + rewrite gameLoop_idle by auto. split; reflexivity.
  - intros g. repeat split.
Qed.

Lemma high_score_at_game_over_witness :
  (gameRunning falling = true /\
   gameRunning (gameLoop browser false falling) = false /\
   storedHighScore (localStorage falling) = highScore falling) /\
  exists f,
    finalScore (dom (gameLoop browser false falling)) = Some f /\
    highScore (gameLoop browser false falling) = Z.max (highScore falling) f /\
    storedHighScore (localStorage (gameLoop browser false falling)) =
    Z.max (highScore falling) f.
Proof.
  split; [repeat split; vm_compute; reflexivity|].
  apply (proj1 (proj2 high_score_at_game_over) browser falling);
    vm_compute; reflexivity.
Defined.

Example falling_game_over :
  let g' := gameLoop browser false falling in
  (score falling, finalScore (dom g'), highScore g', localStorage g',
   score g') = (31, Some 31, 31, Some 31, 32).
Proof. vm_compute. reflexivity. Qed.

(** C8, as the code has it. In a frame that ends the session the phases
    after the call of [endGame] still run: the frame counter has advanced
    and the score has grown by 1 plus the points of the frame, as in any
    other frame.  The high score was compared and stored inside the frame,
    so when the frame has set a new record the stored value is the new high
    score, it is at least the score the frame started with, and the score
    in memory at the end of the frame exceeds it by at least 1: by exactly 1
    when the frame passes no obstacle and collects no star. *)
Theorem terminal_frame_score (h : Host) (g : Game) :
  gameRunning g = true ->
  gameRunning (gameLoop h false g) = false ->
  highScore g < highScore (gameLoop h false g) ->
  let g' := gameLoop h false g in
  localStorage g' = Some (highScore g') /\
  finalScore (dom g') = Some (highScore g') /\
  score g <= highScore g' /\ highScore g' + 1 <= score g' /\
  score g' = score g + 1 + 50 * obstaclesPassed h g
             + 100 * starsCollected h g /\
  frameCount g' = frameCount g + 1 /\
  (obstaclesPassed h g = 0 -> starsCollected h g = 0 ->
   score g' = highScore g' + 1).
Proof.
  intros Hrun Hover Hrec. cbv zeta.
  destruct (gameLoop_fields h g Hrun) as (Hs & _ & Hf & _ & _).
  destruct (frame_Outcome h g Hrun) as [(R & _) | (_ & f & F & S & H & L)];
    [congruence|].
  assert (Hf' : highScore (gameLoop h false g) = f) by lia.
  rewrite Hf' in *.
  assert (Hgt : (f >? highScore g) = true) by (apply Z.gtb_lt; lia).
  rewrite Hgt in L.
  repeat split; try assumption; try lia.
Qed.

Lemma terminal_frame_score_witness :
  (gameRunning falling = true /\
   gameRunning (gameLoop browser false falling) = false /\
   highScore falling < highScore (gameLoop browser false falling)) /\
  let g' := gameLoop browser false falling in
  localStorage g' = Some (highScore g') /\
  finalScore (dom g') = Some (highScore g') /\
  score falling <= highScore g' /\ highScore g' + 1 <= score g' /\
  score g' = score falling + 1 + 50 * obstaclesPassed browser falling
             + 100 * starsCollected browser falling /\
  frameCount g' = frameCount falling + 1 /\
  (obstaclesPassed browser falling = 0 ->
   starsCollected browser falling = 0 ->
   score g' = highScore g' + 1).
Proof.
  split; [repeat split; vm_compute; reflexivity|].
  apply (terminal_frame_score browser falling); vm_compute; reflexivity.
Defined.

(** ** Level *)

Lemma levelOf_mono a b : a <= b -> levelOf a <= levelOf b.
Proof.
  intros H. unfold levelOf.
  pose proof (Z.div_le_mono a b 500 ltac:(lia) H). lia.
Qed.

Lemma levelOf_pos a : 0 <= a -> 1 <= levelOf a.
Proof.
  intros H. unfold levelOf. pose proof (Z.div_pos a 500 H ltac:(lia)). lia.
Qed.

Lemma gameLoop_levelBehind h hidden g :
  levelBehind g ->
  levelBehind (gameLoop h hidden g) /\ level g <= level (gameLoop h hidden g).
Proof.
  intros (Hs & Hl1 & Hl2).
  destruct (gameRunning g) eqn:Hrun; [destruct hidden|];
    try (rewrite gameLoop_idle by auto; unfold levelBehind; lia).
  destruct (gameLoop_fields h g Hrun) as (Hsc & Hlv & _).
  pose proof (Steps_score h g _ (gameLoop_Steps h false g)) as Hle.
  pose proof (levelOf_mono _ _ Hle). pose proof (levelOf_pos _ Hs).
  unfold levelBehind. rewrite Hlv. lia.
Qed.

Lemma startGame_blocks h hidden g :
  startGame h hidden g = gameLoop h hidden (started h g).
Proof. cbv beta zeta delta [startGame started]. reflexivity. Qed.

Lemma started_fields h g :
  gameRunning (started h g) = true /\ score (started h g) = 0 /\
  level (started h g) = 1 /\ frameCount (started h g) = 0 /\
  obstacles (started h g) = [] /\ stars (started h g) = [].
Proof. repeat split. Qed.

Lemma startGame_levelBehind h hidden g : levelBehind (startGame h hidden g).
Proof.
  rewrite startGame_blocks. apply gameLoop_levelBehind.
  destruct (started_fields h g) as (_ & Hs & Hl & _).
  unfold levelBehind. rewrite Hs, Hl. cbv. repeat split; discriminate.
Qed.

Lemma boost_fields h g :
  let g' := createBoostParticles h
              (set_rocket g
                 (set_rocket_velocity (rocket g) (rocket_boost (rocket g)))) in
  score g' = score g /\ level g' = level g /\
  gameRunning g' = gameRunning g.
Proof.
  cbv zeta.
  pose proof (createBoostParticles_core h
    (set_rocket g (set_rocket_velocity (rocket g) (rocket_boost (rocket g)))))
    as Hc.
  core_of Hc. fields. repeat split; assumption.
Qed.

Lemma handle_levelBehind h e g :
  levelBehind g ->
  levelBehind (handle h e g) /\
  (restarts e g = false -> level g <= level (handle h e g)).
Proof.
  intros HI. destruct e as [hidden | hidden |]; cbn [handle restarts].
  - destruct (gameLoop_levelBehind h hidden g HI). split; auto.
  - unfold handleInput. destruct (gameRunning g); cbn [negb].
    + destruct (boost_fields h g) as (Hs & Hl & _). cbv zeta in Hs, Hl.
      unfold levelBehind in *. rewrite Hs, Hl. split; [assumption | lia].
    + split; [apply startGame_levelBehind | discriminate].
  - unfold stopGame, levelBehind in *. fields. split; [assumption | lia].
Qed.

Lemma run_levelBehind h es g : levelBehind g -> levelBehind (run h es g).
Proof.
  revert g. induction es as [|e es IH]; intros g HI; cbn [run].
  - exact HI.
  - apply IH, handle_levelBehind, HI.
Qed.

(** C4, as the code has it. At every point of a session - after
    [startGame] and any further frames, inputs and stops - the level is at
    least 1 and at most [floor(score / 500) + 1]; it is recomputed at the
    start of each frame that runs, from the score the frame starts with, so
    that after the frame it equals [floor(s / 500) + 1] for that earlier
    score [s] while the score itself has moved on; and no event other than
    the start of a new session lowers it. *)
Theorem level_follows_score (h : Host) (hidden : bool) (g0 : Game)
  (es : list Event) :
  let g := run h es (startGame h hidden g0) in
  1 <= level g <= levelOf (score g) /\
  (forall e, restarts e g = false -> level g <= level (handle h e g)) /\
  (gameRunning g = true ->
   level (gameLoop h false g) = levelOf (score g) /\
   score g < score (gameLoop h false g)).
Proof.
  cbv zeta.
  pose proof (run_levelBehind h es _ (startGame_levelBehind h hidden g0)) as HI.
  revert HI. generalize (run h es (startGame h hidden g0)). intros g HI.
  split; [apply HI|]. split.
  - intros e. apply handle_levelBehind, HI.
  - intros Hrun. destruct (gameLoop_fields h g Hrun) as (Hs & Hl & _).
    split; [exact Hl|].
    pose proof (obstaclesPassed_nonneg h g).
    pose proof (starsCollected_nonneg h g). lia.
Qed.

Lemma level_follows_score_witness :
  gameRunning (run browser flight450 (startGame browser false (loaded None)))
  = true /\
  level (gameLoop browser false
           (run browser flight450 (startGame browser false (loaded None)))) =
  levelOf (score (run browser flight450
                    (startGame browser false (loaded None)))) /\
  score (run browser flight450 (startGame browser false (loaded None))) <
  score (gameLoop browser false
           (run browser flight450 (startGame browser false (loaded None)))).
Proof.
  split; [vm_compute; reflexivity|].
  apply (proj2 (proj2 (level_follows_score browser false (loaded None)
                         flight450))).
  vm_compute; reflexivity.
Defined.

Lemma level_lags_at_500 :
  (gameRunning atFiveHundred, frameCount atFiveHundred, score atFiveHundred,
   level atFiveHundred, levelOf (score atFiveHundred)) =
  (true, 450, 500, 1, 2) /\
  level atFiveHundred <> levelOf (score atFiveHundred).
Proof. split; [vm_compute; reflexivity | vm_compute; discriminate]. Qed.

(** ** The store and the high score in memory *)

Lemma gameLoop_storeAgrees h hidden g :
  storeAgrees g -> storeAgrees (gameLoop h hidden g).
Proof.
  unfold storeAgrees. intros Hst.
  destruct (gameRunning g) eqn:Hrun; [destruct hidden|];
    try (rewrite gameLoop_idle by auto; exact Hst).
  destruct (frame_Outcome h g Hrun)
    as [(_ & H & L) | (_ & f & _ & _ & H & L)]; rewrite H, L.
  - exact Hst.
  - destruct (Z.gtb_spec f (highScore g)); cbn [storedHighScore]; lia.
Qed.

Lemma started_store h g :
  highScore (started h g) = highScore g /\
  localStorage (started h g) = localStorage g.
Proof. split; reflexivity. Qed.

Lemma handle_storeAgrees h e g : storeAgrees g -> storeAgrees (handle h e g).
Proof.
  intros Hst. destruct e as [hidden | hidden |]; cbn [handle].
  - apply gameLoop_storeAgrees, Hst.
  - unfold handleInput. destruct (gameRunning g).
    + cbn [negb].
      pose proof (createBoostParticles_core h
        (set_rocket g
           (set_rocket_velocity (rocket g) (rocket_boost (rocket g))))) as Hc.
      core_of Hc. fields. unfold storeAgrees in *. congruence.
    + cbn [negb]. rewrite startGame_blocks. apply gameLoop_storeAgrees.
      destruct (started_store h g) as (H & L).
      unfold storeAgrees in *. rewrite H, L. exact Hst.
  - exact Hst.
Qed.

(** From the moment the script is loaded, whatever the host does. *)
Lemma stored_high_score_agrees h cell es :
  storeAgrees (run h es (loaded cell)).
Proof.
  assert (H0 : storeAgrees (loaded cell)) by reflexivity.
  revert H0. generalize (loaded cell). induction es as [|e es IH];
    intros g Hg; cbn [run]; [exact Hg|].
  apply IH, handle_storeAgrees, Hg.
Qed.

(** ** Five hundred frames *)

Lemma frames_S h n g :
  frames h (visible (S n)) g = frames h (visible n) (gameLoop h false g).
Proof. reflexivity. Qed.

Lemma frames_last h n g :
  frames h (visible (S n)) g = gameLoop h false (frames h (visible n) g).
Proof.
  revert g. induction n as [|n IH]; intros g; [reflexivity|].
  rewrite frames_S, IH, <- frames_S. reflexivity.
Qed.












(** In [shaft], without boosts and without collisions as well, two
    obstacles have been passed when the 500th frame of the session ends: it
    leaves 600 points at level 2, and the frame after it 601 points. *)
Example five_hundred_frames_with_points :
  let s0 := startGame shaft false (loaded None) in
  (gameRunning (frames shaft (visible 500) s0),
   bonus shaft 498 s0, bonus shaft 499 s0, bonus shaft 500 s0,
   score (frames shaft (visible 499) s0),
   level (frames shaft (visible 499) s0),
   score (frames shaft (visible 500) s0),
   level (frames shaft (visible 500) s0))
  = (true, 100, 100, 100, 600, 2, 601, 2).
Proof. vm_compute. reflexivity. Qed.

(** ** A terminal frame that also collects a star *)

Lemma terminal_frame_counterexample :
  (gameRunning beforeCrash, frameCount beforeCrash, score beforeCrash,
   highScore beforeCrash, localStorage beforeCrash)
  = (true, 390, 390, 0, None) /\
  (gameRunning (gameLoop arcade false beforeCrash),
   boundaryCrash arcade beforeCrash, obstacleCrash arcade beforeCrash,
   obstaclesPassed arcade beforeCrash, starsCollected arcade beforeCrash)
  = (false, false, true, 0, 1) /\
  (highScore (gameLoop arcade false beforeCrash),
   localStorage (gameLoop arcade false beforeCrash),
   finalScore (dom (gameLoop arcade false beforeCrash)),
   score (gameLoop arcade false beforeCrash))
  = (390, Some 390, Some 390, 491) /\
  score (gameLoop arcade false beforeCrash) <>
  storedHighScore (localStorage (gameLoop arcade false beforeCrash)) + 1.
Proof.
  split; [vm_compute; reflexivity|]. split; [vm_compute; reflexivity|].
  split; [vm_compute; reflexivity | vm_compute; discriminate].
Qed.

(** ** The spawn period *)

Lemma spawnPeriod_sign lvl :
  spawnPeriod lvl = 140 - 5 * lvl /\ (0 < spawnPeriod lvl <-> lvl <= 27).
Proof. unfold spawnPeriod, obstacleFrequency. lia. Qed.

Lemma levelOf_le_27 s : 0 <= s -> (levelOf s <= 27 <-> s < 13500).
Proof.
  intros Hs. unfold levelOf.
  pose proof (Z.div_mod s 500 ltac:(lia)).
  pose proof (Z.mod_pos_bound s 500 ltac:(lia)). lia.
Qed.

(** C1, as the code has it. The divisor of the spawn test is
    [obstacleFrequency - level * 5] as it comes, with the level that the
    frame has just computed from the score: nothing clamps it.  It is
    positive exactly up to level 27, that is for scores below 13500.  When
    it is zero the remainder is NaN, which is not [=== 0], and the test
    spawns nothing; when it is not zero the test spawns an obstacle exactly
    when the truncated remainder of the frame count is 0, which for a
    negative divisor means that the frame count is a multiple of its
    absolute value. *)
Theorem spawn_period_not_clamped :
  (forall h g,
     level (flown h g) = levelOf (score g) /\
     frameCount (flown h g) = frameCount g + 1) /\
  (forall lvl,
     spawnPeriod lvl = 140 - 5 * lvl /\ (0 < spawnPeriod lvl <-> lvl <= 27)) /\
  (forall s, 0 <= s -> (0 < spawnPeriod (levelOf s) <-> s < 13500)) /\
  (forall h g, spawnPeriod (level g) = 0 -> generateObstacles h g = g) /\
  (forall h g,
     spawnPeriod (level g) <> 0 ->
     generateObstacles h g =
     if Z.rem (frameCount g) (spawnPeriod (level g)) =? 0
     then createObstacle h g else g) /\
  (forall a b, b < 0 -> (Z.rem a b = 0 <-> exists k, a = k * - b)).
Proof.
  split; [|split; [|split; [|split; [|split]]]].
  - intros h g. destruct (flown_fields h g) as (_ & Hl & Hf & _).
    split; assumption.
  - apply spawnPeriod_sign.
  - intros s Hs. destruct (spawnPeriod_sign (levelOf s)) as (_ & ->).
    apply levelOf_le_27, Hs.
  - intros h g H0. unfold generateObstacles, Num.rem. rewrite H0.
    reflexivity.
  - intros h g Hn. unfold generateObstacles, Num.rem.
    apply Z.eqb_neq in Hn. rewrite Hn. reflexivity.
  - intros a b Hb. rewrite Z.rem_divide by lia. split.
    + intros (k & ->). exists (- k). lia.
    + intros (k & ->). exists (- k). lia.
Qed.

Lemma spawn_period_counterexample :
  (gameRunning atLevel28, frameCount atLevel28, score atLevel28,
   level atLevel28, spawnPeriod (level atLevel28),
   Num.rem (frameCount atLevel28) (spawnPeriod (level atLevel28)))
  = (true, 7255, 13905, 28, 0, None) /\
  (gameRunning atLevel29, frameCount atLevel29, score atLevel29,
   level atLevel29, spawnPeriod (level atLevel29),
   Num.rem (frameCount atLevel29) (spawnPeriod (level atLevel29)))
  = (true, 7294, 14044, 29, -5, Some 4) /\
  ~ 0 < spawnPeriod (level atLevel28) /\
  ~ 0 < spawnPeriod (level atLevel29).
Proof.
  split; [vm_compute; reflexivity|]. split; [vm_compute; reflexivity|].
  split; vm_compute; discriminate.
Qed.

Lemma spawn_period_not_clamped_witness :
  spawnPeriod (level atLevel28) = 0 /\
  generateObstacles browser atLevel28 = atLevel28.
Proof.
  split; [vm_compute; reflexivity|].
  apply (proj1 (proj2 (proj2 (proj2 spawn_period_not_clamped)))).
  vm_compute; reflexivity.
Defined.

(** * Sessions and pages: lemmas *)


Lemma handleInput_blocks h hidden g :
  handleInput h hidden g =
  if gameRunning g then boosted h g else startGame h hidden g.
Proof. unfold handleInput, boosted. destruct (gameRunning g); reflexivity. Qed.

(** An invariant of the steps a page takes holds in every reachable state. *)
Lemma Reachable_inv h (I : Game -> Prop) :
  (forall cell, I (loaded cell)) ->
  (forall g, I g -> I (resetGame h g)) ->
  (forall g, I g -> I (updateScoreDisplay g)) ->
  (forall g, Reachable h g -> I g -> I (gameLoop h false (started h g))) ->
  (forall g, I g -> I (started h g)) ->
  (forall g, Reachable h g -> I g -> gameRunning g = true ->
             I (gameLoop h false g)) ->
  (forall g, I g -> gameRunning g = true -> I (boosted h g)) ->
  (forall g, I g -> I (stopGame g)) ->
  (forall g, I g -> I (updateConfetti h g)) ->
  forall g, Reachable h g -> I g.
Proof.
  intros Hl Hr Hd Hs1 Hs0 Hf Hb Hst Hc.
  assert (Hloop : forall hidden g, Reachable h g -> I g ->
                                   I (gameLoop h hidden g)).
  { intros hidden g HR Hg.
    destruct (gameRunning g) eqn:Hrun; [destruct hidden|].
    - rewrite gameLoop_idle by auto. exact Hg.
    - apply Hf; assumption.
    - rewrite gameLoop_idle by auto. exact Hg. }
  assert (Hstart : forall hidden g, Reachable h g -> I g ->
                                    I (startGame h hidden g)).
  { intros hidden g HR Hg. rewrite startGame_blocks. destruct hidden.
    - rewrite gameLoop_idle by auto. apply Hs0, Hg.
    - apply Hs1; assumption. }
  assert (Hin : forall hidden g, Reachable h g -> I g ->
                                 I (handleInput h hidden g)).
  { intros hidden g HR Hg. rewrite handleInput_blocks.
    destruct (gameRunning g) eqn:Hrun; [apply Hb | apply Hstart]; assumption. }
  intros g HR. induction HR.
  - apply Hl.
  - unfold initGame. apply Hd, Hr, IHHR.
  - apply Hloop; assumption.
  - apply Hin; assumption.
  - unfold handleKeyDown. destruct (String.eqb code "Space");
      [apply Hin; assumption | exact IHHR].
  - apply Hstart; assumption.
  - apply Hstart; assumption.
  - apply Hst, IHHR.
  - apply Hc, IHHR.
Qed.

(** ** The rocket over a session *)

Lemma geom_asBuilt r r' : geom r' = geom r -> asBuilt r -> asBuilt r'.
Proof.
  unfold geom, asBuilt. generalize (rocket_x r') (rocket_y r')
    (rocket_width r') (rocket_height r') (rocket_velocity r')
    (rocket_gravity r') (rocket_boost r') (rotation r').
  intros. inversion H. assumption.
Qed.

Lemma settledRocket_asBuilt h r : asBuilt r -> asBuilt (settledRocket h r).
Proof.
  unfold settledRocket, clampRocket, flyRocket, asBuilt. cbv zeta. fields.
  intros H.
  destruct (hasShield r); [destruct (shieldTime r - 1 <=? 0)|];
    match goal with
    | |- context [if ?c then _ else _] => destruct c
    end; fields; exact H.
Qed.

Lemma gameLoop_rocket h g :
  gameRunning g = true ->
  rocket (gameLoop h false g) = afterPowerUps (beginFrame h g) /\
  rocket (beginFrame h g) = settledRocket h (rocket g).
Proof.
  intros Hrun. split; [apply (gameLoop_fields h g Hrun)|].
  apply beginFrame_rocket.
Qed.

Lemma gameLoop_asBuilt h g :
  gameRunning g = true -> asBuilt (rocket g) ->
  asBuilt (rocket (gameLoop h false g)).
Proof.
  intros Hrun H. destruct (gameLoop_rocket h g Hrun) as (Hr & Hb).
  rewrite Hr. apply (geom_asBuilt (rocket (beginFrame h g)));
    [apply afterPowerUps_geom|].
  rewrite Hb. apply settledRocket_asBuilt, H.
Qed.

Lemma started_rocket h g :
  rocket (started h g) =
  set_shieldTime
    (set_hasShield
       (set_rocket_velocity
          (set_rocket_y (rocket g)
             (Num.div (Num.of_Z (canvas_height h)) 2%Q)) 0%Q) false) 0.
Proof. reflexivity. Qed.

Lemma resetGame_rocket h g :
  rocket (resetGame h g) =
  set_shieldTime
    (set_hasShield
       (set_rocket_velocity
          (set_rocket_y (rocket g)
             (Num.div (Num.of_Z (canvas_height h)) 2%Q)) 0%Q) false) 0.
Proof. reflexivity. Qed.

Lemma boosted_core h g :
  core (boosted h g) =
  core (set_rocket g
          (set_rocket_velocity (rocket g) (rocket_boost (rocket g)))).
Proof. apply createBoostParticles_core. Qed.

Lemma boosted_rocket h g :
  rocket (boosted h g) =
  set_rocket_velocity (rocket g) (rocket_boost (rocket g)).
Proof. pose proof (boosted_core h g) as H. core_of H. assumption. Qed.

Lemma updateConfetti_rocket h g : rocket (updateConfetti h g) = rocket g.
Proof. pose proof (updateConfetti_core h g) as H. core_of H. assumption. Qed.

Lemma Reachable_asBuilt h g : Reachable h g -> asBuilt (rocket g).
Proof.
  apply (Reachable_inv h (fun g => asBuilt (rocket g))).
  - intros cell. repeat split.
  - intros s H. rewrite resetGame_rocket. exact H.
  - intros s H. exact H.
  - intros s _ H. apply gameLoop_asBuilt; [reflexivity|].
    rewrite started_rocket. exact H.
  - intros s H. rewrite started_rocket. exact H.
  - intros s _ H Hrun. apply gameLoop_asBuilt; assumption.
  - intros s H _. rewrite boosted_rocket. exact H.
  - intros s H. exact H.
  - intros s H. rewrite updateConfetti_rocket. exact H.
Qed.

(** X1. In every reachable state the rocket has the constants it was built
    with: x = 100, width 40, height 40, gravity 0.5 and boost -10.  Nothing
    in the game assigns to them. *)
Theorem rocket_constants (h : Host) (g : Game) :
  Reachable h g -> asBuilt (rocket g).
Proof. apply Reachable_asBuilt. Qed.

Lemma Reachable_frames h hs g :
  Reachable h g -> Reachable h (frames h hs g).
Proof.
  revert g. induction hs as [|hidden hs IH]; intros g H; [exact H|].
  apply IH, reach_gameLoop, H.
Qed.

Lemma Reachable_run h es g : Reachable h g -> Reachable h (run h es g).
Proof.
  revert g. induction es as [|e es IH]; intros g H; [exact H|].
  cbn [run]. apply IH. destruct e; cbn [handle].
  - apply reach_gameLoop, H.
  - apply reach_handleInput, H.
  - apply reach_stopGame, H.
Qed.

Lemma fresh_Reachable : Reachable browser fresh.
Proof. apply reach_startGame, reach_loaded. Qed.

Lemma rocket_constants_witness :
  Reachable browser falling /\ asBuilt (rocket falling).
Proof.
  assert (H : Reachable browser falling)
    by apply Reachable_frames, fresh_Reachable.
  split; [exact H | apply (rocket_constants browser falling H)].
Defined.

(** ** The shield timer *)

Lemma flyRocket_shieldTimed r : shieldTimed r -> shieldTimed (flyRocket r).
Proof.
  unfold shieldTimed, flyRocket. cbv zeta. fields.
  destruct (hasShield r) eqn:E; fields; [|rewrite E; auto].
  intros H. destruct (Z.leb_spec (shieldTime r - 1) 0); fields; [lia|].
  rewrite E. lia.
Qed.

Lemma settledRocket_shieldTimed h r :
  shieldTimed r -> shieldTimed (settledRocket h r).
Proof.
  intros H. apply flyRocket_shieldTimed in H. unfold settledRocket. cbv zeta.
  destruct (outOfBounds h (flyRocket r) && hasShield (flyRocket r));
    exact H.
Qed.

Lemma afterPowerUps_shieldTimed g :
  shieldTimed (rocket g) -> shieldTimed (afterPowerUps g).
Proof.
  intros H. unfold afterPowerUps, afterObstacles.
  destruct (0 <? countIf (puTaken g) (powerUps g)).
  - unfold shieldTimed. cbn. lia.
  - destruct (hasShield (rocket g) && (0 <? countIf (hit g) (obstacles g)));
      [reflexivity | exact H].
Qed.

Lemma gameLoop_shieldTimed h g :
  gameRunning g = true -> shieldTimed (rocket g) ->
  shieldTimed (rocket (gameLoop h false g)).
Proof.
  intros Hrun H. destruct (gameLoop_rocket h g Hrun) as (Hr & Hb).
  rewrite Hr. apply afterPowerUps_shieldTimed. rewrite Hb.
  apply settledRocket_shieldTimed, H.
Qed.

(** X2. In every reachable state the shield flag and the shield timer
    agree: while the shield is up the timer is between 1 and 300, while it
    is down the timer is 0. *)
Theorem shield_timer_range (h : Host) (g : Game) :
  Reachable h g -> shieldTimed (rocket g).
Proof.
  apply (Reachable_inv h (fun g => shieldTimed (rocket g))).
  - intros cell. reflexivity.
  - intros s _. reflexivity.
  - intros s H. exact H.
  - intros s _ _. apply gameLoop_shieldTimed; reflexivity.
  - intros s _. reflexivity.
  - intros s _ H Hrun. apply gameLoop_shieldTimed; assumption.
  - intros s H _. rewrite boosted_rocket. exact H.
  - intros s H. exact H.
  - intros s H. rewrite updateConfetti_rocket. exact H.
Qed.

Lemma shield_timer_range_witness :
  Reachable browser falling /\ shieldTimed (rocket falling).
Proof.
  assert (H : Reachable browser falling)
    by apply Reachable_frames, fresh_Reachable.
  split; [exact H | apply (shield_timer_range browser falling H)].
Defined.

(** ** Frames, points and level *)

Lemma gameLoop_paced h g :
  gameRunning g = true -> paced g -> paced (gameLoop h false g).
Proof.
  intros Hrun ((Hf & Hs) & (k & Hk & Hsk) & Hl).
  destruct (gameLoop_fields h g Hrun) as (Hsc & Hlv & Hfc & _).
  pose proof (obstaclesPassed_nonneg h g).
  pose proof (starsCollected_nonneg h g).
  unfold paced. rewrite Hsc, Hlv, Hfc. repeat split; try lia.
  - exists (k + obstaclesPassed h g + 2 * starsCollected h g). lia.
  - apply levelOf_mono. lia.
Qed.

Lemma paced_reset g :
  frameCount g = 0 -> score g = 0 -> level g = 1 -> paced g.
Proof.
  intros Hf Hs Hl. unfold paced. rewrite Hf, Hs, Hl. repeat split; try lia.
  - exists 0. lia.
  - discriminate.
Qed.

Lemma paced_same g g' :
  frameCount g' = frameCount g -> score g' = score g ->
  level g' = level g -> paced g -> paced g'.
Proof. unfold paced. intros -> -> ->. auto. Qed.

(** X3. In every reachable state the frame counter is at most the score,
    the score is the frame counter plus a multiple of 50, and the level is
    at least [floor((frameCount - 1) / 500) + 1].  So from frame 13501 of a
    session on, however it is played, the divisor of the spawn test for
    obstacles, [obstacleFrequency - level * 5], is zero or less. *)
Theorem frames_drive_level (h : Host) (g : Game) :
  Reachable h g ->
  0 <= frameCount g <= score g /\
  (exists k, 0 <= k /\ score g = frameCount g + 50 * k) /\
  levelOf (frameCount g - 1) <= level g /\
  (13501 <= frameCount g -> spawnPeriod (level g) <= 0).
Proof.
  intros HR.
  assert (H : paced g).
  { revert g HR. apply (Reachable_inv h paced).
    - intros cell. apply paced_reset; reflexivity.
    - intros s _. apply paced_reset; reflexivity.
    - intros s H. exact H.
    - intros s _ _. apply gameLoop_paced; [reflexivity|].
      apply paced_reset; reflexivity.
    - intros s _. apply paced_reset; reflexivity.
    - intros s _ H Hrun. apply gameLoop_paced; assumption.
    - intros s H _. pose proof (boosted_core h s) as Hc. core_of Hc.
      apply (paced_same s); assumption.
    - intros s H. exact H.
    - intros s H. pose proof (updateConfetti_core h s) as Hc. core_of Hc.
      apply (paced_same s); assumption. }
  destruct H as (Hf & Hk & Hl). repeat split; try apply Hf; try assumption.
  intros Hbig.
  pose proof (levelOf_mono 13500 (frameCount g - 1) ltac:(lia)) as Hm.
  change (levelOf 13500) with 28 in Hm. unfold spawnPeriod, obstacleFrequency.
  lia.
Qed.

Lemma frames_drive_level_witness :
  Reachable browser atFiveHundred /\
  0 <= frameCount atFiveHundred <= score atFiveHundred /\
  (exists k, 0 <= k /\
             score atFiveHundred = frameCount atFiveHundred + 50 * k) /\
  levelOf (frameCount atFiveHundred - 1) <= level atFiveHundred /\
  (13501 <= frameCount atFiveHundred ->
   spawnPeriod (level atFiveHundred) <= 0).
Proof.
  assert (H : Reachable browser atFiveHundred)
    by apply Reachable_run, fresh_Reachable.
  split; [exact H | apply (frames_drive_level browser atFiveHundred H)].
Defined.

(** ** Obstacles over a session *)

Section ReverseLoopElements.

Context {A : Type} (body : A -> Game -> option A * Game).
Variables (I : Game -> Prop) (P Q : A -> Prop).
Hypothesis I_body : forall a g, I g -> I (snd (body a g)).
Hypothesis PQ_body :
  forall a g b, P a -> I g -> fst (body a g) = Some b -> Q b.

(** Elements that satisfy [P] are kept as elements that satisfy [Q]. *)
Lemma reverseLoop_Forall_in l g :
  Forall P l -> I g -> Forall Q (fst (reverseLoop body l g)).
Proof.
  revert g; induction l as [|a rest IH]; intros g Hl Hg; simpl.
  - constructor.
  - inversion Hl as [|? ? Ha Hrest]; subst.
    specialize (IH g Hrest Hg).
    pose proof (reverseLoop_inv body I I_body rest g Hg) as Hinv.
    destruct (reverseLoop body rest g) as [rest' g1]; simpl in IH, Hinv.
    pose proof (PQ_body a g1) as Hq.
    destruct (body a g1) as [[b|] g2]; simpl in *.
    + constructor; [apply Hq; auto | exact IH].
    + exact IH.
Qed.

End ReverseLoopElements.

Lemma createObstacle_obstacles h g :
  obstacles (createObstacle h g) =
  obstacles g ++ [spawnedObstacle h (random_tape h (rng g))].
Proof. reflexivity. Qed.

Lemma generateStars_obstacles h g :
  obstacles (generateStars h g) = obstacles g.
Proof. unfold generateStars. destruct (Num.is_zero _); reflexivity. Qed.

Lemma generatePowerUps_obstacles h g :
  obstacles (generatePowerUps h g) = obstacles g.
Proof. unfold generatePowerUps. destruct (Num.is_zero _); reflexivity. Qed.

(** The obstacles the loop of a frame starts from: those of the state, and
    in a spawn frame a new one at the end. *)
Lemma beginFrame_obstacles h g :
  obstacles (beginFrame h g) = obstacles g \/
  exists k, obstacles (beginFrame h g) =
            obstacles g ++ [spawnedObstacle h (random_tape h k)].
Proof.
  rewrite beginFrame_blocks, generatePowerUps_obstacles,
    generateStars_obstacles.
  destruct (flown_fields h g) as (_ & _ & _ & Ho & _). rewrite <- Ho.
  unfold generateObstacles. destruct (Num.is_zero _).
  - right. exists (rng (flown h g)). apply createObstacle_obstacles.
  - left. reflexivity.
Qed.

Lemma beginFrame_obstacles_Forall h g (P : Obstacle -> Prop) :
  (forall k, P (spawnedObstacle h (random_tape h k))) ->
  Forall P (obstacles g) -> Forall P (obstacles (beginFrame h g)).
Proof.
  intros Hnew H. destruct (beginFrame_obstacles h g) as [E | (k & E)];
    rewrite E; [exact H|].
  apply Forall_app. split; [exact H|]. constructor; [apply Hnew | constructor].
Qed.

Lemma obstacleBody_kept h o s b :
  fst (obstacleBody h o s) = Some b ->
  gone s o = false /\
  obs_x b = obs_x (moveObstacle s o) /\ obs_width b = obs_width o /\
  topHeight b = topHeight o /\ bottomY b = bottomY o.
Proof.
  rewrite obstacleBody_blocks. cbv zeta. cbn [fst].
  destruct (gone s o); [discriminate|]. intros H. injection H as <-.
  destruct (awarded s o); repeat split.
Qed.

Lemma gameLoop_obstacles_Forall h g (P Q : Obstacle -> Prop) :
  gameRunning g = true ->
  (forall o s b, P o -> fst (obstacleBody h o s) = Some b -> Q b) ->
  Forall P (obstacles (beginFrame h g)) ->
  Forall Q (obstacles (gameLoop h false g)).
Proof.
  intros Hrun Hbody H.
  rewrite (gameLoop_obstacles h g Hrun), updateObstacles_list.
  apply (reverseLoop_Forall_in (obstacleBody h) (fun _ => True) P Q);
    [auto | | exact H | exact I].
  intros o s b Ho _ Hb. exact (Hbody o s b Ho Hb).
Qed.

Lemma Num_mul_eq a b : (Num.mul a b == a * b)%Q.
Proof. apply Qred_correct. Qed.

Lemma gameLoop_wellKept h g :
  gameRunning g = true -> asBuilt (rocket g) ->
  Forall wellKept (obstacles g) ->
  Forall wellKept (obstacles (gameLoop h false g)).
Proof.
  intros Hrun Hb H.
  assert (Hshape : Forall (fun o => obs_width o = 80%Q /\
                     ~ (obs_x o + obs_width o < 0)%Q)
                     (obstacles (gameLoop h false g))).
  { apply (gameLoop_obstacles_Forall h g (fun o => obs_width o = 80%Q)).
    - exact Hrun.
    - intros o s b Hw Hkept.
      apply obstacleBody_kept in Hkept.
      destruct Hkept as (Hgone & Hx & Hw' & _).
      rewrite Hw', Hx. split; [exact Hw|].
      intros Hlt. unfold gone in Hgone.
      rewrite <- Num_add_eq in Hlt. apply Num_lt_iff in Hlt. congruence.
    - apply beginFrame_obstacles_Forall; [intros k; reflexivity|].
      revert H. apply Forall_impl. intros o (Hw & _). exact Hw. }
  assert (Hflag : Forall (flagged 100%Q) (obstacles (gameLoop h false g))).
  { rewrite (gameLoop_obstacles h g Hrun).
    pose proof (updateObstacles_flagged h (beginFrame h g)) as Hf.
    rewrite beginFrame_rocket in Hf.
    destruct (settledRocket_asBuilt h _ Hb) as (Hx & _).
    rewrite Hx in Hf. exact Hf. }
  rewrite Forall_forall in *. intros o Ho.
  destruct (Hshape o Ho) as (? & ?). unfold wellKept. auto.
Qed.

Lemma boosted_obstacles h g : obstacles (boosted h g) = obstacles g.
Proof. pose proof (boosted_core h g) as H. core_of H. assumption. Qed.

Lemma updateConfetti_obstacles h g :
  obstacles (updateConfetti h g) = obstacles g.
Proof. pose proof (updateConfetti_core h g) as H. core_of H. assumption. Qed.

Lemma started_asBuilt h g :
  asBuilt (rocket g) -> asBuilt (rocket (started h g)).
Proof. intros H. rewrite started_rocket. exact H. Qed.

Lemma Reachable_wellKept h g : Reachable h g -> Forall wellKept (obstacles g).
Proof.
  apply (Reachable_inv h (fun g => Forall wellKept (obstacles g))).
  - intros cell. constructor.
  - intros s _. constructor.
  - intros s H. exact H.
  - intros s HR _. apply gameLoop_wellKept;
      [reflexivity | apply started_asBuilt, (Reachable_asBuilt h), HR
      | constructor].
  - intros s _. constructor.
  - intros s HR H Hrun. apply gameLoop_wellKept;
      [exact Hrun | apply (Reachable_asBuilt h), HR | exact H].
  - intros s H _. rewrite boosted_obstacles. exact H.
  - intros s H. exact H.
  - intros s H. rewrite updateConfetti_obstacles. exact H.
Qed.

(** X4. Every obstacle on the list of a reachable state is 80 wide, has not
    passed the left edge of the canvas (x + width is not below 0), and
    carries the [passed] flag if it lies behind the rocket
    (x + width < 100). *)
Theorem obstacles_well_kept (h : Host) (g : Game) :
  Reachable h g -> Forall wellKept (obstacles g).
Proof. apply Reachable_wellKept. Qed.

(** The gap of a new obstacle. *)
Lemma spawnedObstacle_gap h r :
  (0 <= r)%Q -> (r < 1)%Q -> gapPlaced h (spawnedObstacle h r).
Proof.
  intros H0 H1. unfold gapPlaced, spawnedObstacle, obstacleGap, Num.of_Z.
  cbv zeta. cbn [topHeight bottomY].
  destruct (Z.leb_spec 330 (canvas_height h)) as [HH | HH];
    rewrite !Num_add_eq, Num_mul_eq, !Num_sub_eq.
  - assert (Hc : (330 <= inject_Z (canvas_height h))%Q).
    { change 330%Q with (inject_Z 330). rewrite <- Zle_Qle. exact HH. }
    set (H := inject_Z (canvas_height h)) in *.
    assert (0 <= r * (H - 250 - 80))%Q by (apply Qmult_le_0_compat; lra).
    assert (r * (H - 250 - 80) <= 1 * (H - 250 - 80))%Q
      by (apply Qmult_le_compat_r; lra).
    split; lra.
  - assert (Hc : (inject_Z (canvas_height h) < 330)%Q).
    { change 330%Q with (inject_Z 330). rewrite <- Zlt_Qlt. exact HH. }
    set (H := inject_Z (canvas_height h)) in *.
    assert (0 <= r * (80 + 250 - H))%Q by (apply Qmult_le_0_compat; lra).
    assert (r * (80 + 250 - H) <= 1 * (80 + 250 - H))%Q
      by (apply Qmult_le_compat_r; lra).
    split; lra.
Qed.

Lemma obstacles_well_kept_witness :
  Reachable browser atFiveHundred /\
  Forall wellKept (obstacles atFiveHundred).
Proof.
  assert (H : Reachable browser atFiveHundred)
    by apply Reachable_run, fresh_Reachable.
  split; [exact H | apply (obstacles_well_kept browser atFiveHundred H)].
Defined.

Lemma gameLoop_gapPlaced h g :
  unitTape h -> gameRunning g = true ->
  Forall (gapPlaced h) (obstacles g) ->
  Forall (gapPlaced h) (obstacles (gameLoop h false g)).
Proof.
  intros Ht Hrun H.
  apply (gameLoop_obstacles_Forall h g (gapPlaced h)).
  - exact Hrun.
  - intros o s b Ho Hkept. apply obstacleBody_kept in Hkept.
    destruct Hkept as (_ & _ & _ & Htop & Hbot).
    unfold gapPlaced in *. rewrite Htop, Hbot. exact Ho.
  - apply beginFrame_obstacles_Forall; [|exact H].
    intros k. destruct (Ht k). apply spawnedObstacle_gap; assumption.
Qed.

Lemma browser_unitTape : unitTape browser.
Proof. intros n. split; reflexivity || discriminate. Qed.

(** X5. With random values from 0 up to 1, every obstacle on the list of a
    reachable state has its gap where [createObstacle] puts it: on a canvas
    330 high or more the upper part is at least 80 high and the lower part
    begins within the canvas; on a lower canvas the upper part is at most
    80 high and the lower part begins at the lower edge or below it. *)
Theorem gaps_placed (h : Host) (g : Game) :
  unitTape h -> Reachable h g -> Forall (gapPlaced h) (obstacles g).
Proof.
  intros Ht. revert g.
  apply (Reachable_inv h (fun g => Forall (gapPlaced h) (obstacles g))).
  - intros cell. constructor.
  - intros s _. constructor.
  - intros s H. exact H.
  - intros s _ _. apply gameLoop_gapPlaced; auto; constructor.
  - intros s _. constructor.
  - intros s _ H Hrun. apply gameLoop_gapPlaced; assumption.
  - intros s H _. rewrite boosted_obstacles. exact H.
  - intros s H. exact H.
  - intros s H. rewrite updateConfetti_obstacles. exact H.
Qed.

Lemma gaps_placed_witness :
  unitTape browser /\ Reachable browser atFiveHundred /\
  Forall (gapPlaced browser) (obstacles atFiveHundred).
Proof.
  assert (H : Reachable browser atFiveHundred)
    by apply Reachable_run, fresh_Reachable.
  split; [exact browser_unitTape|]. split; [exact H|].
  apply (gaps_placed browser atFiveHundred browser_unitTape H).
Defined.

(** ** Stars and power-ups over a session *)

Lemma spawned_height h r :
  (0 <= r)%Q -> (r < 1)%Q ->
  heightPlaced h
    (Num.add (Num.mul r (Num.sub (Num.of_Z (canvas_height h)) 60%Q)) 30%Q).
Proof.
  intros H0 H1. unfold heightPlaced, Num.of_Z.
  destruct (Z.leb_spec 60 (canvas_height h)) as [HH | HH];
    rewrite !Num_add_eq, Num_mul_eq, !Num_sub_eq.
  - assert (Hc : (60 <= inject_Z (canvas_height h))%Q).
    { change 60%Q with (inject_Z 60). rewrite <- Zle_Qle. exact HH. }
    set (H := inject_Z (canvas_height h)) in *.
    assert (0 <= r * (H - 60))%Q by (apply Qmult_le_0_compat; lra).
    assert (r * (H - 60) <= 1 * (H - 60))%Q
      by (apply Qmult_le_compat_r; lra).
    split; lra.
  - assert (Hc : (inject_Z (canvas_height h) < 60)%Q).
    { change 60%Q with (inject_Z 60). rewrite <- Zlt_Qlt. exact HH. }
    set (H := inject_Z (canvas_height h)) in *.
    assert (0 <= r * (60 - H))%Q by (apply Qmult_le_0_compat; lra).
    assert (r * (60 - H) <= 1 * (60 - H))%Q
      by (apply Qmult_le_compat_r; lra).
    split; lra.
Qed.

Lemma createStar_stars h g :
  stars (createStar h g) = stars g ++ [spawnedStar h (random_tape h (rng g))].
Proof. reflexivity. Qed.

Lemma createPowerUp_powerUps h g :
  powerUps (createPowerUp h g) =
  powerUps g ++ [spawnedPowerUp h (random_tape h (rng g))].
Proof. reflexivity. Qed.

Lemma generateObstacles_stars h g :
  stars (generateObstacles h g) = stars g /\
  powerUps (generateObstacles h g) = powerUps g.
Proof.
  unfold generateObstacles. destruct (Num.is_zero _); split; reflexivity.
Qed.

Lemma generateStars_powerUps h g :
  powerUps (generateStars h g) = powerUps g.
Proof. unfold generateStars. destruct (Num.is_zero _); reflexivity. Qed.

Lemma generatePowerUps_stars h g :
  stars (generatePowerUps h g) = stars g.
Proof. unfold generatePowerUps. destruct (Num.is_zero _); reflexivity. Qed.

Lemma beginFrame_stars h g :
  stars (beginFrame h g) = stars g \/
  exists k, stars (beginFrame h g) =
            stars g ++ [spawnedStar h (random_tape h k)].
Proof.
  rewrite beginFrame_blocks, generatePowerUps_stars.
  destruct (flown_fields h g) as (_ & _ & _ & _ & Hs & _).
  destruct (generateObstacles_stars h (flown h g)) as (Hs' & _).
  revert Hs'. generalize (generateObstacles h (flown h g)).
  intros s Hs'. assert (E : stars s = stars g) by congruence.
  rewrite <- E. unfold generateStars. destruct (Num.is_zero _).
  - right. exists (rng s). apply createStar_stars.
  - left. reflexivity.
Qed.

Lemma beginFrame_powerUps h g :
  powerUps (beginFrame h g) = powerUps g \/
  exists k, powerUps (beginFrame h g) =
            powerUps g ++ [spawnedPowerUp h (random_tape h k)].
Proof.
  rewrite beginFrame_blocks.
  destruct (flown_fields h g) as (_ & _ & _ & _ & _ & Hp & _).
  destruct (generateObstacles_stars h (flown h g)) as (_ & Hp').
  pose proof (generateStars_powerUps h (generateObstacles h (flown h g)))
    as Hp''.
  revert Hp''. generalize (generateStars h (generateObstacles h (flown h g))).
  intros s Hs. assert (E : powerUps s = powerUps g) by congruence.
  rewrite <- E. unfold generatePowerUps. destruct (Num.is_zero _).
  - right. exists (rng s). apply createPowerUp_powerUps.
  - left. reflexivity.
Qed.

Lemma updateStars_list h g :
  stars (updateStars h g) = fst (reverseLoop (starBody h) (stars g) g).
Proof.
  unfold updateStars.
  destruct (reverseLoop (starBody h) (stars g) g); reflexivity.
Qed.

Lemma updatePowerUps_list h g :
  powerUps (updatePowerUps h g) =
  fst (reverseLoop (powerUpBody h) (powerUps g) g).
Proof.
  unfold updatePowerUps.
  destruct (reverseLoop (powerUpBody h) (powerUps g) g); reflexivity.
Qed.

Lemma closing_lists g v :
  stars (updateScoreDisplay (set_score g v)) = stars g /\
  powerUps (updateScoreDisplay (set_score g v)) = powerUps g /\
  particles (updateScoreDisplay (set_score g v)) = particles g /\
  confettiParticles (updateScoreDisplay (set_score g v)) =
    confettiParticles g.
Proof. repeat split. Qed.

(** The stars and the power-ups the five loops leave are what their own
    loops leave, run in states with the level and the rocket's place of the
    start. *)
Lemma updateObjects_collectibles h s :
  exists s1 s2,
    stars (updateObjects h s) =
      fst (reverseLoop (starBody h) (stars s) s1) /\
    powerUps (updateObjects h s) =
      fst (reverseLoop (powerUpBody h) (powerUps s) s2) /\
    level s1 = level s /\ geom (rocket s1) = geom (rocket s) /\
    level s2 = level s /\ geom (rocket s2) = geom (rocket s).
Proof.
  unfold updateObjects. cbv zeta.
  destruct (updateObstacles_fields h s)
    as (_ & Hl1 & _ & Hst1 & Hp1 & Hr1 & _).
  assert (Hgeom1 : geom (rocket (updateObstacles h s)) = geom (rocket s))
    by (rewrite Hr1; apply (afterObstacles_geom s)).
  clear Hr1.
  set (g1 := updateObstacles h s) in *.
  pose proof (updateStars_offscore h g1) as Ho. offscore_of Ho.
  pose proof (updateStars_list h g1) as Hl2.
  set (g2 := updateStars h g1) in *.
  destruct (updatePowerUps_fields h g2) as (Hk & _). offshield_of Hk.
  pose proof (updatePowerUps_list h g2) as Hl3.
  set (g3 := updatePowerUps h g2) in *.
  pose proof (updateParticles_core g3) as Hc4. core_of Hc4.
  set (g4 := updateParticles g3) in *.
  pose proof (updateConfetti_core h g4) as Hc5. core_of Hc5.
  exists g1, g2. split; [|split; [|repeat split; congruence]].
  - rewrite <- Hst1, <- Hl2. congruence.
  - replace (powerUps s) with (powerUps g2) by congruence.
    rewrite <- Hl3. congruence.
Qed.

Lemma gameLoop_collectibles h g :
  gameRunning g = true ->
  exists s1 s2,
    stars (gameLoop h false g) =
      fst (reverseLoop (starBody h) (stars (beginFrame h g)) s1) /\
    powerUps (gameLoop h false g) =
      fst (reverseLoop (powerUpBody h) (powerUps (beginFrame h g)) s2) /\
    level s1 = level (beginFrame h g) /\
    geom (rocket s1) = geom (rocket (beginFrame h g)) /\
    level s2 = level (beginFrame h g) /\
    geom (rocket s2) = geom (rocket (beginFrame h g)).
Proof.
  intros Hrun. rewrite (gameLoop_run h g Hrun).
  destruct (closing_lists (updateObjects h (beginFrame h g))
              (score (updateObjects h (beginFrame h g)) + 1))
    as (Hs & Hp & _).
  rewrite Hs, Hp. apply updateObjects_collectibles.
Qed.

Lemma Num_neg_eq a : (Num.neg a == - a)%Q.
Proof. apply Qred_correct. Qed.

Lemma starBody_kept h st s b :
  fst (starBody h st s) = Some b ->
  Num.lt (star_x (moveStar s st)) (Num.neg (star_size st)) = false /\
  star_x b = star_x (moveStar s st) /\ star_y b = star_y st /\
  star_size b = star_size st.
Proof.
  rewrite starBody_blocks. cbn [fst].
  destruct (Num.lt (star_x (moveStar s st)) (Num.neg (star_size st)));
    [discriminate|].
  intros H. injection H as <-. destruct (starTaken s st); repeat split.
Qed.

Lemma powerUpBody_kept h p s b :
  fst (powerUpBody h p s) = Some b ->
  Num.lt (pu_x (movePowerUp s p)) (Num.neg (pu_size p)) = false /\
  pu_x b = pu_x (movePowerUp s p) /\ pu_y b = pu_y p /\
  pu_size b = pu_size p /\ pu_type b = pu_type p.
Proof.
  rewrite powerUpBody_blocks. cbn [fst].
  destruct (Num.lt (pu_x (movePowerUp s p)) (Num.neg (pu_size p)));
    [discriminate|].
  intros H. injection H as <-. destruct (puTaken s p); repeat split.
Qed.

Lemma gameLoop_starKept h g :
  unitTape h -> gameRunning g = true ->
  Forall (starKept h) (stars g) ->
  Forall (starKept h) (stars (gameLoop h false g)).
Proof.
  intros Ht Hrun H. destruct (gameLoop_collectibles h g Hrun)
    as (s1 & _ & -> & _).
  apply (reverseLoop_Forall_in (starBody h) (fun _ => True)
           (fun s => star_size s = 15%Q /\ heightPlaced h (star_y s))
           (starKept h)); auto.
  - intros st s b (Hsz & Hy) _ Hkept. apply starBody_kept in Hkept.
    destruct Hkept as (Hgone & Hx & Hy' & Hsz').
    unfold starKept. rewrite Hx, Hy', Hsz', Hsz. repeat split; auto.
    intros Hlt. rewrite Hsz in Hgone.
    assert (Hlt' : (star_x (moveStar s st) < Num.neg 15)%Q)
      by (rewrite Num_neg_eq; exact Hlt).
    apply Num_lt_iff in Hlt'. congruence.
  - destruct (beginFrame_stars h g) as [E | (k & E)]; rewrite E.
    + revert H. apply Forall_impl. intros st (? & _ & ?). auto.
    + apply Forall_app. split.
      * revert H. apply Forall_impl. intros st (? & _ & ?). auto.
      * constructor; [|constructor]. split; [reflexivity|].
        destruct (Ht k). apply spawned_height; assumption.
Qed.

Lemma gameLoop_powerUpKept h g :
  unitTape h -> gameRunning g = true ->
  Forall (powerUpKept h) (powerUps g) ->
  Forall (powerUpKept h) (powerUps (gameLoop h false g)).
Proof.
  intros Ht Hrun H. destruct (gameLoop_collectibles h g Hrun)
    as (_ & s2 & _ & -> & _).
  apply (reverseLoop_Forall_in (powerUpBody h) (fun _ => True)
           (fun p => pu_size p = 20%Q /\ pu_type p = "shield"%string /\
                     heightPlaced h (pu_y p))
           (powerUpKept h)); auto.
  - intros p s b (Hsz & Hty & Hy) _ Hkept. apply powerUpBody_kept in Hkept.
    destruct Hkept as (Hgone & Hx & Hy' & Hsz' & Hty').
    unfold powerUpKept. rewrite Hx, Hy', Hsz', Hty', Hsz.
    repeat split; auto.
    intros Hlt. rewrite Hsz in Hgone.
    assert (Hlt' : (pu_x (movePowerUp s p) < Num.neg 20)%Q)
      by (rewrite Num_neg_eq; exact Hlt).
    apply Num_lt_iff in Hlt'. congruence.
  - destruct (beginFrame_powerUps h g) as [E | (k & E)]; rewrite E.
    + revert H. apply Forall_impl. intros p (? & ? & _ & ?). auto.
    + apply Forall_app. split.
      * revert H. apply Forall_impl. intros p (? & ? & _ & ?). auto.
      * constructor; [|constructor]. split; [reflexivity|].
        split; [reflexivity|].
        destruct (Ht k). apply spawned_height; assumption.
Qed.

Lemma boosted_collectibles h g :
  stars (boosted h g) = stars g /\ powerUps (boosted h g) = powerUps g.
Proof. pose proof (boosted_core h g) as H. core_of H. split; assumption. Qed.

Lemma updateConfetti_collectibles h g :
  stars (updateConfetti h g) = stars g /\
  powerUps (updateConfetti h g) = powerUps g.
Proof.
  pose proof (updateConfetti_core h g) as H. core_of H. split; assumption.
Qed.

(** X6. With random values from 0 up to 1, every star on the list of a
    reachable state has size 15 and every power-up size 20 and type
    [shield]; none is further left than its size beyond the left edge; and
    on a canvas 60 high or more each lies between 30 and the height less
    30 (on a lower canvas, between the height less 30 and 30). *)
Theorem collectibles_well_kept (h : Host) (g : Game) :
  unitTape h -> Reachable h g ->
  Forall (starKept h) (stars g) /\ Forall (powerUpKept h) (powerUps g).
Proof.
  intros Ht. revert g.
  apply (Reachable_inv h (fun g => Forall (starKept h) (stars g) /\
                                   Forall (powerUpKept h) (powerUps g))).
  - intros cell. split; constructor.
  - intros s _. split; constructor.
  - intros s H. exact H.
  - intros s _ _. split;
      [apply gameLoop_starKept | apply gameLoop_powerUpKept];
      auto; constructor.
  - intros s _. split; constructor.
  - intros s _ (H1 & H2) Hrun. split;
      [apply gameLoop_starKept | apply gameLoop_powerUpKept]; assumption.
  - intros s H _. destruct (boosted_collectibles h s) as (-> & ->). exact H.
  - intros s H. exact H.
  - intros s H. destruct (updateConfetti_collectibles h s) as (-> & ->).
    exact H.
Qed.

Lemma collectibles_well_kept_witness :
  unitTape browser /\ Reachable browser atFiveHundred /\
  Forall (starKept browser) (stars atFiveHundred) /\
  Forall (powerUpKept browser) (powerUps atFiveHundred).
Proof.
  assert (H : Reachable browser atFiveHundred)
    by apply Reachable_run, fresh_Reachable.
  split; [exact browser_unitTape|]. split; [exact H|].
  apply (collectibles_well_kept browser atFiveHundred browser_unitTape H).
Defined.

(** ** A frame, step by step *)

Section FrameInvariant.

Variables (h : Host) (J : Game -> Prop).

Hypothesis J_frameCount : forall g v, J g -> J (set_frameCount g v).
Hypothesis J_level : forall g v, J g -> J (set_level g v).
Hypothesis J_rocket : forall g r, J g -> J (set_rocket g r).
Hypothesis J_score : forall g v, J g -> J (set_score g v).
Hypothesis J_endGame : forall g, J g -> J (endGame h g).
Hypothesis J_createObstacle : forall g, J g -> J (createObstacle h g).
Hypothesis J_createStar : forall g, J g -> J (createStar h g).
Hypothesis J_createPowerUp : forall g, J g -> J (createPowerUp h g).
Hypothesis J_createExplosion :
  forall x y c g, J g -> J (createExplosion h x y c g).
Hypothesis J_obstacles : forall g l, J g -> J (set_obstacles g l).
Hypothesis J_stars : forall g l, J g -> J (set_stars g l).
Hypothesis J_powerUps : forall g l, J g -> J (set_powerUps g l).
Hypothesis J_updateParticles : forall g, J g -> J (updateParticles g).
Hypothesis J_updateConfetti : forall g, J g -> J (updateConfetti h g).
Hypothesis J_updateScoreDisplay : forall g, J g -> J (updateScoreDisplay g).

Lemma updateRocket_inv g : J g -> J (updateRocket h g).
Proof.
  intros H. rewrite updateRocket_blocks. cbv zeta.
  destruct (outOfBounds h (flyRocket (rocket g))); [|auto].
  destruct (negb (hasShield (flyRocket (rocket g)))); auto.
Qed.

Lemma beginFrame_inv g : J g -> J (beginFrame h g).
Proof.
  intros H. rewrite beginFrame_blocks. unfold flown.
  assert (H1 : J (updateRocket h
                    (set_level (set_frameCount g (frameCount g + 1))
                       (levelOf (score g)))))
    by (apply updateRocket_inv; auto).
  revert H1. generalize (updateRocket h
    (set_level (set_frameCount g (frameCount g + 1)) (levelOf (score g)))).
  intros s1 H1.
  assert (H2 : J (generateObstacles h s1))
    by (unfold generateObstacles; destruct (Num.is_zero _); auto).
  revert H2. generalize (generateObstacles h s1). intros s2 H2.
  assert (H3 : J (generateStars h s2))
    by (unfold generateStars; destruct (Num.is_zero _); auto).
  revert H3. generalize (generateStars h s2). intros s3 H3.
  unfold generatePowerUps; destruct (Num.is_zero _); auto.
Qed.

Lemma hitObstacle_inv g : J g -> J (hitObstacle h g).
Proof.
  intros H. destruct (hasShield (rocket g)) eqn:E.
  - rewrite hitObstacle_shielded by exact E. auto.
  - rewrite hitObstacle_unshielded by exact E. auto.
Qed.

Lemma obstacleBody_inv o g : J g -> J (snd (obstacleBody h o g)).
Proof.
  intros H. rewrite obstacleBody_blocks. cbv zeta. cbn [snd].
  assert (H1 : J (if hit g o then hitObstacle h g else g))
    by (destruct (hit g o); [apply hitObstacle_inv|]; exact H).
  destruct (awarded g o); auto.
Qed.

Lemma starBody_inv s g : J g -> J (snd (starBody h s g)).
Proof.
  intros H. rewrite starBody_blocks. cbn [snd].
  destruct (starTaken g s); auto.
Qed.

Lemma powerUpBody_inv p g : J g -> J (snd (powerUpBody h p g)).
Proof.
  intros H. rewrite powerUpBody_blocks. cbn [snd].
  destruct (puTaken g p); auto.
Qed.

Lemma updateObjects_inv g : J g -> J (updateObjects h g).
Proof.
  intros H. unfold updateObjects. cbv zeta.
  assert (H1 : J (updateObstacles h g)).
  { pose proof (reverseLoop_inv (obstacleBody h) J obstacleBody_inv
                  (obstacles g) g H) as Hl.
    unfold updateObstacles.
    destruct (reverseLoop (obstacleBody h) (obstacles g) g). auto. }
  revert H1. generalize (updateObstacles h g). intros s1 H1.
  assert (H2 : J (updateStars h s1)).
  { pose proof (reverseLoop_inv (starBody h) J starBody_inv
                  (stars s1) s1 H1) as Hl.
    unfold updateStars.
    destruct (reverseLoop (starBody h) (stars s1) s1). auto. }
  revert H2. generalize (updateStars h s1). intros s2 H2.
  assert (H3 : J (updatePowerUps h s2)).
  { pose proof (reverseLoop_inv (powerUpBody h) J powerUpBody_inv
                  (powerUps s2) s2 H2) as Hl.
    unfold updatePowerUps.
    destruct (reverseLoop (powerUpBody h) (powerUps s2) s2). auto. }
  auto.
Qed.

(** What every step of a frame keeps, the frame keeps. *)
Lemma gameLoop_inv hidden g : J g -> J (gameLoop h hidden g).
Proof.
  intros H. destruct (gameRunning g) eqn:Hrun; [destruct hidden|].
  - rewrite gameLoop_idle by auto. exact H.
  - rewrite (gameLoop_run h g Hrun).
    apply J_updateScoreDisplay, J_score, updateObjects_inv, beginFrame_inv, H.
  - rewrite gameLoop_idle by auto. exact H.
Qed.

End FrameInvariant.

(** ** Confetti and the game-over screen *)

Lemma createExplosion_confetti h x y c g :
  confettiParticles (createExplosion h x y c g) = confettiParticles g.
Proof.
  unfold createExplosion. apply (forLoop_keeps confettiParticles). reflexivity.
Qed.

Lemma createBoostParticles_confetti h g :
  confettiParticles (createBoostParticles h g) = confettiParticles g.
Proof.
  unfold createBoostParticles. apply (forLoop_keeps confettiParticles).
  reflexivity.
Qed.

Lemma updateParticles_confetti g :
  confettiParticles (updateParticles g) = confettiParticles g.
Proof.
  unfold updateParticles.
  match goal with |- context [reverseLoop ?b ?l ?s] =>
    pose proof (reverseLoop_keeps confettiParticles b (fun _ _ => eq_refl) l s)
      as H;
    destruct (reverseLoop b l s) end.
  exact H.
Qed.

Lemma updateConfetti_none h g :
  confettiParticles g = [] -> confettiParticles (updateConfetti h g) = [].
Proof. intros H. unfold updateConfetti. rewrite H. reflexivity. Qed.

Lemma sober_same g g' :
  core g' = core g -> confettiParticles g' = confettiParticles g ->
  sober g -> sober g'.
Proof.
  intros Hc Hk H Hrun. core_of Hc.
  destruct H as (Hnone & Hhid); [congruence|]. split; congruence.
Qed.

Lemma gameLoop_sober h hidden g : sober g -> sober (gameLoop h hidden g).
Proof.
  apply gameLoop_inv; clear g;
    try (intros g v H; exact H); try (intros g H; exact H).
  - intros g _. unfold sober. rewrite endGame_stops. discriminate.
  - intros x y c g. apply sober_same;
      [apply createExplosion_core | apply createExplosion_confetti].
  - intros g. apply sober_same;
      [apply updateParticles_core | apply updateParticles_confetti].
  - intros g H Hrun. pose proof (updateConfetti_core h g) as Hc. core_of Hc.
    destruct H as (Hk & Hs); [congruence|].
    split; [apply updateConfetti_none, Hk | congruence].
Qed.

(** X7. In a reachable state in which the session runs there is no
    confetti on the list and the game-over screen is hidden. *)
Theorem running_is_sober (h : Host) (g : Game) :
  Reachable h g -> gameRunning g = true ->
  confettiParticles g = [] /\ gameOverScreen_shown (dom g) = false.
Proof.
  intros HR. change (sober g). revert g HR.
  apply (Reachable_inv h sober).
  - intros cell Hrun. discriminate.
  - intros s _ Hrun. discriminate.
  - intros s H. exact H.
  - intros s _ _. apply gameLoop_sober. intros _. split; reflexivity.
  - intros s _ _. split; reflexivity.
  - intros s _ H _. apply gameLoop_sober, H.
  - intros s H _.
    apply (sober_same (set_rocket s (set_rocket_velocity (rocket s)
                                       (rocket_boost (rocket s)))));
      [apply boosted_core | apply createBoostParticles_confetti | exact H].
  - intros s _ Hrun. discriminate.
  - intros s H Hrun. pose proof (updateConfetti_core h s) as Hc. core_of Hc.
    destruct H as (Hk & Hs); [congruence|].
    split; [apply updateConfetti_none, Hk | congruence].
Qed.

Lemma running_is_sober_witness :
  Reachable browser fresh /\ gameRunning fresh = true /\
  confettiParticles fresh = [] /\ gameOverScreen_shown (dom fresh) = false.
Proof.
  split; [exact fresh_Reachable|]. split; [vm_compute; reflexivity|].
  apply (running_is_sober browser fresh fresh_Reachable).
  vm_compute. reflexivity.
Defined.

(** ** Particles *)

Lemma Num_le_iff a b : Num.le a b = true <-> (a <= b)%Q.
Proof. unfold Num.le. apply Qle_bool_iff. Qed.

(** [updateParticles] ages every particle and drops those whose life is
    over, in the order of the list. *)
Lemma updateParticles_list g :
  particles (updateParticles g) =
  filter (fun p => negb (Num.le (p_life p) 0%Q)) (map aged (particles g)).
Proof.
  unfold updateParticles.
  match goal with |- context [reverseLoop ?b _ _] =>
    assert (H : forall l s, reverseLoop b l s =
              (filter (fun p => negb (Num.le (p_life p) 0%Q)) (map aged l), s))
  end.
  { intros l. induction l as [|p l IH]; intros s; [reflexivity|].
    cbn [reverseLoop map filter]. rewrite IH.
    change (Num.le (p_life (aged p)) 0%Q)
      with (Num.le (Num.sub (p_life p) 1%Q) 0%Q).
    cbn [p_life]. destruct (Num.le (Num.sub (p_life p) 1%Q) 0%Q); reflexivity. }
  rewrite H. reflexivity.
Qed.

Lemma updateParticles_lively g :
  Forall lively (particles g) -> Forall lively (particles (updateParticles g)).
Proof.
  intros H. rewrite updateParticles_list. rewrite Forall_forall in *.
  intros p Hp. apply filter_In in Hp. destruct Hp as (Hin & Halive).
  apply in_map_iff in Hin. destruct Hin as (p0 & <- & Hin0).
  destruct (H p0 Hin0) as (_ & Hle). unfold lively.
  apply negb_true_iff in Halive.
  assert (Hn : ~ (p_life (aged p0) <= 0)%Q)
    by (rewrite <- Num_le_iff; congruence).
  split; [lra|]. cbn [aged p_life]. rewrite Num_sub_eq. lra.
Qed.

Lemma createBoostParticles_particles h g :
  exists burst,
    particles (createBoostParticles h g) = particles g ++ burst /\
    List.length burst = 5%nat /\ Forall (boostParticle (rocket g)) burst.
Proof.
  unfold createBoostParticles.
  assert (H : forall n i s, rocket s = rocket g -> exists l,
            particles (forLoop n i (fun _ g0 =>
              let (r1, g1) := Math_random h g0 in
              let (r2, g2) := Math_random h g1 in
              let (r3, g3) := Math_random h g2 in
              set_particles g3 (particles g3 ++
                [{| p_x := rocket_x (rocket g3);
                    p_y := Num.add (rocket_y (rocket g3))
                             (Num.div (rocket_height (rocket g3)) 2%Q);
                    p_vx := Num.sub (Num.mul (Num.neg r1) 3%Q) 1%Q;
                    p_vy := Num.sub (Num.mul r2 4%Q) 2%Q;
                    p_size := Num.add (Num.mul r3 4%Q) 2%Q;
                    p_color := Hex "#ffd93d";
                    p_life := 30%Q |}])) s) = particles s ++ l /\
            List.length l = n /\ Forall (boostParticle (rocket g)) l).
  { intros n. induction n as [|n IH]; intros i s Hr.
    - exists []. cbn [forLoop]. rewrite app_nil_r. repeat split. constructor.
    - cbn [forLoop].
      match goal with |- context [forLoop n (S i) ?b ?s'] =>
        destruct (IH (S i) s') as (l & Hl & Hn & HF) end.
      { cbn. exact Hr. }
      eexists (_ :: l). rewrite Hl. cbn [Math_random]. fields.
      rewrite <- app_assoc. cbn [app]. split; [reflexivity|].
      split; [cbn [List.length]; congruence|].
      constructor; [|exact HF]. unfold boostParticle.
      cbn [p_x p_y p_color p_life].
      rewrite Hr. repeat split. }
  apply (H 5%nat O g eq_refl).
Qed.

Lemma lively_app l l' :
  Forall lively l -> Forall lively l' -> Forall lively (l ++ l').
Proof. intros. apply Forall_app. auto. Qed.

Lemma createExplosion_lively h x y c g :
  Forall lively (particles g) ->
  Forall lively (particles (createExplosion h x y c g)).
Proof.
  intros H. destruct (createExplosion_particles h x y c g)
    as (burst & -> & _ & HF).
  apply lively_app; [exact H|]. revert HF. apply Forall_impl.
  intros p (_ & _ & _ & Hl). unfold lively. rewrite Hl. split; lra.
Qed.

Lemma gameLoop_lively h hidden g :
  Forall lively (particles g) ->
  Forall lively (particles (gameLoop h hidden g)).
Proof.
  apply (gameLoop_inv h (fun g => Forall lively (particles g)));
    clear g; try (intros; assumption).
  - intros g H. pose proof (endGame_play h g) as Hp. play_of Hp. congruence.
  - intros x y c g. apply createExplosion_lively.
  - intros g. apply updateParticles_lively.
  - intros g H. rewrite updateConfetti_particles. exact H.
Qed.

(** X8. Every particle on the list of a reachable state has a life above
    0 and of 40 at most: [updateParticles] drops a particle in the frame in
    which its life reaches 0. *)
Theorem particles_lively (h : Host) (g : Game) :
  Reachable h g -> Forall lively (particles g).
Proof.
  revert g. apply (Reachable_inv h (fun g => Forall lively (particles g))).
  - intros cell. constructor.
  - intros s _. constructor.
  - intros s H. exact H.
  - intros s _ _. apply gameLoop_lively. constructor.
  - intros s _. constructor.
  - intros s _ H _. apply gameLoop_lively, H.
  - intros s H _. unfold boosted.
    destruct (createBoostParticles_particles h
      (set_rocket s (set_rocket_velocity (rocket s) (rocket_boost (rocket s)))))
      as (burst & -> & _ & HF).
    apply lively_app; [exact H|]. revert HF. apply Forall_impl.
    intros p (_ & _ & _ & Hl). unfold lively. rewrite Hl. split; lra.
  - intros s H. exact H.
  - intros s H. rewrite updateConfetti_particles. exact H.
Qed.

Lemma particles_lively_witness :
  Reachable browser (handleInput browser false fresh) /\
  Forall lively (particles (handleInput browser false fresh)).
Proof.
  assert (H : Reachable browser (handleInput browser false fresh))
    by apply reach_handleInput, fresh_Reachable.
  split; [exact H | apply (particles_lively browser _ H)].
Defined.

(** ** A boost *)

Lemma createBoostParticles_rng h g :
  rng (createBoostParticles h g) = (15 + rng g)%nat.
Proof. reflexivity. Qed.

(** X9. An input (click, touch or space bar) while the session runs sets
    the velocity of the rocket to its boost, appends five boost particles
    at the rocket (its x, the middle of its height, life 30) and takes
    fifteen random values.  Nothing else changes: flag, score, level, frame
    counter, high score, storage, display, obstacles, stars, power-ups and
    confetti are as before. *)
Theorem boost_input (h : Host) (hidden : bool) (g : Game) :
  gameRunning g = true ->
  let g' := handleInput h hidden g in
  rocket g' = set_rocket_velocity (rocket g) (rocket_boost (rocket g)) /\
  gameRunning g' = true /\ score g' = score g /\ level g' = level g /\
  frameCount g' = frameCount g /\ highScore g' = highScore g /\
  localStorage g' = localStorage g /\ dom g' = dom g /\
  obstacles g' = obstacles g /\ stars g' = stars g /\
  powerUps g' = powerUps g /\
  confettiParticles g' = confettiParticles g /\
  rng g' = (15 + rng g)%nat /\
  exists burst,
    particles g' = particles g ++ burst /\ List.length burst = 5%nat /\
    Forall (boostParticle (rocket g)) burst.
Proof.
  intros Hrun. cbv zeta. rewrite handleInput_blocks, Hrun.
  pose proof (boosted_core h g) as Hc. core_of Hc.
  unfold boosted in *. fields.
  repeat split; try congruence.
  exact (createBoostParticles_particles h
    (set_rocket g (set_rocket_velocity (rocket g) (rocket_boost (rocket g))))).
Qed.

Lemma boost_input_witness :
  gameRunning fresh = true /\
  rocket (handleInput browser false fresh) =
    set_rocket_velocity (rocket fresh) (rocket_boost (rocket fresh)) /\
  rng (handleInput browser false fresh) = (15 + rng fresh)%nat.
Proof.
  assert (H : gameRunning fresh = true) by (vm_compute; reflexivity).
  pose proof (boost_input browser false fresh H) as B. cbv zeta in B.
  split; [exact H|]. split; [apply B|].
  destruct B as (_ & _ & _ & _ & _ & _ & _ & _ & _ & _ & _ & _ & B & _).
  exact B.
Defined.

Lemma flown_inside h s :
  outOfBounds h (flyRocket (rocket s)) = false ->
  flown h s =
  set_rocket (set_level (set_frameCount s (frameCount s + 1))
                (levelOf (score s)))
    (flyRocket (rocket s)).
Proof.
  intros Hin. unfold flown. rewrite updateRocket_blocks. cbv zeta.
  fields. rewrite Hin. reflexivity.
Qed.

Lemma startGame_firstFrame h g :
  outOfBounds h (launched h g) = false ->
  startGame h false g = firstFrame h g.
Proof.
  unfold firstFrame, launched. intros Hin.
  rewrite startGame_blocks, (gameLoop_run h (started h g) eq_refl),
    beginFrame_blocks, (flown_inside h _ Hin).
  clear Hin. generalize (flyRocket (rocket (started h g))). intros R.
  reflexivity.
Qed.

Lemma launched_shield h g :
  hasShield (launched h g) = false /\ shieldTime (launched h g) = 0.
Proof. split; reflexivity. Qed.

Lemma startGame_crash h g :
  outOfBounds h (launched h g) = true ->
  gameRunning (startGame h false g) = false.
Proof.
  intros Hout. rewrite startGame_blocks.
  destruct (gameLoop_fields h (started h g) eq_refl) as (_ & _ & _ & _ & Hg).
  rewrite Hg. unfold boundaryCrash, launched in *. cbv zeta.
  rewrite Hout. reflexivity.
Qed.

Lemma launched_again h g : launched h (firstFrame h g) = launched h g.
Proof. reflexivity. Qed.

Lemma firstFrame_again h g : firstFrame h (firstFrame h g) = firstFrame h g.
Proof. reflexivity. Qed.

Lemma started_again h g : started h (started h g) = started h g.
Proof.
  vm_compute. reflexivity.
Qed.

Lemma Num_div_eq a b : (Num.div a b == a / b)%Q.
Proof. apply Qred_correct. Qed.

Lemma launched_fields h g :
  asBuilt (rocket g) ->
  rocket_velocity (launched h g) = (1 # 2)%Q /\
  (rocket_y (launched h g) == inject_Z (canvas_height h) / 2 + (1 # 2))%Q /\
  rocket_height (launched h g) = 40%Q.
Proof.
  intros (_ & _ & Hh & Hg & _). unfold launched.
  destruct (flyRocket_fields (rocket (started h g))) as (Hv & Hy & Hh' & _).
  rewrite Hv, Hy, Hh'. rewrite started_rocket. fields. rewrite Hg, Hh.
  repeat split. rewrite Num_add_eq, Num_div_eq. reflexivity.
Qed.

Lemma launched_outOfBounds h g :
  asBuilt (rocket g) ->
  outOfBounds h (launched h g) = negb (81 <=? canvas_height h).
Proof.
  intros Hb. destruct (launched_fields h g Hb) as (_ & Hy & Hh).
  assert (Hd : (inject_Z (canvas_height h) / 2 ==
                inject_Z (canvas_height h) * (1 # 2))%Q) by field.
  rewrite Hd in Hy. clear Hd.
  destruct (Z.leb_spec 81 (canvas_height h)) as [HH | HH]; cbn [negb].
  - assert (Hc : (81 <= inject_Z (canvas_height h))%Q).
    { change 81%Q with (inject_Z 81). rewrite <- Zle_Qle. exact HH. }
    destruct (outOfBounds h (launched h g)) eqn:E; [|reflexivity].
    apply outOfBounds_iff in E. rewrite Hy, Hh in E. lra.
  - assert (Hc : (inject_Z (canvas_height h) < 81)%Q).
    { change 81%Q with (inject_Z 81). rewrite <- Zlt_Qlt. exact HH. }
    apply outOfBounds_iff. rewrite Hy, Hh. lra.
Qed.

(** X10. [startGame] on a visible page runs the first frame before it
    returns.  From a reachable state on a canvas 81 high or more it leaves
    a running session with score 1, level 1, frame counter 1, empty lists,
    the high score and the storage as they were and the game-over screen
    hidden; on a lower canvas that first frame finds the rocket out of
    bounds and the session is over when [startGame] returns.  The rocket of
    the first frame is at half the height plus 0.5, with velocity 0.5 and
    without shield. *)
Theorem start_of_session (h : Host) (g : Game) :
  Reachable h g ->
  (81 <= canvas_height h -> startGame h false g = firstFrame h g) /\
  (canvas_height h < 81 -> gameRunning (startGame h false g) = false) /\
  rocket_velocity (launched h g) = (1 # 2)%Q /\
  (rocket_y (launched h g) == inject_Z (canvas_height h) / 2 + (1 # 2))%Q /\
  hasShield (launched h g) = false.
Proof.
  intros HR. pose proof (Reachable_asBuilt h g HR) as Hb.
  pose proof (launched_outOfBounds h g Hb) as Ho.
  destruct (launched_fields h g Hb) as (Hv & Hy & _).
  repeat split; try assumption.
  - intros HH. apply startGame_firstFrame. rewrite Ho.
    destruct (Z.leb_spec 81 (canvas_height h)); [reflexivity | lia].
  - intros HH. apply startGame_crash. rewrite Ho.
    destruct (Z.leb_spec 81 (canvas_height h)); [lia | reflexivity].
Qed.

Lemma start_of_session_witness :
  Reachable browser (loaded None) /\
  (81 <= canvas_height browser ->
   startGame browser false (loaded None) = firstFrame browser (loaded None)) /\
  (canvas_height browser < 81 ->
   gameRunning (startGame browser false (loaded None)) = false) /\
  rocket_velocity (launched browser (loaded None)) = (1 # 2)%Q /\
  (rocket_y (launched browser (loaded None)) ==
   inject_Z (canvas_height browser) / 2 + (1 # 2))%Q /\
  hasShield (launched browser (loaded None)) = false.
Proof.
  split; [apply reach_loaded|].
  apply (start_of_session browser (loaded None) (reach_loaded browser None)).
Defined.

(** X11. Starting twice is starting once: when [startGame] leaves a
    running session, [startGame] called again at once leaves the same
    state. *)
Theorem startGame_idempotent (h : Host) (hidden : bool) (g : Game) :
  gameRunning (startGame h hidden g) = true ->
  startGame h hidden (startGame h hidden g) = startGame h hidden g.
Proof.
  destruct hidden.
  - intros _. rewrite !startGame_blocks, !gameLoop_idle by auto.
    apply started_again.
  - intros Hrun.
    destruct (outOfBounds h (launched h g)) eqn:E.
    + rewrite (startGame_crash h g E) in Hrun. discriminate.
    + rewrite (startGame_firstFrame h g E).
      rewrite startGame_firstFrame by (rewrite launched_again; exact E).
      apply firstFrame_again.
Qed.

Lemma startGame_idempotent_witness :
  gameRunning (startGame browser false (loaded None)) = true /\
  startGame browser false (startGame browser false (loaded None)) =
  startGame browser false (loaded None).
Proof.
  assert (H : gameRunning (startGame browser false (loaded None)) = true)
    by (vm_compute; reflexivity).
  split; [exact H|].
  apply (startGame_idempotent browser false (loaded None) H).
Defined.

Lemma count_S n : (count (S n) == count n + 1)%Q.
Proof.
  unfold count. rewrite Nat2Z.inj_succ. unfold Z.succ.
  rewrite inject_Z_plus. reflexivity.
Qed.

Lemma heightAfter_0 (y v a : Q) :
  (v == v + count 0 * a)%Q /\ (y == heightAfter 0 y v a)%Q.
Proof. unfold heightAfter, count. cbn [Z.of_nat]. split; ring. Qed.

Lemma heightAfter_S n (y v a y' v' : Q) :
  (v' == v + count n * a)%Q -> (y' == heightAfter n y v a)%Q ->
  (v' + a == v + count (S n) * a)%Q /\
  (y' + (v' + a) == heightAfter (S n) y v a)%Q.
Proof.
  unfold heightAfter. intros Hv Hy. rewrite Hy, Hv, count_S. split; ring.
Qed.

Lemma flyRocket_unshielded r :
  hasShield r = false ->
  hasShield (flyRocket r) = false /\
  rocket_velocity (flyRocket r) =
    Num.add (rocket_velocity r) (rocket_gravity r) /\
  rocket_y (flyRocket r) =
    Num.add (rocket_y r) (Num.add (rocket_velocity r) (rocket_gravity r)) /\
  rocket_gravity (flyRocket r) = rocket_gravity r /\
  rocket_height (flyRocket r) = rocket_height r.
Proof.
  intros H. unfold flyRocket. cbv zeta. fields. rewrite H. fields.
  rewrite H. repeat split.
Qed.

(** A frame that starts with the shield down moves the rocket by gravity
    alone. *)
Lemma gameLoop_unshielded h g :
  gameRunning g = true -> hasShield (rocket g) = false ->
  let r := rocket g in
  let r' := rocket (gameLoop h false g) in
  rocket_velocity r' = Num.add (rocket_velocity r) (rocket_gravity r) /\
  rocket_y r' =
    Num.add (rocket_y r) (Num.add (rocket_velocity r) (rocket_gravity r)) /\
  rocket_gravity r' = rocket_gravity r /\
  rocket_height r' = rocket_height r /\
  (gameRunning (gameLoop h false g) = true ->
   outOfBounds h r' = false).
Proof.
  intros Hrun Hs. cbv zeta.
  destruct (gameLoop_fields h g Hrun) as (_ & _ & _ & Hr & Hg).
  destruct (flyRocket_unshielded (rocket g) Hs) as (Hs' & Hv & Hy & Ha & Hh).
  assert (Hset : settledRocket h (rocket g) = flyRocket (rocket g)).
  { unfold settledRocket. cbv zeta. rewrite Hs', andb_false_r. reflexivity. }
  assert (Hgeom : geom (rocket (gameLoop h false g)) =
                  geom (flyRocket (rocket g))).
  { rewrite Hr, afterPowerUps_geom, beginFrame_rocket, Hset. reflexivity. }
  unfold geom in Hgeom.
  assert (Hx : rocket_y (rocket (gameLoop h false g)) =
               rocket_y (flyRocket (rocket g)) /\
               rocket_height (rocket (gameLoop h false g)) =
               rocket_height (flyRocket (rocket g)) /\
               rocket_velocity (rocket (gameLoop h false g)) =
               rocket_velocity (flyRocket (rocket g)) /\
               rocket_gravity (rocket (gameLoop h false g)) =
               rocket_gravity (flyRocket (rocket g))).
  { revert Hgeom.
    generalize (rocket (gameLoop h false g)) (flyRocket (rocket g)).
    intros r1 r2 E. inversion E. repeat split; assumption. }
  destruct Hx as (Ey & Eh & Ev & Ea).
  repeat split; try congruence.
  intros Hrun'. rewrite Hg in Hrun'.
  apply andb_true_iff in Hrun'. destruct Hrun' as (Hb & _).
  apply negb_true_iff in Hb. unfold boundaryCrash in Hb. cbv zeta in Hb.
  rewrite Hs', andb_true_r in Hb.
  unfold outOfBounds in *. rewrite Ey, Eh. exact Hb.
Qed.

Lemma frames_free_flight (h : Host) (n : nat) (g : Game) :
  gameRunning (frames h (visible n) g) = true ->
  (forall k, (k < n)%nat ->
             hasShield (rocket (frames h (visible k) g)) = false) ->
  let r := rocket g in
  let r' := rocket (frames h (visible n) g) in
  (rocket_velocity r' == rocket_velocity r + count n * rocket_gravity r)%Q /\
  (rocket_y r' ==
   heightAfter n (rocket_y r) (rocket_velocity r) (rocket_gravity r))%Q /\
  ((0 < n)%nat -> outOfBounds h r' = false).
Proof.
  cbv zeta. induction n as [|n IH]; intros Hrun Hs.
  - change (frames h (visible 0) g) with g.
    destruct (heightAfter_0 (rocket_y (rocket g)) (rocket_velocity (rocket g))
                (rocket_gravity (rocket g))) as (Hv & Hy).
    repeat split; [exact Hv | exact Hy | lia].
  - rewrite frames_last in *.
    assert (Hn : gameRunning (frames h (visible n) g) = true).
    { destruct (gameRunning (frames h (visible n) g)) eqn:E; [reflexivity|].
      rewrite gameLoop_idle in Hrun by auto. congruence. }
    destruct (IH Hn (fun k Hk => Hs k (Nat.lt_lt_succ_r _ _ Hk)))
      as (IHv & IHy & _).
    assert (Ha : rocket_gravity (rocket (frames h (visible n) g)) =
                 rocket_gravity (rocket g)).
    { clear IH IHv IHy Hrun. induction n as [|m IHm]; [reflexivity|].
      rewrite frames_last in *.
      assert (Hm : gameRunning (frames h (visible m) g) = true).
      { destruct (gameRunning (frames h (visible m) g)) eqn:E; [reflexivity|].
        rewrite gameLoop_idle in Hn by auto. congruence. }
      destruct (gameLoop_unshielded h _ Hm (Hs m ltac:(lia)))
        as (_ & _ & Hg & _).
      rewrite Hg. apply IHm; [|exact Hm]. intros k Hk. apply Hs. lia. }
    destruct (gameLoop_unshielded h _ Hn (Hs n (Nat.lt_succ_diag_r n)))
      as (Hv & Hy & _ & _ & Hin).
    destruct (heightAfter_S n _ _ _ _ _ IHv IHy) as (Sv & Sy).
    rewrite Hv, Hy, !Num_add_eq, Ha.
    repeat split; [exact Sv | exact Sy | intros _; apply Hin, Hrun].
Qed.

(** X12. Free flight: over [n] frames of a visible page through which the
    session keeps running, with the shield down at the start of each, the
    velocity grows by the gravity in every frame and the height of the
    rocket is [y + n v + gravity n (n + 1) / 2], from the height [y] and
    the velocity [v] it had; after the last of the frames the rocket is
    within the canvas. *)
Theorem free_flight (h : Host) (n : nat) (g : Game) :
  gameRunning (frames h (visible n) g) = true ->
  (forall k, (k < n)%nat ->
             hasShield (rocket (frames h (visible k) g)) = false) ->
  let r := rocket g in
  let r' := rocket (frames h (visible n) g) in
  (rocket_velocity r' == rocket_velocity r + count n * rocket_gravity r)%Q /\
  (rocket_y r' ==
   heightAfter n (rocket_y r) (rocket_velocity r) (rocket_gravity r))%Q /\
  ((0 < n)%nat -> outOfBounds h r' = false).
Proof. apply frames_free_flight. Qed.

Lemma free_flight_witness :
  gameRunning (frames browser (visible 3) fresh) = true /\
  (forall k, (k < 3)%nat ->
             hasShield (rocket (frames browser (visible k) fresh)) = false) /\
  (rocket_y (rocket (frames browser (visible 3) fresh)) ==
   heightAfter 3 (rocket_y (rocket fresh)) (rocket_velocity (rocket fresh))
     (rocket_gravity (rocket fresh)))%Q.
Proof.
  assert (H1 : gameRunning (frames browser (visible 3) fresh) = true)
    by (vm_compute; reflexivity).
  assert (H2 : forall k, (k < 3)%nat ->
             hasShield (rocket (frames browser (visible k) fresh)) = false).
  { intros k Hk. do 3 (destruct k as [|k]; [vm_compute; reflexivity|]). lia. }
  split; [exact H1|]. split; [exact H2|].
  apply (free_flight browser 3 fresh H1 H2).
Defined.

(** ** The arc of a boost *)

Lemma arc_closed n (y : Q) :
  (heightAfter n y (-10) (1 # 2) ==
   y + inject_Z (Z.of_nat n * Z.of_nat n + (-39) * Z.of_nat n) * (1 # 4))%Q.
Proof.
  unfold heightAfter, count. rewrite inject_Z_plus, !inject_Z_mult.
  change (inject_Z (-39)) with (-39)%Q. ring.
Qed.

Lemma arc_apex n (y : Q) : (y - 95 <= heightAfter n y (-10) (1 # 2))%Q.
Proof.
  rewrite arc_closed. set (z := Z.of_nat n).
  assert (Hz : -380 <= z * z + (-39) * z).
  { assert (0 <= (z - 19) * (z - 20))
      by (destruct (Z_le_gt_dec z 19); nia).
    lia. }
  rewrite Zle_Qle in Hz. change (inject_Z (-380)) with (-380)%Q in Hz.
  set (q := inject_Z (z * z + -39 * z)) in *. lra.
Qed.

Lemma arc_back (y : Q) : (heightAfter 39 y (-10) (1 # 2) == y)%Q.
Proof. rewrite arc_closed. cbn. ring. Qed.

(** X13. The arc of a boost: after an input in a reachable state in which
    the session runs, [n] frames of free flight take the rocket from the
    height [y] to [y - 10 n + n (n + 1) / 4].  That is never more than 95
    above [y], and after 39 frames the rocket is back at [y]. *)
Theorem boost_arc (h : Host) (n : nat) (g : Game) :
  Reachable h g -> gameRunning g = true ->
  let b := handleInput h false g in
  gameRunning (frames h (visible n) b) = true ->
  (forall k, (k < n)%nat ->
             hasShield (rocket (frames h (visible k) b)) = false) ->
  let y := rocket_y (rocket g) in
  let y' := rocket_y (rocket (frames h (visible n) b)) in
  (y' == heightAfter n y (-10) (1 # 2))%Q /\
  (y - 95 <= y')%Q /\
  (n = 39%nat -> y' == y)%Q.
Proof.
  intros HR Hrun. cbv zeta. intros Hn Hs.
  destruct (frames_free_flight h n _ Hn Hs) as (_ & Hy & _). cbv zeta in Hy.
  rewrite handleInput_blocks, Hrun in *.
  pose proof (boosted_rocket h g) as Hr.
  destruct (Reachable_asBuilt h g HR) as (_ & _ & _ & Hg & Hb).
  rewrite Hr in Hy. fields. rewrite Hg, Hb in Hy.
  split; [exact Hy|]. split.
  - rewrite Hy. apply arc_apex.
  - intros ->. rewrite Hy. apply arc_back.
Qed.

Lemma boost_arc_witness :
  Reachable browser fresh /\ gameRunning fresh = true /\
  gameRunning
    (frames browser (visible 39) (handleInput browser false fresh)) = true /\
  (forall k, (k < 39)%nat ->
     hasShield (rocket (frames browser (visible k)
                          (handleInput browser false fresh))) = false) /\
  (rocket_y (rocket (frames browser (visible 39)
                       (handleInput browser false fresh))) ==
   rocket_y (rocket fresh))%Q.
Proof.
  assert (H1 : gameRunning fresh = true) by (vm_compute; reflexivity).
  assert (H2 : gameRunning (frames browser (visible 39)
                              (handleInput browser false fresh)) = true)
    by (vm_compute; reflexivity).
  assert (H3 : forall k, (k < 39)%nat ->
     hasShield (rocket (frames browser (visible k)
                          (handleInput browser false fresh))) = false).
  { intros k Hk.
    do 39 (destruct k as [|k]; [vm_compute; reflexivity|]). lia. }
  split; [exact fresh_Reachable|]. split; [exact H1|].
  split; [exact H2|]. split; [exact H3|].
  apply (boost_arc browser 39 fresh fresh_Reachable H1 H2 H3). reflexivity.
Defined.

(** ** How long a shield lasts *)

Lemma settledRocket_timer h r :
  shieldTime (settledRocket h r) = shieldTime (flyRocket r).
Proof.
  unfold settledRocket. cbv zeta.
  destruct (outOfBounds h (flyRocket r) && hasShield (flyRocket r));
    reflexivity.
Qed.

Lemma flyRocket_shielded r :
  hasShield r = true ->
  hasShield (flyRocket r) = negb (shieldTime r - 1 <=? 0) /\
  shieldTime (flyRocket r) = shieldTime r - 1.
Proof.
  intros H. unfold flyRocket. cbv zeta. fields. rewrite H. fields.
  destruct (shieldTime r - 1 <=? 0); fields; rewrite ?H; split; reflexivity.
Qed.

(** A frame in which no obstacle is hit and no power-up is collected. *)
Lemma gameLoop_calm h g :
  gameRunning g = true ->
  obstacleHits h g = 0 -> powerUpsCollected h g = 0 ->
  rocket (gameLoop h false g) = settledRocket h (rocket g) /\
  gameRunning (gameLoop h false g) = negb (boundaryCrash h g).
Proof.
  intros Hrun Hh Hp.
  destruct (gameLoop_fields h g Hrun) as (_ & _ & _ & Hr & Hg).
  rewrite obstacleCrash_unfold in Hg.
  rewrite obstacleHits_unfold in Hh. rewrite powerUpsCollected_unfold in Hp.
  rewrite Hh in Hg. rewrite Hr, Hg. unfold afterPowerUps, afterObstacles.
  rewrite Hp, Hh. cbn [Z.ltb Z.compare andb].
  rewrite andb_false_r, beginFrame_rocket. split; [reflexivity|].
  unfold crashes. destruct (hasShield (settledRocket h (rocket g)));
    rewrite andb_true_r; reflexivity.
Qed.

Lemma frames_shield (h : Host) (n : nat) (g : Game) :
  gameRunning g = true -> hasShield (rocket g) = true ->
  (forall k, (k < n)%nat ->
     obstacleHits h (frames h (visible k) g) = 0 /\
     powerUpsCollected h (frames h (visible k) g) = 0) ->
  Z.of_nat n < shieldTime (rocket g) ->
  gameRunning (frames h (visible n) g) = true /\
  hasShield (rocket (frames h (visible n) g)) = true /\
  shieldTime (rocket (frames h (visible n) g)) =
    shieldTime (rocket g) - Z.of_nat n.
Proof.
  intros Hrun Hs. induction n as [|n IH]; intros Hcalm Ht.
  - change (frames h (visible 0) g) with g. repeat split; try assumption.
    cbn [Z.of_nat]. lia.
  - destruct IH as (Hrn & Hsn & Htn); [intros k Hk; apply Hcalm; lia | lia|].
    rewrite frames_last. destruct (Hcalm n ltac:(lia)) as (Hh & Hp).
    destruct (gameLoop_calm h _ Hrn Hh Hp) as (Hr & Hg).
    destruct (flyRocket_shielded _ Hsn) as (Hf & Hft).
    assert (Hup : hasShield (flyRocket (rocket (frames h (visible n) g)))
                  = true).
    { rewrite Hf, Htn. destruct (Z.leb_spec
        (shieldTime (rocket g) - Z.of_nat n - 1) 0); [lia | reflexivity]. }
    rewrite Hr, Hg, settledRocket_shield, settledRocket_timer, Hft, Htn.
    split; [|split; [exact Hup | lia]].
    unfold boundaryCrash. cbv zeta. rewrite Hup, andb_false_r. reflexivity.
Qed.

(** X14. A shield that nothing takes lasts as long as its timer says:
    over [n] frames of a visible page, [n] at most the timer, in which the
    rocket hits no obstacle and collects no power-up, the timer falls by
    [n], the shield is up as long as the timer is above 0, and the session
    runs on as long as the shield is up, wherever the rocket is. *)
Theorem shield_lasts (h : Host) (n : nat) (g : Game) :
  gameRunning g = true -> hasShield (rocket g) = true ->
  (forall k, (k < n)%nat ->
     obstacleHits h (frames h (visible k) g) = 0 /\
     powerUpsCollected h (frames h (visible k) g) = 0) ->
  1 <= Z.of_nat n <= shieldTime (rocket g) ->
  let g' := frames h (visible n) g in
  shieldTime (rocket g') = shieldTime (rocket g) - Z.of_nat n /\
  hasShield (rocket g') = (Z.of_nat n <? shieldTime (rocket g)) /\
  (Z.of_nat n < shieldTime (rocket g) -> gameRunning g' = true).
Proof.
  intros Hrun Hs Hcalm Hn. cbv zeta.
  destruct (Z.ltb_spec (Z.of_nat n) (shieldTime (rocket g))) as [Hlt | Hge].
  - destruct (frames_shield h n g Hrun Hs Hcalm Hlt) as (Hr & Hf & Ht). auto.
  - destruct n as [|n]; [cbn in Hn; lia|].
    destruct (frames_shield h n g Hrun Hs) as (Hrn & Hsn & Htn);
      [intros k Hk; apply Hcalm; lia | lia|].
    rewrite frames_last. destruct (Hcalm n ltac:(lia)) as (Hh & Hp).
    destruct (gameLoop_calm h _ Hrn Hh Hp) as (Hr & _).
    destruct (flyRocket_shielded _ Hsn) as (Hf & Hft).
    rewrite Hr, settledRocket_shield, settledRocket_timer, Hf, Hft, Htn.
    repeat split; lia.
Qed.

Lemma shield_lasts_witness :
  gameRunning guarded = true /\ hasShield (rocket guarded) = true /\
  (forall k, (k < 3)%nat ->
     obstacleHits browser (frames browser (visible k) guarded) = 0 /\
     powerUpsCollected browser (frames browser (visible k) guarded) = 0) /\
  1 <= Z.of_nat 3 <= shieldTime (rocket guarded) /\
  shieldTime (rocket (frames browser (visible 3) guarded)) =
    shieldTime (rocket guarded) - Z.of_nat 3.
Proof.
  assert (H3 : forall k, (k < 3)%nat ->
     obstacleHits browser (frames browser (visible k) guarded) = 0 /\
     powerUpsCollected browser (frames browser (visible k) guarded) = 0).
  { intros k Hk.
    do 3 (destruct k as [|k]; [vm_compute; split; reflexivity|]). lia. }
  assert (H4 : 1 <= Z.of_nat 3 <= shieldTime (rocket guarded))
    by (vm_compute; split; discriminate).
  split; [reflexivity|]. split; [reflexivity|]. split; [exact H3|].
  split; [exact H4|].
  apply (shield_lasts browser 3 guarded eq_refl eq_refl H3 H4).
Defined.

Section ReverseLoopMap.

Context {A : Type} (body : A -> Game -> option A * Game).
Variables (I : Game -> Prop) (keep : A -> bool) (f : A -> A).
Hypothesis I_body : forall a g, I g -> I (snd (body a g)).
Hypothesis body_fst :
  forall a g, I g -> fst (body a g) = if keep a then Some (f a) else None.

(** A loop that drops some elements and changes the others leaves the
    changed ones in the order of the list. *)
Lemma reverseLoop_map_filter l g :
  I g -> fst (reverseLoop body l g) = map f (filter keep l).
Proof.
  revert g; induction l as [|a rest IH]; intros g Hg; simpl.
  - reflexivity.
  - specialize (IH g Hg).
    pose proof (reverseLoop_inv body I I_body rest g Hg) as Hinv.
    destruct (reverseLoop body rest g) as [rest' g1]; simpl in IH, Hinv.
    pose proof (body_fst a g1 Hinv) as Hb.
    destruct (body a g1) as [a' g2]; simpl in *. subst a' rest'.
    destruct (keep a); reflexivity.
Qed.

End ReverseLoopMap.

Lemma gone_ext g g' o : level g' = level g -> gone g' o = gone g o.
Proof.
  intros H. unfold gone. rewrite (moveObstacle_ext g g' o H). reflexivity.
Qed.

Lemma updateObstacles_map_filter h s :
  obstacles (updateObstacles h s) =
  map (advanced s) (filter (fun o => negb (gone s o)) (obstacles s)).
Proof.
  rewrite updateObstacles_list.
  apply (reverseLoop_map_filter (obstacleBody h)
           (fun s1 => level s1 = level s /\
                      geom (rocket s1) = geom (rocket s))).
  - intros o s1 (Hl & Hgeom).
    destruct (obstacleBody_fields h o s1) as (_ & Hl2 & _ & _ & _ & Hr & _).
    split; [congruence|]. rewrite Hr, <- Hgeom.
    destruct (hit s1 o && hasShield (rocket s1)); reflexivity.
  - intros o s1 (Hl & Hgeom). rewrite obstacleBody_blocks. cbv zeta.
    cbn [fst]. unfold advanced.
    rewrite (gone_ext s s1 o Hl), (awarded_ext s s1 o Hl Hgeom),
      (moveObstacle_ext s s1 o Hl).
    destruct (gone s o); reflexivity.
  - split; reflexivity.
Qed.

Lemma beginFrame_spawn h g :
  exists k, obstacles (beginFrame h g) = obstacles g ++ spawnedAt h g k.
Proof.
  rewrite beginFrame_blocks, generatePowerUps_obstacles,
    generateStars_obstacles.
  destruct (flown_fields h g) as (_ & Hl & Hf & Ho & _).
  exists (rng (flown h g)). unfold generateObstacles, spawnedAt.
  rewrite Hl, Hf.
  destruct (Num.is_zero _).
  - rewrite createObstacle_obstacles, Ho. reflexivity.
  - rewrite Ho, app_nil_r. reflexivity.
Qed.

(** X15. The obstacles after a frame of a running session on a visible
    page, whether the frame ends the session or not: the list the frame
    began with, with one new obstacle at its end if the frame is a spawn
    frame, without those that pass the left edge in this frame, the others
    in their order, each moved left by the speed of the level and flagged
    if it is now behind the rocket. *)
Theorem obstacles_after_frame (h : Host) (g : Game) :
  gameRunning g = true ->
  let s := beginFrame h g in
  obstacles (gameLoop h false g) =
    map (advanced s) (filter (fun o => negb (gone s o)) (obstacles s)) /\
  (exists k, obstacles s = obstacles g ++ spawnedAt h g k) /\
  level s = levelOf (score g) /\
  rocket_x (rocket s) = rocket_x (rocket g).
Proof.
  intros Hrun. cbv zeta.
  rewrite (gameLoop_obstacles h g Hrun), updateObstacles_map_filter.
  destruct (beginFrame_fields h g) as (_ & Hl & _ & Hr & _).
  repeat split; [apply beginFrame_spawn | exact Hl |].
  rewrite Hr. unfold settledRocket, clampRocket, flyRocket. cbv zeta. fields.
  destruct (hasShield (rocket g));
    [destruct (shieldTime (rocket g) - 1 <=? 0)|];
    match goal with
    | |- context [if ?c then _ else _] => destruct c
    end; reflexivity.
Qed.

Lemma obstacles_after_frame_witness :
  gameRunning midGame = true /\
  obstacles (gameLoop browser false midGame) =
    map (advanced (beginFrame browser midGame))
      (filter (fun o => negb (gone (beginFrame browser midGame) o))
         (obstacles (beginFrame browser midGame))).
Proof.
  split; [reflexivity|]. apply (obstacles_after_frame browser midGame eq_refl).
Defined.

Lemma moveStar_ext g g' st :
  level g' = level g -> moveStar g' st = moveStar g st.
Proof. intros H. unfold moveStar, scrollSpeed. rewrite H. reflexivity. Qed.

Lemma movePowerUp_ext g g' p :
  level g' = level g -> movePowerUp g' p = movePowerUp g p.
Proof. intros H. unfold movePowerUp, scrollSpeed. rewrite H. reflexivity. Qed.

Lemma stars_loop_list h l s s0 :
  level s0 = level s -> geom (rocket s0) = geom (rocket s) ->
  fst (reverseLoop (starBody h) l s0) =
  map (advancedStar s) (filter (fun st => negb (starGone s st)) l).
Proof.
  intros Hl0 Hg0.
  apply (reverseLoop_map_filter (starBody h)
           (fun s1 => level s1 = level s /\
                      geom (rocket s1) = geom (rocket s))).
  - intros st s1 (Hl & Hgeom).
    pose proof (starBody_offscore h st s1) as Ho. offscore_of Ho.
    split; congruence.
  - intros st s1 (Hl & Hgeom). rewrite starBody_blocks. cbn [fst].
    unfold advancedStar, starGone.
    rewrite (starTaken_ext s s1 st Hl Hgeom), (moveStar_ext s s1 st Hl).
    destruct (Num.lt _ _); reflexivity.
  - split; assumption.
Qed.

Lemma powerUps_loop_list h l s s0 :
  level s0 = level s -> geom (rocket s0) = geom (rocket s) ->
  fst (reverseLoop (powerUpBody h) l s0) =
  map (advancedPowerUp s) (filter (fun p => negb (powerUpGone s p)) l).
Proof.
  intros Hl0 Hg0.
  apply (reverseLoop_map_filter (powerUpBody h)
           (fun s1 => level s1 = level s /\
                      geom (rocket s1) = geom (rocket s))).
  - intros p s1 (Hl & Hgeom).
    pose proof (powerUpBody_offshield h p s1) as Ho. offshield_of Ho.
    split; congruence.
  - intros p s1 (Hl & Hgeom). rewrite powerUpBody_blocks. cbn [fst].
    unfold advancedPowerUp, powerUpGone.
    rewrite (puTaken_ext s s1 p Hl Hgeom), (movePowerUp_ext s s1 p Hl).
    destruct (Num.lt _ _); reflexivity.
  - split; assumption.
Qed.

Lemma beginFrame_star_spawn h g :
  exists k, stars (beginFrame h g) = stars g ++ starAt h g k.
Proof.
  rewrite beginFrame_blocks, generatePowerUps_stars.
  destruct (flown_fields h g) as (_ & _ & Hf & _ & Hs & _).
  destruct (generateObstacles_stars h (flown h g)) as (Hs' & _).
  pose proof (generateObstacles_unspawned h (flown h g)) as Hu.
  unspawned_of Hu.
  revert Hs'. generalize dependent (generateObstacles h (flown h g)).
  intros s; intros. exists (rng s). unfold generateStars, starAt.
  replace (frameCount s) with (frameCount g + 1) by congruence.
  destruct (Num.is_zero _).
  - rewrite createStar_stars. congruence.
  - rewrite app_nil_r. congruence.
Qed.

Lemma beginFrame_powerUp_spawn h g :
  exists k, powerUps (beginFrame h g) = powerUps g ++ powerUpAt h g k.
Proof.
  rewrite beginFrame_blocks.
  destruct (flown_fields h g) as (_ & _ & Hf & _ & _ & Hp & _).
  destruct (generateObstacles_stars h (flown h g)) as (_ & Hp').
  pose proof (generateObstacles_unspawned h (flown h g)) as Hu.
  unspawned_of Hu.
  pose proof (generateStars_powerUps h (generateObstacles h (flown h g)))
    as Hp''.
  pose proof (generateStars_unspawned h (generateObstacles h (flown h g)))
    as Hu'.
  unspawned_of Hu'.
  revert Hp''. generalize dependent
    (generateStars h (generateObstacles h (flown h g))).
  intros s; intros. exists (rng s). unfold generatePowerUps, powerUpAt.
  replace (frameCount s) with (frameCount g + 1) by congruence.
  destruct (Num.is_zero _).
  - rewrite createPowerUp_powerUps. congruence.
  - rewrite app_nil_r. congruence.
Qed.

(** X16. The stars and the power-ups after a frame of a running session
    on a visible page, whether the frame ends the session or not: the
    lists the frame began with, with a new star at the end in a frame whose
    number is a multiple of 80 and a new power-up in one whose number is a
    multiple of 300, without those that leave the screen in this frame, the
    others in their order, each moved left and marked if the rocket
    collects it. *)
Theorem collectibles_after_frame (h : Host) (g : Game) :
  gameRunning g = true ->
  let s := beginFrame h g in
  stars (gameLoop h false g) =
    map (advancedStar s) (filter (fun st => negb (starGone s st)) (stars s)) /\
  powerUps (gameLoop h false g) =
    map (advancedPowerUp s)
      (filter (fun p => negb (powerUpGone s p)) (powerUps s)) /\
  (exists k, stars s = stars g ++ starAt h g k) /\
  (exists k, powerUps s = powerUps g ++ powerUpAt h g k) /\
  level s = levelOf (score g) /\
  geom (rocket s) = geom (settledRocket h (rocket g)).
Proof.
  intros Hrun. cbv zeta.
  destruct (gameLoop_collectibles h g Hrun)
    as (s1 & s2 & Hs & Hp & Hl1 & Hg1 & Hl2 & Hg2).
  rewrite Hs, Hp.
  destruct (beginFrame_fields h g) as (_ & Hl & _ & Hr & _ & _).
  repeat split.
  - apply stars_loop_list; assumption.
  - apply powerUps_loop_list; assumption.
  - apply beginFrame_star_spawn.
  - apply beginFrame_powerUp_spawn.
  - exact Hl.
  - rewrite Hr. reflexivity.
Qed.

Lemma collectibles_after_frame_witness :
  gameRunning midGame = true /\
  stars (gameLoop browser false midGame) =
    map (advancedStar (beginFrame browser midGame))
      (filter (fun st => negb (starGone (beginFrame browser midGame) st))
         (stars (beginFrame browser midGame))).
Proof.
  split; [reflexivity|].
  apply (collectibles_after_frame browser midGame eq_refl).
Defined.

(** ** Score *)

Lemma advanced_passed s o : passed (advanced s o) = passed o || awarded s o.
Proof.
  unfold advanced. destruct (awarded s o) eqn:E.
  - cbn [markPassed passed]. rewrite orb_true_r. reflexivity.
  - rewrite orb_false_r. reflexivity.
Qed.

Lemma advancedStar_collected s st :
  star_collected (advancedStar s st) = star_collected st || starTaken s st.
Proof.
  unfold advancedStar. destruct (starTaken s st) eqn:E.
  - cbn [markStar star_collected]. rewrite orb_true_r. reflexivity.
  - rewrite orb_false_r. reflexivity.
Qed.

(** After the star loop every star that is left within reach of the rocket
    has been collected, in this frame or before. *)
Lemma advancedStar_reached s r st :
  geom r = geom (rocket s) -> reached r (advancedStar s st).
Proof.
  intros Hg. apply geom_fields in Hg. destruct Hg as (Hx & Hy & Hw & Hh & _).
  unfold reached. rewrite advancedStar_collected.
  destruct (star_collected st) eqn:Ec; [reflexivity|]. cbn [orb].
  intros Hin. unfold starTaken. rewrite Ec. cbn [negb andb].
  rewrite <- Hin. unfold advancedStar, inReach.
  rewrite Hx, Hy, Hw, Hh. destruct (starTaken s st); reflexivity.
Qed.

(** C3, as the code has it. A frame that runs adds to the score exactly 1,
    plus 50 for every obstacle that had not been passed and whose trailing
    edge is behind the rocket's [x] after this frame's move, plus 100 for
    every star that had not been collected and is within reach after this
    frame's move.  Whether it runs or not, a call of [gameLoop] never lowers
    the score.  The obstacles and the stars the frame leaves are those it
    began with, moved, without the ones that left the screen; the [passed]
    flag of an obstacle is set after the frame if it was set before or the
    obstacle has been awarded in this frame, and the [collected] flag of a
    star is set after the frame if it was set before or the star has been
    counted in this frame.  So after the frame every obstacle behind the
    rocket carries the [passed] flag and every star within reach carries
    the [collected] flag, and neither is counted a second time. *)
Theorem score_per_frame (h : Host) (g : Game) :
  gameRunning g = true ->
  let g' := gameLoop h false g in
  let s := beginFrame h g in
  score g' = score g + 1 + 50 * obstaclesPassed h g
             + 100 * starsCollected h g /\
  (forall hidden, score g <= score (gameLoop h hidden g)) /\
  Forall (flagged (rocket_x (rocket g'))) (obstacles g') /\
  (forall o, passed o = true -> awarded g' o = false) /\
  obstacles g' =
    map (advanced s) (filter (fun o => negb (gone s o)) (obstacles s)) /\
  (forall o, passed (advanced s o) = passed o || awarded s o) /\
  stars g' =
    map (advancedStar s)
      (filter (fun st => negb (starGone s st)) (stars s)) /\
  (forall st, star_collected (advancedStar s st) =
              star_collected st || starTaken s st) /\
  Forall (reached (rocket g')) (stars g') /\
  (forall st, star_collected st = true -> starTaken g' st = false).
Proof.
  intros Hrun. cbv zeta.
  destruct (gameLoop_fields h g Hrun) as (Hs & _ & _ & Hr & _).
  assert (Hstars : stars (gameLoop h false g) =
            map (advancedStar (beginFrame h g))
              (filter (fun st => negb (starGone (beginFrame h g) st))
                 (stars (beginFrame h g)))).
  { destruct (gameLoop_collectibles h g Hrun)
      as (s1 & _ & Hst & _ & Hl1 & Hg1 & _).
    rewrite Hst. apply stars_loop_list; assumption. }
  split; [exact Hs|].
  split; [intros hidden; apply Steps_score with (h := h), gameLoop_Steps|].
  split.
  { rewrite Hr, (gameLoop_obstacles h g Hrun).
    destruct (geom_fields _ _ (afterPowerUps_geom (beginFrame h g)))
      as (-> & _).
    apply updateObstacles_flagged. }
  split; [intros o Ho; unfold awarded; rewrite Ho; reflexivity|].
  split.
  { rewrite (gameLoop_obstacles h g Hrun). apply updateObstacles_map_filter. }
  split; [intros o; apply advanced_passed|].
  split; [exact Hstars|].
  split; [intros st; apply advancedStar_collected|].
  split.
  - rewrite Hstars, Hr. apply Forall_forall. intros st' Hin.
    apply in_map_iff in Hin. destruct Hin as (st & <- & _).
    apply advancedStar_reached, afterPowerUps_geom.
  - intros st Hc. unfold starTaken. rewrite Hc. reflexivity.
Qed.

Lemma score_per_frame_witness :
  gameRunning midGame = true /\
  let g' := gameLoop browser false midGame in
  let s := beginFrame browser midGame in
  score g' = score midGame + 1 + 50 * obstaclesPassed browser midGame
             + 100 * starsCollected browser midGame /\
  (forall hidden, score midGame <= score (gameLoop browser hidden midGame)) /\
  Forall (flagged (rocket_x (rocket g'))) (obstacles g') /\
  (forall o, passed o = true -> awarded g' o = false) /\
  obstacles g' =
    map (advanced s) (filter (fun o => negb (gone s o)) (obstacles s)) /\
  (forall o, passed (advanced s o) = passed o || awarded s o) /\
  stars g' =
    map (advancedStar s)
      (filter (fun st => negb (starGone s st)) (stars s)) /\
  (forall st, star_collected (advancedStar s st) =
              star_collected st || starTaken s st) /\
  Forall (reached (rocket g')) (stars g') /\
  (forall st, star_collected st = true -> starTaken g' st = false).
Proof.
  split; [reflexivity | apply (score_per_frame browser midGame); reflexivity].
Defined.

(** In [crossing] the trailing edge of the first obstacle moves from 142 to
    139, past the leading edge of the rocket at 140.  The frame adds 1 to
    the score and nothing for the obstacle, whose 50 points are due when
    its trailing edge is behind the rocket's [x], 100. *)
Lemma leading_edge_counterexample :
  (gameRunning crossing, score crossing,
   rocket_x (rocket crossing), rocket_width (rocket crossing),
   map (fun o => (obs_x o, obs_width o, passed o)) (obstacles crossing))
  = (true, 380, 100%Q, 40%Q, [(62%Q, 80%Q, false); (467%Q, 80%Q, false)]) /\
  (map obs_x (obstacles (gameLoop browser false crossing)),
   countIf (crossesLeadingEdge (beginFrame browser crossing))
     (obstacles (beginFrame browser crossing)),
   obstaclesPassed browser crossing, starsCollected browser crossing,
   score (gameLoop browser false crossing))
  = ([59%Q; 464%Q], 1, 0, 0, 381) /\
  score (gameLoop browser false crossing) <>
  score crossing + 1
  + 50 * countIf (crossesLeadingEdge (beginFrame browser crossing))
           (obstacles (beginFrame browser crossing))
  + 100 * starsCollected browser crossing.
Proof.
  split; [vm_compute; reflexivity|]. split; [vm_compute; reflexivity|].
  vm_compute. discriminate.
Qed.

(** ** The engine on the page is the engine *)

Ltac pfields :=
  cbn [game gameInstance animationId requests lastHandle clickListener
       keydownListener touchListeners set_game set_gameInstance
       set_animationId set_requests OnPage.lift
       OnPage.requestAnimationFrame OnPage.cancelAnimationFrame fst snd] in *.

Lemma confettiLoop_game h c p :
  game (OnPage.confettiLoop h c p) = updateConfetti h (game p).
Proof.
  unfold OnPage.confettiLoop. cbv zeta.
  destruct (c <? 120)%nat; reflexivity.
Qed.

Lemma endGame_game h p :
  game (OnPage.endGame h p) = endGame h (game p).
Proof.
  unfold OnPage.endGame. cbv zeta. rewrite confettiLoop_game, endGame_blocks.
  reflexivity.
Qed.

Lemma updateRocket_game h p :
  game (OnPage.updateRocket h p) = updateRocket h (game p).
Proof.
  unfold OnPage.updateRocket. rewrite updateRocket_blocks. cbv zeta.
  destruct (outOfBounds h (flyRocket (rocket (game p)))); [|reflexivity].
  destruct (negb (hasShield (flyRocket (rocket (game p))))); [|reflexivity].
  rewrite endGame_game. reflexivity.
Qed.

Lemma obstacleBody_game h o p :
  fst (OnPage.obstacleBody h o p) = fst (obstacleBody h o (game p)) /\
  game (snd (OnPage.obstacleBody h o p)) = snd (obstacleBody h o (game p)).
Proof.
  unfold OnPage.obstacleBody, obstacleBody. cbv zeta.
  set (o' := moveObstacle (game p) o).
  set (q := if checkCollision (rocket (game p)) o'
            then if hasShield (rocket (game p))
                 then _ else OnPage.endGame h p
            else p).
  assert (Hq : game q =
               if checkCollision (rocket (game p)) o'
               then hitObstacle h (game p) else game p).
  { subst q. destruct (checkCollision (rocket (game p)) o'); [|reflexivity].
    unfold hitObstacle.
    destruct (hasShield (rocket (game p))); [reflexivity|].
    apply endGame_game. }
  clearbody q. rewrite <- Hq. clear Hq.
  destruct (negb (passed o') &&
            Num.lt (Num.add (obs_x o') (obs_width o'))
                   (rocket_x (rocket (game q)))); split; reflexivity.
Qed.

Lemma obstacles_loop_game h l p :
  fst (OnPage.reverseLoop Obstacle (OnPage.obstacleBody h) l p) =
    fst (reverseLoop (obstacleBody h) l (game p)) /\
  game (snd (OnPage.reverseLoop Obstacle (OnPage.obstacleBody h) l p)) =
    snd (reverseLoop (obstacleBody h) l (game p)).
Proof.
  induction l as [|o rest IH]; [split; reflexivity|].
  cbn [OnPage.reverseLoop reverseLoop].
  destruct (OnPage.reverseLoop Obstacle (OnPage.obstacleBody h) rest p)
    as [rest1 p1].
  destruct (reverseLoop (obstacleBody h) rest (game p)) as [rest2 g2].
  cbn [fst snd] in IH. destruct IH as (<- & <-).
  destruct (obstacleBody_game h o p1) as (Hf & Hs).
  destruct (OnPage.obstacleBody h o p1) as [a1 p2].
  destruct (obstacleBody h o (game p1)) as [a2 g3].
  cbn [fst snd] in *. subst. split; reflexivity.
Qed.

Lemma updateObstacles_game h p :
  game (OnPage.updateObstacles h p) = updateObstacles h (game p).
Proof.
  unfold OnPage.updateObstacles, updateObstacles.
  destruct (obstacles_loop_game h (obstacles (game p)) p) as (Hf & Hs).
  destruct (OnPage.reverseLoop Obstacle (OnPage.obstacleBody h)
              (obstacles (game p)) p) as [l1 p1].
  destruct (reverseLoop (obstacleBody h) (obstacles (game p)) (game p))
    as [l2 g2].
  cbn [fst snd] in *. subst. reflexivity.
Qed.

Lemma gameLoop_page_blocks h hidden p :
  OnPage.gameLoop h hidden p =
  if negb (gameRunning (game p)) || hidden then p
  else set_animationId
         (snd (OnPage.requestAnimationFrame GameLoop (framed h p)))
         (Some (S (lastHandle (framed h p)))).
Proof.
  cbv beta zeta delta [OnPage.gameLoop framed].
  destruct (negb (gameRunning (game p)) || hidden); reflexivity.
Qed.

Lemma framed_game h p :
  gameRunning (game p) = true ->
  game (framed h p) = gameLoop h false (game p).
Proof.
  intros Hrun. rewrite (gameLoop_run h _ Hrun).
  unfold framed, updateObjects, beginFrame. cbv zeta.
  cbn [OnPage.lift game set_game].
  rewrite updateObstacles_game. cbn [OnPage.lift game set_game].
  rewrite updateRocket_game. reflexivity.
Qed.

Lemma grows_refl p : grows 0 p p.
Proof.
  unfold grows, confettiRequests. cbn [seq map]. rewrite app_nil_r.
  rewrite Nat.add_0_r. repeat split.
Qed.

Lemma confettiRequests_app last k k' :
  confettiRequests last k ++ confettiRequests (last + k) k' =
  confettiRequests last (k + k').
Proof.
  unfold confettiRequests. rewrite seq_app, map_app. reflexivity.
Qed.

Lemma grows_trans k k' p1 p2 p3 :
  grows k p1 p2 -> grows k' p2 p3 -> grows (k + k') p1 p3.
Proof.
  intros (Hr & Hl & Ha & Hg & Hc & Hk & Ht)
         (Hr' & Hl' & Ha' & Hg' & Hc' & Hk' & Ht').
  unfold grows. rewrite Hr', Hr, Hl', Hl, <- app_assoc, confettiRequests_app.
  repeat split; try congruence. lia.
Qed.

Lemma lift_grows f p : grows 0 p (OnPage.lift f p).
Proof. apply (grows_refl p). Qed.

Lemma grows_lift f k p q : grows k (OnPage.lift f p) q -> grows k p q.
Proof. exact (fun H => H). Qed.

Lemma endGame_grows h p : grows 1 p (OnPage.endGame h p).
Proof.
  unfold grows, OnPage.endGame, OnPage.confettiLoop, confettiRequests.
  cbv zeta. cbn [Nat.ltb Nat.leb]. pfields. cbn [seq map].
  rewrite Nat.add_1_r. repeat split.
Qed.

Lemma updateRocket_grows h p : exists k, grows k p (OnPage.updateRocket h p).
Proof.
  unfold OnPage.updateRocket. cbv zeta.
  destruct (outOfBounds h (flyRocket (rocket (game p)))).
  - destruct (negb (hasShield (flyRocket (rocket (game p))))).
    + exists 1%nat. eapply grows_lift. apply endGame_grows.
    + exists O. apply (grows_refl p).
  - exists O. apply (grows_refl p).
Qed.

Lemma obstacleBody_grows h o p :
  exists k, grows k p (snd (OnPage.obstacleBody h o p)).
Proof.
  unfold OnPage.obstacleBody. cbv zeta.
  set (o' := moveObstacle (game p) o).
  set (q := if checkCollision (rocket (game p)) o'
            then if hasShield (rocket (game p))
                 then _ else OnPage.endGame h p
            else p).
  assert (Hq : exists k, grows k p q).
  { subst q. destruct (checkCollision (rocket (game p)) o');
      [|exists O; apply grows_refl].
    destruct (hasShield (rocket (game p)));
      [exists O; apply (grows_refl p) | exists 1%nat; apply endGame_grows]. }
  clearbody q. destruct Hq as (k & Hk). exists k.
  destruct (negb (passed o') &&
            Num.lt (Num.add (obs_x o') (obs_width o'))
                   (rocket_x (rocket (game q)))); exact Hk.
Qed.

Lemma obstacles_loop_grows h l p :
  exists k,
    grows k p (snd (OnPage.reverseLoop Obstacle (OnPage.obstacleBody h) l p)).
Proof.
  induction l as [|o rest IH]; [exists O; apply grows_refl|].
  cbn [OnPage.reverseLoop].
  destruct (OnPage.reverseLoop Obstacle (OnPage.obstacleBody h) rest p)
    as [rest1 p1].
  cbn [snd] in IH. destruct IH as (k & Hk).
  destruct (obstacleBody_grows h o p1) as (k' & Hk').
  destruct (OnPage.obstacleBody h o p1) as [a1 p2]. cbn [snd] in *.
  exists (k + k')%nat. apply (grows_trans k k' p p1 p2); assumption.
Qed.

Lemma updateObstacles_grows h p :
  exists k, grows k p (OnPage.updateObstacles h p).
Proof.
  unfold OnPage.updateObstacles.
  destruct (obstacles_loop_grows h (obstacles (game p)) p) as (k & Hk).
  destruct (OnPage.reverseLoop Obstacle (OnPage.obstacleBody h)
              (obstacles (game p)) p) as [l1 p1].
  exists k. exact Hk.
Qed.

Lemma grows_lifted f k p q : grows k p q -> grows k p (OnPage.lift f q).
Proof. exact (fun H => H). Qed.

Lemma framed_grows h p : exists k, grows k p (framed h p).
Proof.
  unfold framed. cbv zeta.
  set (p0 := OnPage.lift (fun g => set_level g (levelOf (score g)))
               (OnPage.lift (fun g => set_frameCount g (frameCount g + 1)) p)).
  assert (H0 : grows 0 p p0) by (subst p0; do 2 apply grows_lifted;
                                 apply grows_refl).
  clearbody p0.
  destruct (updateRocket_grows h p0) as (k1 & H1).
  set (p1 := OnPage.updateRocket h p0) in *. clearbody p1.
  set (p1' := OnPage.lift (generatePowerUps h)
                (OnPage.lift (generateStars h)
                   (OnPage.lift (generateObstacles h) p1))).
  assert (H1' : grows 0 p1 p1') by (subst p1'; do 3 apply grows_lifted;
                                    apply grows_refl).
  clearbody p1'.
  destruct (updateObstacles_grows h p1') as (k2 & H2).
  set (p2 := OnPage.updateObstacles h p1') in *. clearbody p2.
  exists (0 + k1 + 0 + k2)%nat.
  do 6 apply grows_lifted.
  eapply grows_trans; [|exact H2].
  eapply grows_trans; [|exact H1'].
  eapply grows_trans; [exact H0 | exact H1].
Qed.

Lemma NoDup_map_filter {A B : Type} (f : A -> B) (t : A -> bool) l :
  NoDup (map f l) -> NoDup (map f (filter t l)).
Proof.
  induction l as [|a l IH]; cbn [map filter]; intros H; [constructor|].
  inversion H as [|? ? Hn Hl]; subst. destruct (t a); [|auto].
  cbn [map]. constructor; [|auto].
  intros Hin. apply Hn. apply in_map_iff in Hin.
  destruct Hin as (x & Hx & Hin). apply filter_In in Hin.
  apply in_map_iff. exists x. tauto.
Qed.

Lemma confettiRequests_In last k r :
  In r (confettiRequests last k) <->
  (last < fst r <= last + k)%nat /\ snd r = ConfettiLoop 1.
Proof.
  unfold confettiRequests. rewrite in_map_iff. split.
  - intros (id & <- & Hin). apply in_seq in Hin. cbn [fst snd]. split; [lia|].
    reflexivity.
  - destruct r as [id cb]. cbn [fst snd]. intros (Hr & ->).
    exists id. split; [reflexivity|]. apply in_seq. lia.
Qed.

Lemma confettiRequests_NoDup last k :
  NoDup (map fst (confettiRequests last k)).
Proof.
  unfold confettiRequests. rewrite map_map. cbn [fst]. rewrite map_id.
  apply seq_NoDup.
Qed.

Lemma grows_loops k p p' id :
  grows k p p' ->
  (In (id, GameLoop) (requests p') <-> In (id, GameLoop) (requests p)).
Proof.
  intros (Hr & _). rewrite Hr, in_app_iff, confettiRequests_In. cbn [snd].
  split; [intros [H | (_ & H)]; [exact H | discriminate] | auto].
Qed.

Lemma grows_scheduled k p p' : grows k p p' -> scheduled p -> scheduled p'.
Proof.
  intros Hg (Hle & Hnd & Hloop & Hconf).
  pose proof Hg as (Hr & Hl & Ha & _).
  unfold scheduled. rewrite Hr, Hl, Ha. split; [|split; [|split]].
  - apply Forall_app. split.
    + revert Hle. apply Forall_impl. intros r. lia.
    + apply Forall_forall. intros r Hin. apply confettiRequests_In in Hin. lia.
  - rewrite map_app.
    apply NoDup_app; [exact Hnd | apply confettiRequests_NoDup|].
    intros id Hin1 Hin2. apply in_map_iff in Hin1, Hin2.
    destruct Hin1 as (r1 & <- & Hin1). destruct Hin2 as (r2 & E & Hin2).
    apply confettiRequests_In in Hin2. rewrite Forall_forall in Hle.
    specialize (Hle r1 Hin1). lia.
  - intros id Hin. apply Hloop. apply in_app_iff in Hin.
    destruct Hin as [Hin | Hin]; [exact Hin|].
    apply confettiRequests_In in Hin. cbn [snd] in Hin.
    destruct Hin as (_ & Hin). discriminate.
  - intros id c Hin. apply in_app_iff in Hin.
    destruct Hin as [Hin | Hin]; [apply (Hconf id c Hin)|].
    apply confettiRequests_In in Hin. cbn [snd] in Hin.
    destruct Hin as (_ & Hin). injection Hin as <-. lia.
Qed.

Lemma cancel_In id r p :
  In r (requests (OnPage.cancelAnimationFrame id p)) <->
  In r (requests p) /\ fst r <> id.
Proof.
  unfold OnPage.cancelAnimationFrame. pfields. rewrite filter_In.
  rewrite negb_true_iff, Nat.eqb_neq. reflexivity.
Qed.

Lemma cancel_scheduled id p :
  scheduled p -> scheduled (OnPage.cancelAnimationFrame id p).
Proof.
  intros (Hle & Hnd & Hloop & Hconf). unfold scheduled.
  split; [|split; [|split]].
  - apply Forall_forall. intros r Hin. apply cancel_In in Hin.
    rewrite Forall_forall in Hle. apply (Hle r), Hin.
  - apply NoDup_map_filter, Hnd.
  - intros id' Hin. apply cancel_In in Hin. apply Hloop, Hin.
  - intros id' c Hin. apply cancel_In in Hin. apply (Hconf id' c), Hin.
Qed.

(** Cancelling the handle that [animationId] names leaves no [gameLoop]
    pending. *)
Lemma cancel_noLoop id p :
  scheduled p -> animationId p = Some id ->
  noLoop (OnPage.cancelAnimationFrame id p).
Proof.
  intros (_ & _ & Hloop & _) Ha id' Hin. apply cancel_In in Hin.
  destruct Hin as (Hin & Hne). apply Hloop in Hin. cbn [fst] in Hne.
  congruence.
Qed.

Lemma scheduled_noLoop p :
  scheduled p -> animationId p = None -> noLoop p.
Proof.
  intros (_ & _ & Hloop & _) Ha id Hin. apply Hloop in Hin. congruence.
Qed.

Lemma request_In cb r p :
  In r (requests (snd (OnPage.requestAnimationFrame cb p))) <->
  In r (requests p) \/ r = (S (lastHandle p), cb).
Proof.
  pfields. rewrite in_app_iff. cbn [In]. intuition congruence.
Qed.

Lemma request_scheduled cb p :
  scheduled p ->
  (cb = GameLoop -> noLoop p) ->
  (forall c, cb = ConfettiLoop c -> (1 <= c <= 120)%nat) ->
  let p' := snd (OnPage.requestAnimationFrame cb p) in
  scheduled (if match cb with GameLoop => true | _ => false end
             then set_animationId p' (Some (S (lastHandle p))) else p').
Proof.
  intros (Hle & Hnd & Hloop & Hconf) Hno Hc. cbv zeta.
  assert (Hfresh : ~ In (S (lastHandle p)) (map fst (requests p))).
  { intros Hin. apply in_map_iff in Hin. destruct Hin as (r & E & Hin).
    rewrite Forall_forall in Hle. specialize (Hle r Hin). lia. }
  assert (H1 : Forall (fun r => (fst r <= S (lastHandle p))%nat)
                 (requests p ++ [(S (lastHandle p), cb)])).
  { apply Forall_app. split.
    - revert Hle. apply Forall_impl. intros r. lia.
    - constructor; [cbn; lia | constructor]. }
  assert (H2 : NoDup (map fst (requests p ++ [(S (lastHandle p), cb)]))).
  { rewrite map_app. cbn [map fst]. apply NoDup_app.
    - exact Hnd.
    - constructor; [intros [] | constructor].
    - intros id Hin [<- | []]. exact (Hfresh Hin). }
  destruct cb as [|c]; unfold scheduled; pfields;
    (split; [exact H1 | split; [exact H2 | split]]).
  - intros id Hin. apply in_app_iff in Hin. destruct Hin as [Hin | [E | []]].
    + exfalso. exact (Hno eq_refl id Hin).
    + congruence.
  - intros id c Hin. apply in_app_iff in Hin.
    destruct Hin as [Hin | [E | []]]; [apply (Hconf id c Hin) | discriminate].
  - intros id Hin. apply in_app_iff in Hin.
    destruct Hin as [Hin | [E | []]]; [apply Hloop, Hin | discriminate].
  - intros id c' Hin. apply in_app_iff in Hin.
    destruct Hin as [Hin | [E | []]]; [apply (Hconf id c' Hin)|].
    injection E as _ <-. apply Hc. reflexivity.
Qed.

Lemma grows_noLoop k p p' : grows k p p' -> noLoop p -> noLoop p'.
Proof.
  intros Hg Hno id Hin. apply (grows_loops k p p' id Hg) in Hin.
  exact (Hno id Hin).
Qed.

Lemma scheduled_lift f p : scheduled p -> scheduled (OnPage.lift f p).
Proof. exact (fun H => H). Qed.

Lemma noLoop_lift f p : noLoop p -> noLoop (OnPage.lift f p).
Proof. exact (fun H => H). Qed.

(** A call of [gameLoop] that finds no other call of it pending. *)
Lemma gameLoop_scheduled h hidden p :
  scheduled p -> noLoop p -> scheduled (OnPage.gameLoop h hidden p).
Proof.
  intros Hs Hno. rewrite gameLoop_page_blocks.
  destruct (negb (gameRunning (game p)) || hidden); [exact Hs|].
  destruct (framed_grows h p) as (k & Hg).
  apply (request_scheduled GameLoop (framed h p)).
  - apply (grows_scheduled k p); assumption.
  - intros _. apply (grows_noLoop k p); assumption.
  - discriminate.
Qed.

Lemma startGame_page_blocks h hidden p :
  OnPage.startGame h hidden p =
  OnPage.gameLoop h hidden
    (match animationId p with
     | Some id => OnPage.cancelAnimationFrame id (OnPage.lift (started h) p)
     | None => OnPage.lift (started h) p
     end).
Proof.
  unfold OnPage.startGame. cbv zeta. pfields.
  destruct (animationId p); reflexivity.
Qed.

Lemma startGame_scheduled h hidden p :
  scheduled p -> scheduled (OnPage.startGame h hidden p).
Proof.
  intros Hs. rewrite startGame_page_blocks.
  destruct (animationId p) as [id|] eqn:Ha.
  - apply gameLoop_scheduled.
    + apply cancel_scheduled, scheduled_lift, Hs.
    + apply cancel_noLoop; [apply scheduled_lift, Hs | exact Ha].
  - apply gameLoop_scheduled; [apply scheduled_lift, Hs|].
    apply noLoop_lift, scheduled_noLoop; assumption.
Qed.

Lemma stopGame_scheduled p :
  scheduled p -> scheduled (OnPage.stopGame p) /\ noLoop (OnPage.stopGame p).
Proof.
  intros Hs. unfold OnPage.stopGame. cbv zeta. pfields.
  destruct (animationId p) as [id|] eqn:Ha.
  - pose proof (cancel_scheduled id _
                  (scheduled_lift (fun g => set_gameRunning g false) p Hs))
      as (H1 & H2 & H3 & H4).
    pose proof (cancel_noLoop id _
                  (scheduled_lift (fun g => set_gameRunning g false) p Hs) Ha)
      as Hno.
    split; [|exact Hno]. unfold scheduled. pfields.
    split; [exact H1 | split; [exact H2 | split; [|exact H4]]].
    intros id' Hin. exfalso. exact (Hno id' Hin).
  - split; [exact Hs | apply (scheduled_noLoop p Hs Ha)].
Qed.

Lemma handleInput_scheduled h hidden p :
  scheduled p -> scheduled (OnPage.handleInput h hidden p).
Proof.
  intros Hs. unfold OnPage.handleInput.
  destruct (negb (gameRunning (game p)));
    [apply startGame_scheduled, Hs | exact Hs].
Qed.

Lemma initGame_scheduled h found p :
  scheduled p -> scheduled (OnPage.initGame h found p).
Proof.
  intros Hs. unfold OnPage.initGame. destruct (negb found); exact Hs.
Qed.

Lemma confettiLoop_scheduled h c p :
  scheduled p -> (1 <= c <= 120)%nat -> scheduled (OnPage.confettiLoop h c p).
Proof.
  intros Hs Hc. unfold OnPage.confettiLoop. cbv zeta.
  destruct (Nat.ltb_spec c 120); [|exact Hs].
  apply (request_scheduled (ConfettiLoop (S c))
           (OnPage.lift (updateConfetti h) p)).
  - exact Hs.
  - discriminate.
  - intros c' E. injection E as <-. lia.
Qed.

Lemma confettiLoop_loops h c p id :
  In (id, GameLoop) (requests (OnPage.confettiLoop h c p)) <->
  In (id, GameLoop) (requests p).
Proof.
  unfold OnPage.confettiLoop. cbv zeta.
  destruct (c <? 120)%nat; [|reflexivity].
  rewrite request_In. pfields. split; [intros [H | H] | auto];
    [exact H | discriminate].
Qed.

(** Calling a pending callback, as the browser does. *)
Lemma invoke_scheduled h hidden id cb p :
  scheduled p -> In (id, cb) (requests p) ->
  scheduled (invoke h hidden cb (OnPage.cancelAnimationFrame id p)).
Proof.
  intros Hs Hin. pose proof Hs as (_ & _ & Hloop & Hconf).
  destruct cb as [|c]; cbn [invoke].
  - apply gameLoop_scheduled; [apply cancel_scheduled, Hs|].
    apply cancel_noLoop; [exact Hs | apply Hloop, Hin].
  - apply confettiLoop_scheduled; [apply cancel_scheduled, Hs|].
    apply (Hconf id c Hin).
Qed.

(** ** An animation frame, callback by callback *)

Lemma gameLoop_keeps h hidden p r :
  In r (requests p) -> In r (requests (OnPage.gameLoop h hidden p)).
Proof.
  intros Hin. rewrite gameLoop_page_blocks.
  destruct (negb (gameRunning (game p)) || hidden); [exact Hin|].
  destruct (framed_grows h p) as (k & Hr & _).
  pfields. rewrite Hr, !in_app_iff. auto.
Qed.

Lemma confettiLoop_keeps h c p r :
  In r (requests p) -> In r (requests (OnPage.confettiLoop h c p)).
Proof.
  intros Hin. unfold OnPage.confettiLoop. cbv zeta.
  destruct (c <? 120)%nat; [|exact Hin].
  apply request_In. left. exact Hin.
Qed.

Lemma invoke_keeps h hidden cb p r :
  In r (requests p) -> In r (requests (invoke h hidden cb p)).
Proof.
  destruct cb; cbn [invoke];
    [apply gameLoop_keeps | apply confettiLoop_keeps].
Qed.

Lemma pending_In r p : In r (requests p) -> pending (fst r) p = true.
Proof.
  intros Hin. unfold pending. apply existsb_exists. exists r.
  split; [exact Hin | apply Nat.eqb_refl].
Qed.

Section AnimationFrame.

Variables (h : Host) (hidden : bool).

(** [J rest q]: what holds of the page [q] when the callbacks [rest] of the
    frame are still to be called. *)
Variable J : list (nat * Callback) -> Page -> Prop.

Hypothesis J_served :
  forall r rest q,
    scheduled q -> In r (requests q) ->
    (forall r', In r' rest -> In r' (requests q) /\ fst r' <> fst r) ->
    J (r :: rest) q -> J rest (served h hidden r q).

Lemma animationFrame_fold rest q :
  scheduled q -> NoDup (map fst rest) ->
  (forall r, In r rest -> In r (requests q)) ->
  J rest q ->
  let q' := fold_left (fun p r =>
                         if pending (fst r) p
                         then invoke h hidden (snd r)
                                (OnPage.cancelAnimationFrame (fst r) p)
                         else p) rest q in
  scheduled q' /\ J [] q'.
Proof.
  cbv zeta. revert q. induction rest as [|r rest IH]; intros q Hs Hnd Hin HJ.
  - split; assumption.
  - cbn [fold_left]. rewrite (pending_In r q) by (apply Hin; left; reflexivity).
    cbn [map] in Hnd. inversion Hnd as [|? ? Hfresh Hnd']; subst.
    assert (Hrest : forall r', In r' rest ->
                               In r' (requests q) /\ fst r' <> fst r).
    { intros r' Hr'. split; [apply Hin; right; exact Hr'|].
      intros E. apply Hfresh. rewrite <- E. apply in_map, Hr'. }
    apply IH.
    + destruct r as [id cb]. apply invoke_scheduled; [exact Hs|].
      apply Hin. left. reflexivity.
    + exact Hnd'.
    + intros r' Hr'. apply invoke_keeps, cancel_In. apply Hrest, Hr'.
    + apply (J_served r rest q Hs); [apply Hin; left; reflexivity | | exact HJ].
      exact Hrest.
Qed.

Lemma animationFrame_inv p :
  scheduled p -> J (requests p) p ->
  scheduled (animationFrame h hidden p) /\ J [] (animationFrame h hidden p).
Proof.
  intros Hs HJ. unfold animationFrame.
  apply animationFrame_fold; [exact Hs | apply Hs | auto | exact HJ].
Qed.

End AnimationFrame.

Lemma animationFrame_scheduled h hidden p :
  scheduled p -> scheduled (animationFrame h hidden p).
Proof.
  intros Hs.
  apply (animationFrame_inv h hidden (fun _ _ => True)); auto.
Qed.

Lemma iter_inv {A : Type} (I : A -> Prop) (f : A -> A) n a :
  (forall x, I x -> I (f x)) -> I a -> I (Nat.iter n f a).
Proof.
  intros Hf Ha. induction n as [|n IH]; [exact Ha|]. apply Hf, IH.
Qed.

Lemma happen_scheduled h e p : scheduled p -> scheduled (happen h e p).
Proof.
  intros Hs. destruct e; cbn [happen].
  - apply animationFrame_scheduled, Hs.
  - destruct (clickListener p); [apply handleInput_scheduled|]; exact Hs.
  - destruct (keydownListener p); [|exact Hs]. unfold OnPage.handleKeyDown.
    destruct (String.eqb code "Space");
      [apply handleInput_scheduled|]; exact Hs.
  - apply iter_inv; [intros x; apply handleInput_scheduled | exact Hs].
  - apply initGame_scheduled, Hs.
  - destruct (gameInstance p); [apply startGame_scheduled|]; exact Hs.
  - destruct (gameInstance p); [apply startGame_scheduled|]; exact Hs.
  - destruct (gameInstance p); [apply stopGame_scheduled|]; exact Hs.
Qed.

Lemma opened_scheduled h cell c : scheduled (opened h cell c).
Proof.
  assert (H : scheduled (evaluated cell)).
  { unfold scheduled. cbn. repeat split; try constructor; intros; tauto. }
  unfold opened, OnPage.autoInit.
  destruct (c && negb (gameInstance (evaluated cell)));
    [apply initGame_scheduled|]; exact H.
Qed.

Lemma after_inv h (I : Page -> Prop) es p :
  (forall e q, I q -> I (happen h e q)) -> I p -> I (after h es p).
Proof.
  intros Hstep. revert p. induction es as [|e es IH]; intros p Hp; [exact Hp|].
  cbn [after fold_left]. apply IH, Hstep, Hp.
Qed.

Lemma after_scheduled h es cell c : scheduled (after h es (opened h cell c)).
Proof.
  apply after_inv; [intros e q; apply happen_scheduled|].
  apply opened_scheduled.
Qed.

Lemma loops_In r p :
  In r (loops p) <-> In r (requests p) /\ snd r = GameLoop.
Proof.
  unfold loops. rewrite filter_In. destruct r as [id [|c]]; cbn [snd];
    intuition congruence.
Qed.

Lemma scheduled_loops p :
  scheduled p ->
  (List.length (loops p) <= 1)%nat /\
  (forall id, In (id, GameLoop) (requests p) -> animationId p = Some id).
Proof.
  intros (_ & Hnd & Hloop & _). split; [|exact Hloop].
  assert (Hnd' : NoDup (map fst (loops p)))
    by (apply NoDup_map_filter, Hnd).
  assert (Hall : forall r, In r (loops p) -> animationId p = Some (fst r)).
  { intros [id cb] Hin. apply loops_In in Hin. cbn [snd fst] in *.
    destruct Hin as (Hin & ->). apply Hloop, Hin. }
  destruct (loops p) as [|r1 [|r2 l]]; cbn [List.length]; try lia.
  exfalso. cbn [map] in Hnd'. inversion Hnd' as [|? ? Hn _]; subst.
  apply Hn. left.
  pose proof (Hall r1 (or_introl eq_refl)) as E1.
  pose proof (Hall r2 (or_intror (or_introl eq_refl))) as E2.
  congruence.
Qed.

(** X17. At most one call of [gameLoop] is ever pending as an animation
    frame, and it is the one whose handle [animationId] holds: however
    frames, clicks, keys, touches and calls of [initGame], [start],
    [restart] and [stop] follow each other on a page, the game never runs
    two loops side by side. *)
Theorem one_game_loop (h : Host) (cell : option Z) (existingCanvas : bool)
  (es : list Happening) :
  let p := after h es (opened h cell existingCanvas) in
  (List.length (loops p) <= 1)%nat /\
  (forall id, In (id, GameLoop) (requests p) -> animationId p = Some id).
Proof. cbv zeta. apply scheduled_loops, after_scheduled. Qed.

(** ** The module state of a page *)

Lemma requested_game cb q a :
  game (set_animationId (snd (OnPage.requestAnimationFrame cb q)) a) = game q.
Proof. reflexivity. Qed.

Lemma gameLoop_game h hidden p :
  game (OnPage.gameLoop h hidden p) = gameLoop h hidden (game p).
Proof.
  rewrite gameLoop_page_blocks.
  destruct (gameRunning (game p)) eqn:Hrun; [destruct hidden|]; cbn [negb orb].
  - rewrite gameLoop_idle by auto. reflexivity.
  - rewrite requested_game. apply framed_game, Hrun.
  - rewrite gameLoop_idle by auto. reflexivity.
Qed.

Lemma startGame_game h hidden p :
  game (OnPage.startGame h hidden p) = startGame h hidden (game p).
Proof.
  rewrite startGame_page_blocks, gameLoop_game, startGame_blocks.
  destruct (animationId p); reflexivity.
Qed.

Lemma stopGame_game p : game (OnPage.stopGame p) = stopGame (game p).
Proof.
  unfold OnPage.stopGame. cbv zeta. pfields.
  destruct (animationId p); reflexivity.
Qed.

Lemma handleInput_game h hidden p :
  game (OnPage.handleInput h hidden p) = handleInput h hidden (game p).
Proof.
  unfold OnPage.handleInput. rewrite handleInput_blocks.
  destruct (gameRunning (game p)); cbn [negb];
    [reflexivity | apply startGame_game].
Qed.

Lemma handleKeyDown_game h hidden code p :
  game (OnPage.handleKeyDown h hidden code p) =
  handleKeyDown h hidden code (game p).
Proof.
  unfold OnPage.handleKeyDown, handleKeyDown.
  destruct (String.eqb code "Space"); [apply handleInput_game | reflexivity].
Qed.

Lemma initGame_game h p :
  game (OnPage.initGame h true p) = initGame h (game p).
Proof.
  unfold OnPage.initGame, OnPage.setupEventListeners, initGame.
  cbn [negb]. cbv zeta. pfields.
  generalize (game p). intros g.
  generalize (Num.div (Num.of_Z (canvas_height h)) 2%Q). intros y.
  unfold resetGame. cbv zeta.
  generalize (Num.div (Num.of_Z (canvas_height h)) 2%Q).
  intros y'.
  vm_compute. reflexivity.
Qed.

Lemma invoke_game h hidden cb p :
  game (invoke h hidden cb p) =
  match cb with
  | GameLoop => gameLoop h hidden (game p)
  | ConfettiLoop _ => updateConfetti h (game p)
  end.
Proof.
  destruct cb; cbn [invoke]; [apply gameLoop_game | apply confettiLoop_game].
Qed.

Lemma served_game h hidden r p :
  game (served h hidden r p) =
  match snd r with
  | GameLoop => gameLoop h hidden (game p)
  | ConfettiLoop _ => updateConfetti h (game p)
  end.
Proof. unfold served. rewrite invoke_game. reflexivity. Qed.

Lemma served_Reachable h hidden r p :
  Reachable h (game p) -> Reachable h (game (served h hidden r p)).
Proof.
  intros H. rewrite served_game.
  destruct (snd r); [apply reach_gameLoop | apply reach_confettiLoop]; exact H.
Qed.

Lemma happen_Reachable h e p :
  scheduled p -> Reachable h (game p) -> Reachable h (game (happen h e p)).
Proof.
  intros Hs H. destruct e; cbn [happen].
  - apply (animationFrame_inv h hidden (fun _ q => Reachable h (game q)));
      [|exact Hs | exact H].
    intros r rest q _ _ _. apply served_Reachable.
  - destruct (clickListener p); [|exact H].
    rewrite handleInput_game. apply reach_handleInput, H.
  - destruct (keydownListener p); [|exact H].
    rewrite handleKeyDown_game. apply reach_handleKeyDown, H.
  - apply (iter_inv (fun q => Reachable h (game q))); [|exact H].
    intros q Hq. rewrite handleInput_game. apply reach_handleInput, Hq.
  - destruct found; [|exact H]. rewrite initGame_game.
    apply reach_initGame, H.
  - destruct (gameInstance p); [|exact H].
    rewrite startGame_game. apply reach_startGame, H.
  - destruct (gameInstance p); [|exact H].
    unfold OnPage.restartGame. rewrite startGame_game.
    apply reach_restartGame, H.
  - destruct (gameInstance p); [|exact H].
    rewrite stopGame_game. apply reach_stopGame, H.
Qed.

Lemma opened_Reachable h cell c : Reachable h (game (opened h cell c)).
Proof.
  unfold opened, OnPage.autoInit.
  destruct (c && negb (gameInstance (evaluated cell))).
  - rewrite initGame_game. apply reach_initGame, reach_loaded.
  - apply reach_loaded.
Qed.

Lemma after_Reachable h es cell c :
  Reachable h (game (after h es (opened h cell c))).
Proof.
  apply (after_inv h (fun q => scheduled q /\ Reachable h (game q))).
  - intros e q (Hs & HR). split;
      [apply happen_scheduled | apply happen_Reachable]; assumption.
  - split; [apply opened_scheduled | apply opened_Reachable].
Qed.

(** ** A running session has its next frame pending *)

Lemma after_cons h e es p :
  after h (e :: es) p = after h es (happen h e p).
Proof. reflexivity. Qed.

Lemma gameLoop_hasLoop h p :
  gameRunning (game (OnPage.gameLoop h false p)) = true ->
  hasLoop (OnPage.gameLoop h false p).
Proof.
  rewrite gameLoop_page_blocks.
  destruct (gameRunning (game p)) eqn:Hrun; cbn [negb orb].
  - intros _. exists (S (lastHandle (framed h p))).
    pfields. apply in_app_iff. right. left. reflexivity.
  - rewrite Hrun. discriminate.
Qed.

Lemma startGame_hasLoop h p :
  gameRunning (game (OnPage.startGame h false p)) = true ->
  hasLoop (OnPage.startGame h false p).
Proof. rewrite startGame_page_blocks. apply gameLoop_hasLoop. Qed.

Lemma boosted_running h g : gameRunning (boosted h g) = gameRunning g.
Proof. pose proof (boosted_core h g) as H. core_of H. assumption. Qed.

Lemma updateConfetti_running h g :
  gameRunning (updateConfetti h g) = gameRunning g.
Proof. pose proof (updateConfetti_core h g) as H. core_of H. assumption. Qed.

Lemma handleInput_alive h p :
  (gameRunning (game p) = true -> hasLoop p) ->
  gameRunning (game (OnPage.handleInput h false p)) = true ->
  hasLoop (OnPage.handleInput h false p).
Proof.
  intros Hp. unfold OnPage.handleInput.
  destruct (gameRunning (game p)) eqn:Hrun; cbn [negb].
  - intros _. exact (Hp eq_refl).
  - apply startGame_hasLoop.
Qed.

Lemma NoDup_fst_functional {A B : Type} (l : list (A * B)) a b b' :
  NoDup (map fst l) -> In (a, b) l -> In (a, b') l -> b = b'.
Proof.
  induction l as [|[x y] l IH]; cbn [map fst]; intros Hnd H1 H2; [destruct H1|].
  inversion Hnd as [|? ? Hn Hl]; subst.
  destruct H1 as [E1 | H1], H2 as [E2 | H2].
  - congruence.
  - injection E1 as -> ->. exfalso. apply Hn.
    apply in_map_iff. exists (a, b'). auto.
  - injection E2 as -> ->. exfalso. apply Hn.
    apply in_map_iff. exists (a, b). auto.
  - apply IH; assumption.
Qed.

Lemma scheduled_functional p id cb cb' :
  scheduled p -> In (id, cb) (requests p) -> In (id, cb') (requests p) ->
  cb = cb'.
Proof. intros (_ & Hnd & _). apply NoDup_fst_functional, Hnd. Qed.

(** Calling a pending [confettiLoop] leaves the pending calls of
    [gameLoop] as they are. *)
Lemma served_confetti_loops h hidden id c q id' :
  scheduled q -> In (id, ConfettiLoop c) (requests q) ->
  (In (id', GameLoop) (requests (served h hidden (id, ConfettiLoop c) q)) <->
   In (id', GameLoop) (requests q)).
Proof.
  intros Hs Hin. unfold served. cbn [fst snd invoke].
  rewrite confettiLoop_loops, cancel_In. cbn [fst].
  split; [tauto|]. intros Hin'. split; [exact Hin'|]. intros ->.
  pose proof (scheduled_functional q id _ _ Hs Hin Hin'). discriminate.
Qed.

Lemma served_confetti_running h hidden id c q :
  game (served h hidden (id, ConfettiLoop c) q) = updateConfetti h (game q).
Proof. rewrite served_game. reflexivity. Qed.

Lemma served_alive h r q :
  scheduled q -> In r (requests q) ->
  (gameRunning (game q) = true -> hasLoop q) ->
  gameRunning (game (served h false r q)) = true ->
  hasLoop (served h false r q).
Proof.
  intros Hs Hin Hq. destruct r as [id [|c]].
  - unfold served. cbn [fst snd invoke]. apply gameLoop_hasLoop.
  - rewrite served_confetti_running, updateConfetti_running.
    intros Hrun. destruct (Hq Hrun) as (id' & Hin').
    exists id'. apply served_confetti_loops; assumption.
Qed.

Lemma happen_alive h e p :
  hiddenAt e = false -> scheduled p ->
  (gameRunning (game p) = true -> hasLoop p) ->
  gameRunning (game (happen h e p)) = true -> hasLoop (happen h e p).
Proof.
  intros Hv Hs Hp. destruct e; cbn [happen hiddenAt] in *; subst.
  - apply (animationFrame_inv h false
             (fun _ q => gameRunning (game q) = true -> hasLoop q));
      [|exact Hs | exact Hp].
    intros r rest q Hq Hin _. apply served_alive; assumption.
  - destruct (clickListener p); [apply handleInput_alive|]; exact Hp.
  - destruct (keydownListener p); [|exact Hp]. unfold OnPage.handleKeyDown.
    destruct (String.eqb code "Space"); [apply handleInput_alive|]; exact Hp.
  - apply (iter_inv (fun q => gameRunning (game q) = true -> hasLoop q));
      [|exact Hp].
    intros q. apply handleInput_alive.
  - destruct found; [|exact Hp]. rewrite initGame_game. discriminate.
  - destruct (gameInstance p); [apply startGame_hasLoop | exact Hp].
  - destruct (gameInstance p); [apply startGame_hasLoop | exact Hp].
  - destruct (gameInstance p); [|exact Hp].
    rewrite stopGame_game. discriminate.
Qed.

(** X18. On a page that is never hidden a running session always has its
    next frame waiting: whenever the session runs, exactly one call of
    [gameLoop] is pending as an animation frame, under the handle in
    [animationId]. *)
Theorem next_frame_pending (h : Host) (cell : option Z)
  (existingCanvas : bool) (es : list Happening) :
  Forall (fun e => hiddenAt e = false) es ->
  let p := after h es (opened h cell existingCanvas) in
  gameRunning (game p) = true ->
  exists id, loops p = [(id, GameLoop)] /\ animationId p = Some id.
Proof.
  intros Hv. cbv zeta.
  assert (H : scheduled (after h es (opened h cell existingCanvas)) /\
              (gameRunning (game (after h es (opened h cell existingCanvas)))
               = true ->
               hasLoop (after h es (opened h cell existingCanvas)))).
  { revert Hv. generalize (opened_scheduled h cell existingCanvas).
    assert (H0 : gameRunning (game (opened h cell existingCanvas)) = true ->
                 hasLoop (opened h cell existingCanvas)).
    { unfold opened, OnPage.autoInit.
      destruct (existingCanvas && negb (gameInstance (evaluated cell)));
        [rewrite initGame_game|]; discriminate. }
    revert H0. generalize (opened h cell existingCanvas).
    induction es as [|e es IH]; intros p H0 Hs Hv; [split; assumption|].
    inversion Hv as [|? ? He Hes]; subst. rewrite after_cons.
    apply IH; [|apply happen_scheduled, Hs | exact Hes].
    apply happen_alive; assumption. }
  destruct H as (Hs & Halive). intros Hrun.
  destruct (Halive Hrun) as (id & Hin). exists id.
  destruct (scheduled_loops _ Hs) as (Hone & Hid).
  split; [|apply Hid, Hin].
  assert (Hl : In (id, GameLoop)
                 (loops (after h es (opened h cell existingCanvas))))
    by (apply loops_In; auto).
  destruct (loops (after h es (opened h cell existingCanvas)))
    as [|r [|r' l]]; cbn [List.length] in Hone; [destruct Hl | | lia].
  destruct Hl as [-> | []]. reflexivity.
Qed.

Lemma next_frame_pending_witness :
  Forall (fun e => hiddenAt e = false) [Click false; AnimationFrame false] /\
  gameRunning
    (game (after browser [Click false; AnimationFrame false]
             (opened browser None true))) = true /\
  exists id,
    loops (after browser [Click false; AnimationFrame false]
             (opened browser None true)) = [(id, GameLoop)] /\
    animationId (after browser [Click false; AnimationFrame false]
                   (opened browser None true)) = Some id.
Proof.
  assert (H1 : Forall (fun e => hiddenAt e = false)
                 [Click false; AnimationFrame false])
    by (repeat constructor).
  assert (H2 : gameRunning
                 (game (after browser [Click false; AnimationFrame false]
                          (opened browser None true))) = true)
    by (vm_compute; reflexivity).
  split; [exact H1|]. split; [exact H2|].
  apply (next_frame_pending browser None true
           [Click false; AnimationFrame false] H1 H2).
Defined.

Lemma updateConfetti_counters h g :
  counters (updateConfetti h g) = counters g.
Proof.
  pose proof (updateConfetti_core h g) as H. core_of H.
  unfold counters. congruence.
Qed.

Lemma boosted_counters h g : counters (boosted h g) = counters g.
Proof.
  pose proof (boosted_core h g) as H. core_of H. unfold counters.
  cbn [score level frameCount set_rocket] in *. congruence.
Qed.

Lemma gameLoop_hidden h p : OnPage.gameLoop h true p = p.
Proof.
  rewrite gameLoop_page_blocks, orb_true_r. reflexivity.
Qed.

(** A frame of a hidden page calls the pending [gameLoop], which returns
    at once and asks for nothing. *)
Lemma animationFrame_hidden h p :
  scheduled p -> gameRunning (game p) = true ->
  let q := animationFrame h true p in
  stalled q /\ counters (game q) = counters (game p).
Proof.
  intros Hs Hrun. cbv zeta.
  destruct (animationFrame_inv h true
    (fun rest q =>
       gameRunning (game q) = true /\
       counters (game q) = counters (game p) /\
       forall id, In (id, GameLoop) (requests q) -> In (id, GameLoop) rest))
    with (p := p) as (_ & Hr & Hc & Hno).
  - intros [id [|c]] rest q Hq Hin Hrest (Hr & Hc & Hl).
    + unfold served. cbn [fst snd invoke]. rewrite gameLoop_hidden.
      pfields. split; [exact Hr | split; [exact Hc|]].
      intros id' Hin'.
      apply (cancel_In id (id', GameLoop) q) in Hin'. cbn [fst] in Hin'.
      destruct Hin' as (Hin' & Hne).
      destruct (Hl id' Hin') as [E | Hin'']; [congruence | exact Hin''].
    + rewrite served_confetti_running, updateConfetti_running,
        updateConfetti_counters.
      split; [exact Hr | split; [exact Hc|]].
      intros id' Hin'. apply served_confetti_loops in Hin'; try assumption.
      destruct (Hl id' Hin') as [E | Hin'']; [discriminate | exact Hin''].
  - exact Hs.
  - split; [exact Hrun | split; [reflexivity | auto]].
  - split; [split; [exact Hr|] | exact Hc].
    intros id Hin. exact (Hno id Hin).
Qed.

Lemma startGame_hidden h p :
  scheduled p ->
  stalled (OnPage.startGame h true p) /\
  game (OnPage.startGame h true p) = started h (game p).
Proof.
  intros Hs. rewrite startGame_page_blocks, gameLoop_hidden.
  destruct (animationId p) as [id|] eqn:Ha.
  - split; [split; [reflexivity|] | reflexivity].
    apply cancel_noLoop; [apply scheduled_lift, Hs | exact Ha].
  - split; [split; [reflexivity|] | reflexivity].
    apply noLoop_lift, scheduled_noLoop; assumption.
Qed.

Lemma handleInput_stalled h hidden p :
  stalled p ->
  stalled (OnPage.handleInput h hidden p) /\
  counters (game (OnPage.handleInput h hidden p)) = counters (game p).
Proof.
  intros (Hrun & Hno). unfold OnPage.handleInput. rewrite Hrun. cbn [negb].
  unfold stalled. pfields. rewrite boosted_counters. split; [|reflexivity].
  split; [rewrite boosted_running; exact Hrun | exact Hno].
Qed.

Lemma animationFrame_stalled h hidden p :
  scheduled p -> stalled p ->
  stalled (animationFrame h hidden p) /\
  counters (game (animationFrame h hidden p)) = counters (game p).
Proof.
  intros Hs (Hrun & Hno).
  destruct (animationFrame_inv h hidden
    (fun _ q => stalled q /\ counters (game q) = counters (game p)))
    with (p := p) as (_ & H); [|exact Hs | split; [split|]; auto | exact H].
  intros [id [|c]] rest q Hq Hin _ ((Hr & Hn) & Hc).
  - exfalso. exact (Hn id Hin).
  - rewrite served_confetti_running, updateConfetti_counters.
    split; [|exact Hc]. split.
    + rewrite served_confetti_running, updateConfetti_running. exact Hr.
    + intros id' Hin'. apply served_confetti_loops in Hin'; try assumption.
      exact (Hn id' Hin').
Qed.

Lemma happen_stalled h e p :
  visitor e = true -> scheduled p -> stalled p ->
  stalled (happen h e p) /\
  counters (game (happen h e p)) = counters (game p).
Proof.
  intros Hv Hs Hst. destruct e; cbn [visitor] in Hv; try discriminate;
    cbn [happen].
  - apply animationFrame_stalled; assumption.
  - destruct (clickListener p); [apply handleInput_stalled | split]; auto.
  - destruct (keydownListener p); [|split; auto].
    unfold OnPage.handleKeyDown.
    destruct (String.eqb code "Space");
      [apply handleInput_stalled | split]; auto.
  - apply (iter_inv (fun q => stalled q /\
                              counters (game q) = counters (game p)));
      [|split; auto].
    intros q (Hq & Hc). destruct (handleInput_stalled h hidden q Hq) as (? & E).
    split; [assumption | congruence].
Qed.

Lemma after_stalled h es p :
  Forall (fun e => visitor e = true) es -> scheduled p -> stalled p ->
  stalled (after h es p) /\ counters (game (after h es p)) = counters (game p).
Proof.
  revert p. induction es as [|e es IH]; intros p Hv Hs Hst; [split; auto|].
  inversion Hv as [|? ? He Hes]; subst. rewrite after_cons.
  destruct (happen_stalled h e p He Hs Hst) as (Hst' & Hc).
  destruct (IH (happen h e p) Hes (happen_scheduled h e p Hs) Hst')
    as (Hst'' & Hc').
  split; [exact Hst'' | congruence].
Qed.

(** X19. A frame that the browser runs while the page is hidden stalls the
    session.  [gameLoop] returns at its guard without asking for another
    frame, so the session still counts as running while no call of
    [gameLoop] is pending; and no frame, click, key or touch after that
    brings one back: the session stays running in name, its score and its
    frame counter where they were. *)
Theorem hidden_frame_stalls (h : Host) (cell : option Z)
  (existingCanvas : bool) (es es' : list Happening) :
  let p := after h es (opened h cell existingCanvas) in
  let q := after h (AnimationFrame true :: es') p in
  gameRunning (game p) = true ->
  Forall (fun e => visitor e = true) es' ->
  gameRunning (game q) = true /\ loops q = [] /\
  score (game q) = score (game p) /\
  frameCount (game q) = frameCount (game p).
Proof.
  cbv zeta. intros Hrun Hv.
  pose proof (after_scheduled h es cell existingCanvas) as Hs.
  destruct (animationFrame_hidden h _ Hs Hrun) as (Hst & Hc).
  rewrite after_cons. cbn [happen].
  destruct (after_stalled h es' _ Hv (animationFrame_scheduled h true _ Hs) Hst)
    as ((Hr & Hno) & Hc').
  rewrite Hc in Hc'. unfold counters in Hc'.
  split; [exact Hr|]. split.
  - destruct (loops _) as [|[id cb] l] eqn:E; [reflexivity|].
    assert (Hin : In (id, cb) (loops
      (after h es' (animationFrame h true
         (after h es (opened h cell existingCanvas))))))
      by (rewrite E; left; reflexivity).
    apply loops_In in Hin. cbn [snd] in Hin. destruct Hin as (Hin & ->).
    exfalso. exact (Hno id Hin).
  - split; congruence.
Qed.

Lemma hidden_frame_stalls_witness :
  gameRunning (game (after browser [Click false] (opened browser None true)))
  = true /\
  Forall (fun e => visitor e = true)
    [Click false; AnimationFrame false; TouchStart false] /\
  loops (after browser
           [AnimationFrame true; Click false; AnimationFrame false;
            TouchStart false]
           (after browser [Click false] (opened browser None true))) = [].
Proof.
  assert (H1 : gameRunning
                 (game (after browser [Click false]
                          (opened browser None true))) = true)
    by (vm_compute; reflexivity).
  assert (H2 : Forall (fun e => visitor e = true)
                 [Click false; AnimationFrame false; TouchStart false])
    by (repeat constructor).
  split; [exact H1|]. split; [exact H2|].
  apply (hidden_frame_stalls browser None true [Click false]
           [Click false; AnimationFrame false; TouchStart false] H1 H2).
Defined.

(** X20. A session started while the page is hidden never gets its first
    frame: [start] resets the state and sets the flag, [gameLoop] returns
    at its guard, and through the frames, clicks, keys and touches that
    follow the session counts as running with score 0 and frame counter 0
    and no call of [gameLoop] pending. *)
Theorem hidden_start_stalls (h : Host) (cell : option Z)
  (existingCanvas : bool) (es es' : list Happening) :
  let p := after h es (opened h cell existingCanvas) in
  let q := after h (CallStart true :: es') p in
  gameInstance p = true ->
  Forall (fun e => visitor e = true) es' ->
  gameRunning (game q) = true /\ loops q = [] /\
  score (game q) = 0 /\ frameCount (game q) = 0.
Proof.
  cbv zeta. intros Hi Hv.
  pose proof (after_scheduled h es cell existingCanvas) as Hs.
  destruct (startGame_hidden h _ Hs) as (Hst & Hg).
  rewrite after_cons. cbn [happen]. rewrite Hi.
  destruct (after_stalled h es' _ Hv (startGame_scheduled h true _ Hs) Hst)
    as ((Hr & Hno) & Hc').
  rewrite Hg in Hc'. unfold counters in Hc'.
  split; [exact Hr|]. split.
  - destruct (loops _) as [|[id cb] l] eqn:E; [reflexivity|].
    assert (Hin : In (id, cb) (loops
      (after h es' (OnPage.startGame h true
         (after h es (opened h cell existingCanvas))))))
      by (rewrite E; left; reflexivity).
    apply loops_In in Hin. cbn [snd] in Hin. destruct Hin as (Hin & ->).
    exfalso. exact (Hno id Hin).
  - split; [change 0 with (score (started h (game (after h es
             (opened h cell existingCanvas)))))
           | change 0 with (frameCount (started h (game (after h es
             (opened h cell existingCanvas)))))]; congruence.
Qed.

Lemma hidden_start_stalls_witness :
  gameInstance (after browser [] (opened browser None true)) = true /\
  Forall (fun e => visitor e = true) [AnimationFrame false; Click false] /\
  gameRunning
    (game (after browser
             [CallStart true; AnimationFrame false; Click false]
             (after browser [] (opened browser None true)))) = true /\
  frameCount
    (game (after browser
             [CallStart true; AnimationFrame false; Click false]
             (after browser [] (opened browser None true)))) = 0.
Proof.
  assert (H1 : gameInstance (after browser [] (opened browser None true))
               = true) by reflexivity.
  assert (H2 : Forall (fun e => visitor e = true)
                 [AnimationFrame false; Click false])
    by (repeat constructor).
  split; [exact H1|]. split; [exact H2|].
  pose proof (hidden_start_stalls browser None true []
                [AnimationFrame false; Click false] H1 H2) as H.
  cbv zeta in H. split; apply H.
Defined.

(** ** Listeners *)

Lemma gameLoop_listeners h hidden p :
  listeners (OnPage.gameLoop h hidden p) = listeners p.
Proof.
  rewrite gameLoop_page_blocks.
  destruct (negb (gameRunning (game p)) || hidden); [reflexivity|].
  destruct (framed_grows h p) as (k & _ & _ & _ & _ & Hc & Hk & Ht).
  generalize dependent (framed h p). intros q Hc Hk Ht.
  unfold listeners. pfields. congruence.
Qed.

Lemma confettiLoop_listeners h c p :
  listeners (OnPage.confettiLoop h c p) = listeners p.
Proof.
  unfold OnPage.confettiLoop. cbv zeta. destruct (c <? 120)%nat; reflexivity.
Qed.

Lemma startGame_listeners h hidden p :
  listeners (OnPage.startGame h hidden p) = listeners p.
Proof.
  rewrite startGame_page_blocks, gameLoop_listeners.
  destruct (animationId p); reflexivity.
Qed.

Lemma handleInput_listeners h hidden p :
  listeners (OnPage.handleInput h hidden p) = listeners p.
Proof.
  unfold OnPage.handleInput. destruct (negb (gameRunning (game p)));
    [apply startGame_listeners | reflexivity].
Qed.

Lemma stopGame_listeners p : listeners (OnPage.stopGame p) = listeners p.
Proof.
  unfold OnPage.stopGame. cbv zeta. pfields.
  destruct (animationId p); reflexivity.
Qed.

Lemma animationFrame_listeners h hidden p :
  scheduled p -> listeners (animationFrame h hidden p) = listeners p.
Proof.
  intros Hs.
  destruct (animationFrame_inv h hidden
    (fun _ q => listeners q = listeners p)) with (p := p) as (_ & H);
    [|exact Hs | reflexivity | exact H].
  intros [id [|c]] rest q _ _ _ Hq; unfold served; cbn [fst snd invoke].
  - rewrite gameLoop_listeners. exact Hq.
  - rewrite confettiLoop_listeners. exact Hq.
Qed.

Lemma iter_handleInput_listeners h hidden n p :
  listeners (Nat.iter n (OnPage.handleInput h hidden) p) = listeners p.
Proof.
  induction n as [|n IH]; [reflexivity|]. rewrite !Nat.iter_succ.
  rewrite handleInput_listeners. exact IH.
Qed.

Lemma listeners_fields p c k t :
  listeners p = (c, k, t) ->
  clickListener p = c /\ keydownListener p = k /\ touchListeners p = t.
Proof. unfold listeners. intros H. inversion H. repeat split. Qed.

(** What a happening does to the listeners. *)
Lemma happen_listeners h e p :
  scheduled p ->
  listeners (happen h e p) =
  match e with
  | InitGame true => (true, true, S (touchListeners p))
  | _ => listeners p
  end.
Proof.
  intros Hs. destruct e; cbn [happen].
  - apply animationFrame_listeners, Hs.
  - destruct (clickListener p) eqn:E; [|reflexivity].
    rewrite handleInput_listeners. reflexivity.
  - destruct (keydownListener p); [|reflexivity].
    unfold OnPage.handleKeyDown.
    destruct (String.eqb code "Space");
      [apply handleInput_listeners | reflexivity].
  - apply iter_handleInput_listeners.
  - destruct found; reflexivity.
  - destruct (gameInstance p); [apply startGame_listeners | reflexivity].
  - destruct (gameInstance p); [apply startGame_listeners | reflexivity].
  - destruct (gameInstance p); [apply stopGame_listeners | reflexivity].
Qed.

Lemma inits_cons e es :
  inits (e :: es) =
  ((match e with InitGame true => 1 | _ => 0 end) + inits es)%nat.
Proof.
  unfold inits. cbn [filter]. destruct e as [| | | |[|]| | |]; reflexivity.
Qed.

Lemma after_listeners h es p :
  scheduled p ->
  touchListeners (after h es p) = (touchListeners p + inits es)%nat /\
  (clickListener p = (0 <? touchListeners p)%nat ->
   clickListener (after h es p) = (0 <? touchListeners (after h es p))%nat) /\
  (keydownListener p = (0 <? touchListeners p)%nat ->
   keydownListener (after h es p) = (0 <? touchListeners (after h es p))%nat).
Proof.
  revert p. induction es as [|e es IH]; intros p Hs.
  - cbn [after fold_left]. unfold inits. cbn [filter List.length].
    rewrite Nat.add_0_r. auto.
  - rewrite after_cons, inits_cons.
    destruct (IH (happen h e p) (happen_scheduled h e p Hs)) as (Ht & Hc & Hk).
    pose proof (happen_listeners h e p Hs) as Hl.
    assert (E : touchListeners (happen h e p) =
                (touchListeners p +
                 match e with InitGame true => 1 | _ => 0 end)%nat /\
                (clickListener p = (0 <? touchListeners p)%nat ->
                 clickListener (happen h e p) =
                 (0 <? touchListeners (happen h e p))%nat) /\
                (keydownListener p = (0 <? touchListeners p)%nat ->
                 keydownListener (happen h e p) =
                 (0 <? touchListeners (happen h e p))%nat)).
    { destruct e as [| | | |[|]| | |];
        apply listeners_fields in Hl; destruct Hl as (-> & -> & ->);
        try (rewrite Nat.add_0_r; auto).
      split; [lia | split; reflexivity]. }
    destruct E as (Et & Ec & Ek).
    split; [rewrite Ht, Et; lia|].
    split; intros H; [apply Hc, Ec, H | apply Hk, Ek, H].
Qed.

(** Calls of [handleInput] one after the other: the first starts a stopped
    game, the others boost the rocket as long as the game runs. *)
Lemma iter_handleInput_game h hidden n p :
  game (Nat.iter n (OnPage.handleInput h hidden) p) =
  Nat.iter n (handleInput h hidden) (game p).
Proof.
  induction n as [|n IH]; [reflexivity|]. rewrite !Nat.iter_succ.
  rewrite handleInput_game. f_equal. exact IH.
Qed.

Lemma iter_boosted_running h n g :
  gameRunning (Nat.iter n (boosted h) g) = gameRunning g.
Proof.
  induction n as [|n IH]; [reflexivity|]. rewrite !Nat.iter_succ.
  rewrite boosted_running. exact IH.
Qed.

Lemma iter_handleInput_running h hidden n g :
  gameRunning g = true ->
  Nat.iter n (handleInput h hidden) g = Nat.iter n (boosted h) g.
Proof.
  intros Hrun. induction n as [|n IH]; [reflexivity|].
  rewrite !Nat.iter_succ. rewrite IH, handleInput_blocks.
  rewrite iter_boosted_running, Hrun. reflexivity.
Qed.

(** X21. Every call of [initGame] that finds its container leaves one more
    listener for touches on the canvas: the listener is a function written
    in place, which [setupEventListeners] never removes.  The listeners for
    clicks and for keys are there once [initGame] has run, however often it
    runs.  So a touch calls [handleInput] as many times as [initGame] has
    run. *)
Theorem touch_listeners_pile_up (h : Host) (cell : option Z)
  (existingCanvas : bool) (es : list Happening) :
  let p := after h es (opened h cell existingCanvas) in
  touchListeners p = ((if existingCanvas then 1 else 0) + inits es)%nat /\
  clickListener p = (0 <? touchListeners p)%nat /\
  keydownListener p = (0 <? touchListeners p)%nat /\
  forall hidden,
    game (happen h (TouchStart hidden) p) =
    Nat.iter (touchListeners p) (handleInput h hidden) (game p).
Proof.
  cbv zeta.
  destruct (after_listeners h es (opened h cell existingCanvas)
              (opened_scheduled h cell existingCanvas)) as (Ht & Hc & Hk).
  assert (H0 : touchListeners (opened h cell existingCanvas) =
               (if existingCanvas then 1 else 0)%nat /\
               clickListener (opened h cell existingCanvas) =
               existingCanvas /\
               keydownListener (opened h cell existingCanvas) =
               existingCanvas).
  { unfold opened, OnPage.autoInit. destruct existingCanvas;
      repeat split. }
  destruct H0 as (H0 & H1 & H2). rewrite H0 in *.
  split; [exact Ht|].
  split; [apply Hc; rewrite H1; destruct existingCanvas; reflexivity|].
  split; [apply Hk; rewrite H2; destruct existingCanvas; reflexivity|].
  intros hidden. cbn [happen]. apply iter_handleInput_game.
Qed.

(** X22. With more than one listener for touches, a touch on a game that
    does not run starts a session and boosts the rocket in the same event:
    on a visible page with a canvas 81 high or more, what the touch leaves
    is the first frame of a new session, boosted once for every listener
    but the first. *)
Theorem touch_starts_and_boosts (h : Host) (cell : option Z)
  (existingCanvas : bool) (es : list Happening) (n : nat) :
  let p := after h es (opened h cell existingCanvas) in
  touchListeners p = S n ->
  gameRunning (game p) = false ->
  81 <= canvas_height h ->
  game (happen h (TouchStart false) p) =
  Nat.iter n (boosted h) (firstFrame h (game p)).
Proof.
  cbv zeta. intros Ht Hrun HH. cbn [happen].
  rewrite iter_handleInput_game, Ht, Nat.iter_succ_r, handleInput_blocks, Hrun.
  cbn [negb].
  pose proof (after_Reachable h es cell existingCanvas) as HR.
  pose proof (Reachable_asBuilt h _ HR) as Hb.
  rewrite (startGame_firstFrame h).
  - apply iter_handleInput_running. reflexivity.
  - rewrite (launched_outOfBounds h _ Hb).
    destruct (Z.leb_spec 81 (canvas_height h)); [reflexivity | lia].
Qed.

Lemma touch_starts_and_boosts_witness :
  touchListeners (after browser [InitGame true] (opened browser None true))
  = 2%nat /\
  gameRunning
    (game (after browser [InitGame true] (opened browser None true)))
  = false /\
  81 <= canvas_height browser /\
  game (happen browser (TouchStart false)
          (after browser [InitGame true] (opened browser None true))) =
  Nat.iter 1 (boosted browser)
    (firstFrame browser
       (game (after browser [InitGame true] (opened browser None true)))).
Proof.
  assert (H1 : touchListeners
                 (after browser [InitGame true] (opened browser None true))
               = 2%nat) by reflexivity.
  assert (H2 : gameRunning
                 (game (after browser [InitGame true]
                          (opened browser None true))) = false)
    by reflexivity.
  assert (H3 : 81 <= canvas_height browser) by (vm_compute; discriminate).
  split; [exact H1|]. split; [exact H2|]. split; [exact H3|].
  apply (touch_starts_and_boosts browser None true [InitGame true] 1
           H1 H2 H3).
Defined.

(** ** Confetti, step by step *)

Lemma generateObstacles_confetti h g :
  confettiParticles (generateObstacles h g) = confettiParticles g.
Proof. unfold generateObstacles. destruct (Num.is_zero _); reflexivity. Qed.

Lemma generateStars_confetti h g :
  confettiParticles (generateStars h g) = confettiParticles g.
Proof. unfold generateStars. destruct (Num.is_zero _); reflexivity. Qed.

Lemma generatePowerUps_confetti h g :
  confettiParticles (generatePowerUps h g) = confettiParticles g.
Proof. unfold generatePowerUps. destruct (Num.is_zero _); reflexivity. Qed.

Lemma updateStars_confetti h g :
  confettiParticles (updateStars h g) = confettiParticles g.
Proof.
  unfold updateStars.
  assert (Hb : forall a s, confettiParticles s = confettiParticles g ->
                 confettiParticles (snd (starBody h a s)) =
                 confettiParticles g).
  { intros a s Hs. rewrite starBody_blocks. cbn [snd].
    destruct (starTaken s a); [|exact Hs].
    rewrite createExplosion_confetti. exact Hs. }
  pose proof (reverseLoop_inv (starBody h)
    (fun s => confettiParticles s = confettiParticles g) Hb
    (stars g) g eq_refl) as H.
  destruct (reverseLoop (starBody h) (stars g) g). exact H.
Qed.

Lemma updatePowerUps_confetti h g :
  confettiParticles (updatePowerUps h g) = confettiParticles g.
Proof.
  unfold updatePowerUps.
  assert (Hb : forall a s, confettiParticles s = confettiParticles g ->
                 confettiParticles (snd (powerUpBody h a s)) =
                 confettiParticles g).
  { intros a s Hs. rewrite powerUpBody_blocks. cbn [snd].
    destruct (puTaken s a); [|exact Hs].
    rewrite createExplosion_confetti. exact Hs. }
  pose proof (reverseLoop_inv (powerUpBody h)
    (fun s => confettiParticles s = confettiParticles g) Hb
    (powerUps g) g eq_refl) as H.
  destruct (reverseLoop (powerUpBody h) (powerUps g) g). exact H.
Qed.

Lemma updateConfetti_aged h g :
  Forall (agedFrom (confettiParticles g))
    (confettiParticles (updateConfetti h g)).
Proof.
  unfold updateConfetti.
  match goal with |- context [reverseLoop ?b ?l ?s] =>
    pose proof (reverseLoop_Forall_in b (fun _ => True)
                  (fun c => In c l) (agedFrom l) (fun _ _ _ => I)) as H;
    assert (PQ : forall a s0 c', In a l -> True ->
                                 fst (b a s0) = Some c' -> agedFrom l c')
  end.
  { intros a s0 c' Ha _. cbv beta zeta. cbn [fst p_life p_y].
    destruct (_ || _) eqn:E; [discriminate|].
    intros E'. injection E' as <-. exists a. cbn [p_life].
    apply orb_false_iff in E. destruct E as (E & _).
    split; [exact Ha|]. split; [apply Num_sub_eq|].
    destruct (Qlt_le_dec 0 (Num.sub (p_life a) 1%Q)) as [Hlt | Hle];
      [exact Hlt|].
    apply Num_le_iff in Hle. congruence. }
  specialize (H PQ (confettiParticles g) g
                (proj2 (Forall_forall _ _) (fun x Hx => Hx)) I).
  destruct (reverseLoop _ (confettiParticles g) g). exact H.
Qed.

Lemma forLoop_confetti (body : nat -> Game -> Game) (P : Particle -> Prop) :
  (forall i g, exists c,
     confettiParticles (body i g) = confettiParticles g ++ [c] /\ P c) ->
  forall n i g, exists l,
    confettiParticles (forLoop n i body g) = confettiParticles g ++ l /\
    List.length l = n /\ Forall P l.
Proof.
  intros Hbody n; induction n as [|n IH]; intros i g; simpl.
  - exists []. rewrite app_nil_r. repeat split. constructor.
  - destruct (Hbody i g) as (p & Hp & HP).
    destruct (IH (S i) (body i g)) as (l & Hl & Hn & HF).
    exists (p :: l). rewrite Hl, Hp, <- app_assoc. simpl.
    repeat split; [congruence | constructor; assumption].
Qed.

Lemma createConfetti_confetti h g :
  unitTape h ->
  exists burst,
    confettiParticles (createConfetti h g) = confettiParticles g ++ burst /\
    List.length burst = 120%nat /\ Forall newConfetti burst.
Proof.
  intros Hu. unfold createConfetti. apply forLoop_confetti.
  intros i s. eexists. split; [reflexivity|].
  unfold newConfetti. cbn [p_life].
  rewrite Num_add_eq, Num_mul_eq.
  match goal with |- context [random_tape h ?n] =>
    destruct (Hu n) as (H0 & H1) end.
  split; lra.
Qed.

Lemma endGame_confetti h g :
  unitTape h ->
  exists burst,
    Forall newConfetti burst /\
    Forall (agedFrom (confettiParticles g ++ burst))
      (confettiParticles (endGame h g)).
Proof.
  intros Hu.
  destruct (createConfetti_confetti h (set_gameRunning g false) Hu)
    as (burst & Hb & _ & HF).
  exists burst. split; [exact HF|]. rewrite endGame_blocks.
  change (confettiParticles (set_gameRunning g false))
    with (confettiParticles g) in Hb.
  rewrite <- Hb.
  generalize (createConfetti h (set_gameRunning g false)). intros s.
  assert (E : confettiParticles
                (updateScoreDisplay (showGameOver (recordHighScore s))) =
              confettiParticles s).
  { unfold recordHighScore. destruct (score s >? highScore s); reflexivity. }
  rewrite <- E. apply updateConfetti_aged.
Qed.

(** ** Confetti and the callbacks that clear it *)

Lemma covered_more p q c :
  (forall id k, In (id, ConfettiLoop k) (requests p) ->
                In (id, ConfettiLoop k) (requests q)) ->
  covered p c -> covered q c.
Proof. intros Hsub (id & k & Hin & Hl). exists id, k. auto. Qed.

Lemma covered_aged p l c' :
  Forall (covered p) l -> agedFrom l c' -> covered p c'.
Proof.
  intros HF (c & Hin & Hl & _). rewrite Forall_forall in HF.
  destruct (HF c Hin) as (id & k & Hr & Hc). exists id, k.
  split; [exact Hr|]. rewrite Hl. lra.
Qed.

Lemma watched_none p : confettiParticles (game p) = [] -> watched p.
Proof. unfold watched. intros ->. constructor. Qed.

Lemma watched_more p q :
  (forall id k, In (id, ConfettiLoop k) (requests p) ->
                In (id, ConfettiLoop k) (requests q)) ->
  confettiParticles (game q) = confettiParticles (game p) ->
  watched p -> watched q.
Proof.
  unfold watched. intros Hsub ->. apply Forall_impl. intros c.
  apply covered_more, Hsub.
Qed.

Lemma watched_lift f p :
  confettiParticles (f (game p)) = confettiParticles (game p) ->
  watched p -> watched (OnPage.lift f p).
Proof. intros E. apply watched_more; [auto | exact E]. Qed.

Lemma watched_step f p :
  (forall g, confettiParticles (f g) = confettiParticles g) ->
  watched p -> watched (OnPage.lift f p).
Proof. intros E. apply watched_lift, E. Qed.

Lemma watched_updateConfetti h p :
  watched p -> watched (OnPage.lift (updateConfetti h) p).
Proof.
  unfold watched. intros H. pfields.
  pose proof (updateConfetti_aged h (game p)) as Ha.
  revert Ha. apply Forall_impl. intros c' Hc'.
  apply (covered_aged p _ c' H Hc').
Qed.

Lemma grows_confetti k p q id c :
  grows k p q -> In (id, ConfettiLoop c) (requests p) ->
  In (id, ConfettiLoop c) (requests q).
Proof. intros (Hr & _) Hin. rewrite Hr. apply in_app_iff. auto. Qed.

Lemma endGame_watched h p :
  unitTape h -> watched p -> watched (OnPage.endGame h p).
Proof.
  intros Hu H. unfold watched. rewrite endGame_game.
  destruct (endGame_confetti h (game p) Hu) as (burst & Hb & Ha).
  pose proof (endGame_grows h p) as Hg.
  revert Ha. apply Forall_impl. intros c' Hc'.
  apply (covered_aged _ (confettiParticles (game p) ++ burst)); [|exact Hc'].
  apply Forall_app. split.
  - revert H. apply Forall_impl. intros c. apply covered_more.
    intros id k. apply (grows_confetti 1 p _ id k Hg).
  - revert Hb. apply Forall_impl. intros c (_ & Hl).
    exists (S (lastHandle p)), 1%nat. destruct Hg as (Hr & _).
    split.
    + rewrite Hr. apply in_app_iff. right. apply confettiRequests_In.
      cbn [fst snd]. split; [lia | reflexivity].
    + change (inject_Z (121 - Z.of_nat 1)) with 120%Q. lra.
Qed.

Lemma updateRocket_watched h p :
  unitTape h -> watched p -> watched (OnPage.updateRocket h p).
Proof.
  intros Hu H. unfold OnPage.updateRocket. cbv zeta.
  destruct (outOfBounds h (flyRocket (rocket (game p)))).
  - destruct (negb (hasShield (flyRocket (rocket (game p))))).
    + apply endGame_watched; [exact Hu|].
      apply watched_step; [intros g0; reflexivity | exact H].
    + apply watched_step; [intros g0; reflexivity|].
      apply watched_step; [intros g0; reflexivity | exact H].
  - apply watched_step; [intros g0; reflexivity | exact H].
Qed.

Lemma obstacleBody_watched h o p :
  unitTape h -> watched p -> watched (snd (OnPage.obstacleBody h o p)).
Proof.
  intros Hu H. unfold OnPage.obstacleBody. cbv zeta.
  set (o' := moveObstacle (game p) o).
  set (q := if checkCollision (rocket (game p)) o'
            then if hasShield (rocket (game p))
                 then _ else OnPage.endGame h p
            else p).
  assert (Hq : watched q).
  { subst q. destruct (checkCollision (rocket (game p)) o'); [|exact H].
    destruct (hasShield (rocket (game p)));
      [|apply endGame_watched; assumption].
    apply watched_step; [intros g0; apply createExplosion_confetti|].
    apply watched_step; [intros g0; reflexivity|].
    apply watched_step; [intros g0; reflexivity | exact H]. }
  clearbody q.
  destruct (negb (passed o') &&
            Num.lt (Num.add (obs_x o') (obs_width o'))
                   (rocket_x (rocket (game q)))); exact Hq.
Qed.

Lemma obstacles_loop_watched h l p :
  unitTape h -> watched p ->
  watched (snd (OnPage.reverseLoop Obstacle (OnPage.obstacleBody h) l p)).
Proof.
  intros Hu H. induction l as [|o rest IH]; [exact H|].
  cbn [OnPage.reverseLoop].
  destruct (OnPage.reverseLoop Obstacle (OnPage.obstacleBody h) rest p)
    as [rest1 p1].
  cbn [snd] in IH.
  pose proof (obstacleBody_watched h o p1 Hu IH) as Hb.
  destruct (OnPage.obstacleBody h o p1) as [a1 p2]. exact Hb.
Qed.

Lemma updateObstacles_watched h p :
  unitTape h -> watched p -> watched (OnPage.updateObstacles h p).
Proof.
  intros Hu H. unfold OnPage.updateObstacles.
  pose proof (obstacles_loop_watched h (obstacles (game p)) p Hu H) as Hl.
  destruct (OnPage.reverseLoop Obstacle (OnPage.obstacleBody h)
              (obstacles (game p)) p) as [l1 p1].
  exact Hl.
Qed.

Lemma framed_watched h p :
  unitTape h -> watched p -> watched (framed h p).
Proof.
  intros Hu H. unfold framed. cbv zeta.
  set (p0 := OnPage.lift (fun g => set_level g (levelOf (score g)))
               (OnPage.lift (fun g => set_frameCount g (frameCount g + 1)) p)).
  assert (H0 : watched p0).
  { subst p0. apply watched_step; [intros g0; reflexivity|].
    apply watched_step; [intros g0; reflexivity | exact H]. }
  clearbody p0.
  pose proof (updateRocket_watched h p0 Hu H0) as H1.
  set (p1 := OnPage.updateRocket h p0) in *. clearbody p1.
  assert (H2 : watched (OnPage.lift (generateObstacles h) p1))
    by (apply watched_step;
        [intros g0; apply generateObstacles_confetti | exact H1]).
  set (p2 := OnPage.lift (generateObstacles h) p1) in *. clearbody p2.
  assert (H3 : watched (OnPage.lift (generateStars h) p2))
    by (apply watched_step;
        [intros g0; apply generateStars_confetti | exact H2]).
  set (p3 := OnPage.lift (generateStars h) p2) in *. clearbody p3.
  assert (H4 : watched (OnPage.lift (generatePowerUps h) p3))
    by (apply watched_step;
        [intros g0; apply generatePowerUps_confetti | exact H3]).
  set (p4 := OnPage.lift (generatePowerUps h) p3) in *. clearbody p4.
  pose proof (updateObstacles_watched h p4 Hu H4) as H5.
  set (p5 := OnPage.updateObstacles h p4) in *. clearbody p5.
  assert (H6 : watched (OnPage.lift (updateStars h) p5))
    by (apply watched_step;
        [intros g0; apply updateStars_confetti | exact H5]).
  set (p6 := OnPage.lift (updateStars h) p5) in *. clearbody p6.
  assert (H7 : watched (OnPage.lift (updatePowerUps h) p6))
    by (apply watched_step;
        [intros g0; apply updatePowerUps_confetti | exact H6]).
  set (p7 := OnPage.lift (updatePowerUps h) p6) in *. clearbody p7.
  assert (H8 : watched (OnPage.lift updateParticles p7))
    by (apply watched_step;
        [intros g0; apply updateParticles_confetti | exact H7]).
  set (p8 := OnPage.lift updateParticles p7) in *. clearbody p8.
  pose proof (watched_updateConfetti h p8 H8) as H9.
  set (p9 := OnPage.lift (updateConfetti h) p8) in *. clearbody p9.
  apply watched_step; [intros g0; reflexivity|].
  apply watched_step; [intros g0; reflexivity | exact H9].
Qed.

(** ** The handle in [animationId] *)

Lemma named_grows k p q : grows k p q -> named p -> named q.
Proof.
  intros (Hr & Hl & Ha & _) Hn id Hid. rewrite Ha in Hid.
  destruct (Hn id Hid) as (Hle & Hno). split; [lia|].
  intros c Hin. rewrite Hr in Hin. apply in_app_iff in Hin.
  destruct Hin as [Hin | Hin]; [exact (Hno c Hin)|].
  apply confettiRequests_In in Hin. cbn [fst] in Hin. lia.
Qed.

Lemma named_cancel id p : named p -> named (OnPage.cancelAnimationFrame id p).
Proof.
  intros Hn id' Hid. destruct (Hn id' Hid) as (Hle & Hno).
  split; [exact Hle|]. intros c Hin. apply cancel_In in Hin.
  exact (Hno c (proj1 Hin)).
Qed.

Lemma watched_cancel id p :
  (forall c, ~ In (id, ConfettiLoop c) (requests p)) ->
  watched p -> watched (OnPage.cancelAnimationFrame id p).
Proof.
  intros Hno. apply watched_more; [|reflexivity].
  intros id' k Hin. apply cancel_In. split; [exact Hin|]. cbn [fst].
  intros ->. exact (Hno k Hin).
Qed.

Lemma tidy_cancel_named id p :
  animationId p = Some id -> tidy p ->
  tidy (OnPage.cancelAnimationFrame id p).
Proof.
  intros Ha (Hn & Hw). split; [apply named_cancel, Hn|].
  apply watched_cancel; [apply (Hn id Ha) | exact Hw].
Qed.

Lemma gameLoop_tidy h hidden p :
  unitTape h -> scheduled p -> tidy p -> tidy (OnPage.gameLoop h hidden p).
Proof.
  intros Hu Hs (Hn & Hw). rewrite gameLoop_page_blocks.
  destruct (negb (gameRunning (game p)) || hidden); [split; assumption|].
  destruct (framed_grows h p) as (k & Hg).
  pose proof (grows_scheduled k p _ Hg Hs) as (Hle & _).
  pose proof (named_grows k p _ Hg Hn) as Hn'.
  pose proof (framed_watched h p Hu Hw) as Hw'.
  clear Hg. generalize dependent (framed h p). intros q Hle Hn' Hw'.
  split.
  - intros id Hid. pfields. injection Hid as <-. split; [lia|].
    intros c Hin. apply in_app_iff in Hin. destruct Hin as [Hin | [E | []]];
      [|discriminate].
    rewrite Forall_forall in Hle. specialize (Hle _ Hin). cbn [fst] in Hle.
    lia.
  - revert Hw'. apply watched_more; [|reflexivity].
    intros id c Hin. pfields. apply in_app_iff. left. exact Hin.
Qed.

Lemma started_confetti h g : confettiParticles (started h g) = [].
Proof. reflexivity. Qed.

Lemma startGame_tidy h hidden p :
  unitTape h -> scheduled p -> named p -> tidy (OnPage.startGame h hidden p).
Proof.
  intros Hu Hs Hn. rewrite startGame_page_blocks.
  destruct (animationId p) as [id|] eqn:Ha.
  - apply gameLoop_tidy;
      [exact Hu | apply cancel_scheduled, scheduled_lift, Hs|].
    split; [apply named_cancel; exact Hn|].
    apply watched_none. apply started_confetti.
  - apply gameLoop_tidy; [exact Hu | apply scheduled_lift, Hs|].
    split; [exact Hn|]. apply watched_none. apply started_confetti.
Qed.

Lemma stopGame_tidy p : tidy p -> tidy (OnPage.stopGame p).
Proof.
  intros (Hn & Hw). unfold OnPage.stopGame. cbv zeta. pfields.
  destruct (animationId p) as [id|] eqn:Ha.
  - split; [intros id' Hid; discriminate|].
    assert (H : watched (OnPage.cancelAnimationFrame id
                  (OnPage.lift (fun g => set_gameRunning g false) p))).
    { apply watched_cancel; [apply (Hn id Ha)|].
      apply watched_step; [intros g0; reflexivity | exact Hw]. }
    exact H.
  - split; [exact Hn|].
    apply watched_step; [intros g0; reflexivity | exact Hw].
Qed.

Lemma boosted_confetti h g :
  confettiParticles (boosted h g) = confettiParticles g.
Proof. unfold boosted. rewrite createBoostParticles_confetti. reflexivity. Qed.

Lemma handleInput_tidy h hidden p :
  unitTape h -> scheduled p -> tidy p -> tidy (OnPage.handleInput h hidden p).
Proof.
  intros Hu Hs (Hn & Hw). unfold OnPage.handleInput.
  destruct (negb (gameRunning (game p)));
    [apply startGame_tidy; assumption|].
  split; [exact Hn|]. apply watched_step; [apply boosted_confetti | exact Hw].
Qed.

Lemma resetGame_confetti h g : confettiParticles (resetGame h g) = [].
Proof. reflexivity. Qed.

Lemma updateScoreDisplay_confetti g :
  confettiParticles (updateScoreDisplay g) = confettiParticles g.
Proof. reflexivity. Qed.

Lemma initGame_confetti h g : confettiParticles (initGame h g) = [].
Proof.
  cbv beta zeta delta [initGame].
  rewrite updateScoreDisplay_confetti. apply resetGame_confetti.
Qed.

Lemma initGame_tidy h found p : tidy p -> tidy (OnPage.initGame h found p).
Proof.
  intros (Hn & Hw). destruct found; [|split; assumption].
  split; [exact Hn|]. apply watched_none. rewrite initGame_game.
  apply initGame_confetti.
Qed.

Lemma budget_succ k :
  (inject_Z (121 - Z.of_nat (S k)) == inject_Z (121 - Z.of_nat k) - 1)%Q.
Proof.
  replace (121 - Z.of_nat (S k)) with ((121 - Z.of_nat k) + (-1)) by lia.
  rewrite inject_Z_plus. reflexivity.
Qed.

(** Calling a pending [confettiLoop]. *)
Lemma served_confetti_tidy h hidden id k q :
  scheduled q -> In (id, ConfettiLoop k) (requests q) -> tidy q ->
  tidy (served h hidden (id, ConfettiLoop k) q).
Proof.
  intros Hs Hin (Hn & Hw). pose proof Hs as (Hle & _ & _ & _).
  unfold served. cbn [fst snd invoke].
  unfold OnPage.confettiLoop. cbv zeta. split.
  - assert (Hn' : named (OnPage.lift (updateConfetti h)
                           (OnPage.cancelAnimationFrame id q)))
      by (apply named_cancel, Hn).
    destruct (k <? 120)%nat; [|exact Hn'].
    intros id' Hid. destruct (Hn' id' Hid) as (Hl' & Hno). pfields.
    split; [lia|]. intros c Hc. apply in_app_iff in Hc.
    destruct Hc as [Hc | [E | []]]; [exact (Hno c Hc)|].
    injection E as E _. lia.
  - unfold watched.
    assert (Hg : game (if (k <? 120)%nat
                       then snd (OnPage.requestAnimationFrame
                                   (ConfettiLoop (S k))
                                   (OnPage.lift (updateConfetti h)
                                      (OnPage.cancelAnimationFrame id q)))
                       else OnPage.lift (updateConfetti h)
                              (OnPage.cancelAnimationFrame id q)) =
                 updateConfetti h (game q))
      by (destruct (k <? 120)%nat; reflexivity).
    rewrite Hg. clear Hg.
    pose proof (updateConfetti_aged h (game q)) as Ha.
    revert Ha. apply Forall_impl. intros c' (c & Hc & Hl & Hpos).
    unfold watched in Hw. rewrite Forall_forall in Hw.
    destruct (Hw c Hc) as (id' & k' & Hin' & Hk').
    destruct (Nat.eq_dec id' id) as [-> | Hne].
    + pose proof (scheduled_functional q id _ _ Hs Hin Hin') as E.
      injection E as <-.
      destruct (Nat.ltb_spec k 120) as [Hlt | Hge].
      * exists (S (lastHandle q)), (S k). split.
        -- pfields. apply in_app_iff. right. left. reflexivity.
        -- rewrite Hl, budget_succ. lra.
      * exfalso.
        assert (Hz : (inject_Z (121 - Z.of_nat k) <= 1)%Q).
        { change 1%Q with (inject_Z 1). rewrite <- Zle_Qle. lia. }
        lra.
    + exists id', k'. split.
      * assert (Hkeep : In (id', ConfettiLoop k')
                  (requests (OnPage.lift (updateConfetti h)
                               (OnPage.cancelAnimationFrame id q)))).
        { apply cancel_In. split; [exact Hin' | exact Hne]. }
        destruct (k <? 120)%nat; [|exact Hkeep].
        pfields. apply in_app_iff. left. exact Hkeep.
      * rewrite Hl. lra.
Qed.

(** Calling the pending [gameLoop]. *)
Lemma served_loop_tidy h hidden id q :
  unitTape h -> scheduled q -> In (id, GameLoop) (requests q) -> tidy q ->
  tidy (served h hidden (id, GameLoop) q).
Proof.
  intros Hu Hs Hin (Hn & Hw). unfold served. cbn [fst snd invoke].
  apply gameLoop_tidy; [exact Hu | apply cancel_scheduled, Hs|].
  split; [apply named_cancel, Hn|].
  apply watched_cancel; [|exact Hw].
  intros c Hc. pose proof (scheduled_functional q id _ _ Hs Hin Hc).
  discriminate.
Qed.

Lemma animationFrame_tidy h hidden p :
  unitTape h -> scheduled p -> tidy p -> tidy (animationFrame h hidden p).
Proof.
  intros Hu Hs Ht.
  destruct (animationFrame_inv h hidden (fun _ q => tidy q)) with (p := p)
    as (_ & H); [|exact Hs | exact Ht | exact H].
  intros [id [|k]] rest q Hq Hin _ Hq'.
  - apply served_loop_tidy; assumption.
  - apply served_confetti_tidy; assumption.
Qed.

Lemma happen_tidy h e p :
  unitTape h -> scheduled p -> tidy p -> tidy (happen h e p).
Proof.
  intros Hu Hs Ht. destruct e; cbn [happen].
  - apply animationFrame_tidy; assumption.
  - destruct (clickListener p); [apply handleInput_tidy|]; assumption.
  - destruct (keydownListener p); [|exact Ht]. unfold OnPage.handleKeyDown.
    destruct (String.eqb code "Space"); [apply handleInput_tidy|]; assumption.
  - apply (iter_inv (fun q => scheduled q /\ tidy q)); [|split; assumption].
    intros q (Hq & Hq'). split;
      [apply handleInput_scheduled | apply handleInput_tidy]; assumption.
  - apply initGame_tidy, Ht.
  - destruct (gameInstance p); [|exact Ht].
    apply startGame_tidy; [exact Hu | exact Hs | apply Ht].
  - destruct (gameInstance p); [|exact Ht].
    apply startGame_tidy; [exact Hu | exact Hs | apply Ht].
  - destruct (gameInstance p); [apply stopGame_tidy|]; exact Ht.
Qed.

Lemma opened_tidy h cell c : tidy (opened h cell c).
Proof.
  assert (H : tidy (evaluated cell)).
  { split; [intros id Hid; discriminate | apply watched_none; reflexivity]. }
  unfold opened, OnPage.autoInit.
  destruct (c && negb (gameInstance (evaluated cell)));
    [apply initGame_tidy|]; exact H.
Qed.

Lemma after_tidy h es cell c :
  unitTape h -> tidy (after h es (opened h cell c)).
Proof.
  intros Hu.
  apply (after_inv h (fun q => scheduled q /\ tidy q)).
  - intros e q (Hs & Ht). split;
      [apply happen_scheduled | apply happen_tidy]; assumption.
  - split; [apply opened_scheduled | apply opened_tidy].
Qed.

(** X23. With random values from 0 up to 1, every piece of confetti on
    the list has a confetti loop pending that outlasts it: a call of
    [confettiLoop] is pending as an animation frame whose counter
    [confettiFrames], between 1 and 120, leaves it 121 - [confettiFrames]
    calls, and the life of the piece is at most that number.  So when no
    confetti loop is pending there is no confetti. *)
Theorem confetti_has_its_loop (h : Host) (cell : option Z)
  (existingCanvas : bool) (es : list Happening) :
  unitTape h ->
  let p := after h es (opened h cell existingCanvas) in
  Forall (fun c =>
            exists id confettiFrames,
              In (id, ConfettiLoop confettiFrames) (requests p) /\
              (1 <= confettiFrames <= 120)%nat /\
              (p_life c <= inject_Z (121 - Z.of_nat confettiFrames))%Q)
    (confettiParticles (game p)) /\
  ((forall id confettiFrames,
      ~ In (id, ConfettiLoop confettiFrames) (requests p)) ->
   confettiParticles (game p) = []).
Proof.
  intros Hu. cbv zeta.
  destruct (after_tidy h es cell existingCanvas Hu) as (_ & Hw).
  pose proof (after_scheduled h es cell existingCanvas) as (_ & _ & _ & Hc).
  unfold watched in Hw. split.
  - revert Hw. apply Forall_impl. intros c (id & k & Hin & Hl).
    exists id, k. split; [exact Hin|]. split; [apply (Hc id k Hin) | exact Hl].
  - intros Hno. destruct (confettiParticles _) as [|c l]; [reflexivity|].
    inversion Hw as [|? ? (id & k & Hin & _) _]; subst.
    exfalso. exact (Hno id k Hin).
Qed.

Lemma confetti_has_its_loop_witness :
  unitTape browser /\
  ((forall id confettiFrames,
      ~ In (id, ConfettiLoop confettiFrames)
          (requests (after browser falls (opened browser None true)))) ->
   confettiParticles
     (game (after browser falls (opened browser None true))) = []).
Proof.
  split; [exact browser_unitTape|].
  apply (confetti_has_its_loop browser None true falls browser_unitTape).
Defined.

Lemma after_app h es es' p :
  after h (es ++ es') p = after h es' (after h es p).
Proof. unfold after. apply fold_left_app. Qed.

Lemma animationFrame_over h hidden j p :
  scheduled p -> gameRunning (game p) = false ->
  (forall id c, In (id, ConfettiLoop c) (requests p) -> (j <= c)%nat) ->
  let q := animationFrame h hidden p in
  gameRunning (game q) = false /\ core (game q) = core (game p) /\
  confettiFrom (S j) q.
Proof.
  intros Hs Hrun Hj. cbv zeta.
  destruct (animationFrame_inv h hidden
    (fun rest q =>
       gameRunning (game q) = false /\ core (game q) = core (game p) /\
       forall r, In r (requests q) ->
         (In r rest /\ forall c, snd r = ConfettiLoop c -> (j <= c)%nat) \/
         (exists c, snd r = ConfettiLoop c /\ (S j <= c)%nat)))
    with (p := p) as (_ & Hr & Hc & Hall).
  - intros [id cb] rest q Hq Hin _ (Hr & Hc & Hall).
    assert (Hold : forall r',
              In r' (requests (OnPage.cancelAnimationFrame id q)) ->
              (In r' rest /\
               forall c, snd r' = ConfettiLoop c -> (j <= c)%nat) \/
              (exists c, snd r' = ConfettiLoop c /\ (S j <= c)%nat)).
    { intros r' Hr'. apply cancel_In in Hr'. destruct Hr' as (Hr' & Hne).
      destruct (Hall r' Hr') as [([E | Hrest] & Hb) | Hnew].
      - subst r'. cbn [fst] in Hne. congruence.
      - left. split; assumption.
      - right. exact Hnew. }
    destruct cb as [|k]; unfold served; cbn [fst snd invoke].
    + rewrite gameLoop_page_blocks.
      change (game (OnPage.cancelAnimationFrame id q)) with (game q).
      rewrite Hr. cbn [negb orb].
      split; [exact Hr | split; [exact Hc | exact Hold]].
    + rewrite confettiLoop_game.
      change (game (OnPage.cancelAnimationFrame id q)) with (game q).
      rewrite updateConfetti_running, updateConfetti_core.
      split; [exact Hr | split; [exact Hc|]].
      intros r' Hr'. unfold OnPage.confettiLoop in Hr'. cbv zeta in Hr'.
      destruct (k <? 120)%nat; [|apply Hold, Hr'].
      apply request_In in Hr'. destruct Hr' as [Hr' | ->];
        [apply Hold, Hr'|].
      right. exists (S k). split; [reflexivity|].
      destruct (Hall _ Hin) as [(_ & Hb) | (c & E & Hb)].
      * specialize (Hb k eq_refl). lia.
      * cbn [snd] in E. injection E as <-. lia.
  - exact Hs.
  - split; [exact Hrun | split; [reflexivity|]].
    intros [id cb] Hin. left. split; [exact Hin|].
    cbn [snd]. intros c ->. exact (Hj id c Hin).
  - split; [exact Hr | split; [exact Hc|]].
    intros r Hin. destruct (Hall r Hin) as [([] & _) | H]. exact H.
Qed.

Lemma frames_over h hs j p :
  scheduled p -> gameRunning (game p) = false ->
  (forall id c, In (id, ConfettiLoop c) (requests p) -> (j <= c)%nat) ->
  let q := after h (map AnimationFrame hs) p in
  scheduled q /\ gameRunning (game q) = false /\
  core (game q) = core (game p) /\
  forall id c, In (id, ConfettiLoop c) (requests q) ->
               (j + List.length hs <= c)%nat.
Proof.
  revert j p. induction hs as [|hidden hs IH]; intros j p Hs Hrun Hj; cbv zeta.
  - cbn [map List.length]. unfold after. cbn [fold_left].
    split; [exact Hs | split; [exact Hrun | split; [reflexivity|]]].
    intros id c Hin. rewrite Nat.add_0_r. exact (Hj id c Hin).
  - cbn [map List.length]. rewrite after_cons. cbn [happen].
    destruct (animationFrame_over h hidden j p Hs Hrun Hj)
      as (Hr1 & Hc1 & Hf1).
    pose proof (animationFrame_scheduled h hidden p Hs) as Hs1.
    destruct (IH (S j) (animationFrame h hidden p) Hs1 Hr1) as
      (Hs2 & Hr2 & Hc2 & Hf2).
    { intros id c Hin. destruct (Hf1 _ Hin) as (c' & E & Hle).
      cbn [snd] in E. injection E as <-. exact Hle. }
    split; [exact Hs2 | split; [exact Hr2 | split; [congruence|]]].
    intros id c Hin. specialize (Hf2 id c Hin). lia.
Qed.

Lemma frames_noLoop h hs p :
  scheduled p -> gameRunning (game p) = false -> hs <> [] ->
  noLoop (after h (map AnimationFrame hs) p).
Proof.
  intros Hs Hrun Hne. destruct hs as [|hidden hs]; [congruence|].
  cbn [map]. rewrite after_cons. cbn [happen].
  destruct (animationFrame_over h hidden 0 p Hs Hrun) as (Hr1 & _ & Hf1);
    [intros; lia|].
  pose proof (animationFrame_scheduled h hidden p Hs) as Hs1.
  assert (Hno : noLoop (animationFrame h hidden p)).
  { intros id Hin. destruct (Hf1 _ Hin) as (c & E & _). discriminate. }
  revert Hs1 Hr1 Hno. generalize (animationFrame h hidden p). clear.
  induction hs as [|hidden hs IH]; intros p Hs Hrun Hno; [exact Hno|].
  cbn [map]. rewrite after_cons. cbn [happen].
  destruct (animationFrame_over h hidden 0 p Hs Hrun) as (Hr1 & _ & Hf1);
    [intros; lia|].
  apply IH; [apply animationFrame_scheduled, Hs | exact Hr1|].
  intros id Hin. destruct (Hf1 _ Hin) as (c & E & _). discriminate.
Qed.

(** X24. With random values from 0 up to 1, the game at rest clears up:
    from any page on which the session does not run, 120 animation frames
    or more with nothing else in between leave no callback pending and no
    confetti on the list, and flag, score, high score, level, frame
    counter, rocket, obstacles, stars, power-ups, storage and display as
    they were. *)
Theorem confetti_settles (h : Host) (cell : option Z)
  (existingCanvas : bool) (es : list Happening) (hs : list bool) :
  unitTape h ->
  let p := after h es (opened h cell existingCanvas) in
  let q := after h (map AnimationFrame hs) p in
  gameRunning (game p) = false ->
  (120 <= List.length hs)%nat ->
  requests q = [] /\ confettiParticles (game q) = [] /\
  core (game q) = core (game p).
Proof.
  intros Hu. cbv zeta. intros Hrun Hlen.
  pose proof (after_scheduled h es cell existingCanvas) as Hs.
  pose proof Hs as (_ & _ & _ & Hc).
  destruct (frames_over h hs 1 _ Hs Hrun) as (Hs' & _ & Hcore & Hf).
  { intros id c Hin. apply (Hc id c Hin). }
  pose proof (frames_noLoop h hs _ Hs Hrun) as Hno.
  pose proof (after_tidy h (es ++ map AnimationFrame hs) cell existingCanvas
                Hu) as (_ & Hw).
  rewrite after_app in Hw. unfold watched in Hw.
  assert (Hne : hs <> []) by (intros ->; cbn in Hlen; lia).
  specialize (Hno Hne). destruct Hs' as (_ & _ & _ & Hc').
  set (q := after h (map AnimationFrame hs)
              (after h es (opened h cell existingCanvas))) in *.
  clearbody q.
  assert (Hempty : requests q = []).
  { destruct (requests q) as [|[id [|c]] l] eqn:E; [reflexivity| |].
    - exfalso. apply (Hno id). rewrite E. left. reflexivity.
    - exfalso. pose proof (Hf id c (or_introl eq_refl)).
      pose proof (Hc' id c (or_introl eq_refl)). lia. }
  split; [exact Hempty | split; [|exact Hcore]].
  destruct (confettiParticles (game q)) as [|c l]; [reflexivity|].
  inversion Hw as [|? ? (id & k & Hin & _) _]; subst.
  rewrite Hempty in Hin. destruct Hin.
Qed.

Lemma confetti_settles_witness :
  unitTape browser /\
  gameRunning (game (after browser falls (opened browser None true)))
  = false /\
  (120 <= List.length (repeat false 120))%nat /\
  requests (after browser (map AnimationFrame (repeat false 120))
              (after browser falls (opened browser None true))) = [] /\
  confettiParticles
    (game (after browser (map AnimationFrame (repeat false 120))
             (after browser falls (opened browser None true)))) = [].
Proof.
  assert (H1 : gameRunning
                 (game (after browser falls (opened browser None true)))
               = false) by (vm_compute; reflexivity).
  assert (H2 : (120 <= List.length (repeat false 120))%nat)
    by (rewrite repeat_length; apply le_n).
  split; [exact browser_unitTape|]. split; [exact H1|]. split; [exact H2|].
  pose proof (confetti_settles browser None true falls (repeat false 120)
                browser_unitTape H1 H2) as H.
  cbv zeta in H. split; apply H.
Defined.

(** ** A running session keeps the rocket within the canvas *)

Lemma inside_iff h r : inside h r <-> outOfBounds h r = false.
Proof.
  unfold inside. split.
  - intros (H0 & H1). destruct (outOfBounds h r) eqn:E; [|reflexivity].
    apply outOfBounds_iff in E. lra.
  - intros E. destruct (Qlt_le_dec (rocket_y r) 0) as [Hlt | Hge].
    + assert (Ho : outOfBounds h r = true)
        by (apply outOfBounds_iff; right; exact Hlt).
      congruence.
    + split; [exact Hge|].
      destruct (Qlt_le_dec (inject_Z (canvas_height h) - rocket_height r)
                  (rocket_y r)) as [Hlt | Hle]; [|lra].
      assert (Ho : outOfBounds h r = true)
        by (apply outOfBounds_iff; left; exact Hlt).
      congruence.
Qed.

Lemma inside_geom h r r' : geom r' = geom r -> inside h r -> inside h r'.
Proof.
  intros Hg. apply geom_fields in Hg. destruct Hg as (_ & Hy & _ & Hh & _).
  unfold inside. rewrite Hy, Hh. tauto.
Qed.

Lemma clampRocket_height h r :
  rocket_height (clampRocket h r) = rocket_height r.
Proof. reflexivity. Qed.

(** After a frame in which the rocket does not crash into the edge, the
    rocket is within the canvas: it has not left it, or the shield has put
    it back. *)
Lemma settledRocket_inside h r :
  (rocket_height r <= inject_Z (canvas_height h))%Q ->
  outOfBounds h (flyRocket r) && negb (hasShield (flyRocket r)) = false ->
  inside h (settledRocket h r).
Proof.
  intros Hfit Hcrash. unfold settledRocket. cbv zeta.
  assert (Hh : rocket_height (flyRocket r) = rocket_height r)
    by apply (flyRocket_fields r).
  destruct (outOfBounds h (flyRocket r)) eqn:Ho.
  - destruct (hasShield (flyRocket r)); [|discriminate]. cbn [andb].
    unfold inside. rewrite clampRocket_height.
    pose proof (clampRocket_range h (flyRocket r)) as Hc.
    rewrite Hh in *. specialize (Hc Hfit). lra.
  - cbn [andb]. apply inside_iff, Ho.
Qed.

Lemma gameLoop_inside h g :
  40 <= canvas_height h -> asBuilt (rocket g) ->
  gameRunning g = true -> gameRunning (gameLoop h false g) = true ->
  inside h (rocket (gameLoop h false g)).
Proof.
  intros HH Hb Hrun Hrun'.
  destruct (gameLoop_fields h g Hrun) as (_ & _ & _ & Hr & Hg).
  cbv zeta in Hr, Hg. rewrite Hrun' in Hg. symmetry in Hg.
  apply andb_true_iff in Hg. destruct Hg as (Hg & _).
  apply negb_true_iff in Hg. unfold boundaryCrash in Hg. cbv zeta in Hg.
  rewrite Hr.
  apply (inside_geom h (rocket (beginFrame h g)));
    [apply afterPowerUps_geom|].
  rewrite beginFrame_rocket. apply settledRocket_inside; [|exact Hg].
  destruct Hb as (_ & _ & -> & _).
  change 40%Q with (inject_Z 40). rewrite <- Zle_Qle. exact HH.
Qed.

Lemma started_inside h g :
  80 <= canvas_height h -> asBuilt (rocket g) ->
  inside h (rocket (started h g)).
Proof.
  intros HH Hb. rewrite started_rocket. unfold inside.
  cbn [rocket_y rocket_height set_shieldTime set_hasShield
       set_rocket_velocity set_rocket_y].
  destruct Hb as (_ & _ & -> & _). unfold Num.of_Z. rewrite Num_div_eq.
  assert (Hc : (80 <= inject_Z (canvas_height h))%Q).
  { change 80%Q with (inject_Z 80). rewrite <- Zle_Qle. exact HH. }
  assert (Hd : (inject_Z (canvas_height h) / 2 ==
                inject_Z (canvas_height h) * (1 # 2))%Q) by field.
  rewrite Hd. split; lra.
Qed.

Lemma Reachable_inside h g :
  80 <= canvas_height h -> Reachable h g ->
  gameRunning g = true -> inside h (rocket g).
Proof.
  intros HH HR.
  assert (H : asBuilt (rocket g) /\
              (gameRunning g = true -> inside h (rocket g)));
    [|apply H].
  revert g HR.
  apply (Reachable_inv h (fun g => asBuilt (rocket g) /\
           (gameRunning g = true -> inside h (rocket g)))).
  - intros cell. split; [repeat split | discriminate].
  - intros s (Hb & _). split; [rewrite resetGame_rocket; exact Hb|].
    discriminate.
  - intros s Hs. exact Hs.
  - intros s _ (Hb & _).
    assert (Hb' : asBuilt (rocket (started h s)))
      by (rewrite started_rocket; exact Hb).
    split; [apply gameLoop_asBuilt; [reflexivity | exact Hb']|].
    apply gameLoop_inside; [lia | exact Hb' | reflexivity].
  - intros s (Hb & _). split; [rewrite started_rocket; exact Hb|].
    intros _. apply started_inside; assumption.
  - intros s _ (Hb & _) Hrun.
    split; [apply gameLoop_asBuilt; assumption|].
    apply gameLoop_inside; [lia | exact Hb | exact Hrun].
  - intros s (Hb & Hi) Hrun. rewrite boosted_rocket.
    split; [exact Hb|]. intros _. exact (Hi Hrun).
  - intros s (Hb & _). split; [exact Hb | discriminate].
  - intros s (Hb & Hi). rewrite updateConfetti_rocket.
    split; [exact Hb|]. rewrite updateConfetti_running. exact Hi.
Qed.

(** X25. On a canvas 80 high or more, the rocket of a running session is
    always within the canvas: in every reachable state in which the session
    runs, its upper edge is not above the upper edge of the canvas ([y] is
    at least 0) and its lower edge not below the lower one ([y] is at most
    the height less 40).  A frame that would take it out ends the session,
    or the shield puts it back at the edge. *)
Theorem rocket_stays_inside (h : Host) (g : Game) :
  80 <= canvas_height h -> Reachable h g -> gameRunning g = true ->
  (0 <= rocket_y (rocket g))%Q /\
  (rocket_y (rocket g) <= inject_Z (canvas_height h) - 40)%Q /\
  outOfBounds h (rocket g) = false.
Proof.
  intros HH HR Hrun. pose proof (Reachable_inside h g HH HR Hrun) as Hi.
  pose proof (proj1 (inside_iff h (rocket g)) Hi) as Ho.
  destruct Hi as (H0 & H1).
  destruct (Reachable_asBuilt h g HR) as (_ & _ & Hh & _).
  rewrite Hh in H1. repeat split; [exact H0 | lra | exact Ho].
Qed.

Lemma rocket_stays_inside_witness :
  80 <= canvas_height browser /\ Reachable browser atFiveHundred /\
  gameRunning atFiveHundred = true /\
  outOfBounds browser (rocket atFiveHundred) = false.
Proof.
  assert (H1 : 80 <= canvas_height browser) by (vm_compute; discriminate).
  assert (H2 : Reachable browser atFiveHundred)
    by apply Reachable_run, fresh_Reachable.
  assert (H3 : gameRunning atFiveHundred = true) by (vm_compute; reflexivity).
  split; [exact H1|]. split; [exact H2|]. split; [exact H3|].
  apply (rocket_stays_inside browser atFiveHundred H1 H2 H3).
Defined.
